(** * endee-rag-system: the chunker, the embedding service, the vector store
      and the retrieval pipeline, embedded from the Python sources under
      [src/] and checked against the specification. *)

From Stdlib Require Import ZArith Floats Ascii String Lia.
From stdpp Require Import gmap strings list sorting.

Local Open Scope Z_scope.

(** Python [str] values are lists of characters.  Characters are the code
    points below 256; identifiers (dictionary keys, model names, messages)
    are Rocq strings. *)
Abbreviation pystr := (list ascii).

(** Exceptions the modelled code raises or lets through. *)
Inductive exn :=
| RuntimeError (msg : string)
| ValueError (msg : string)
| KeyError (key : string)
| IndexError
| AttributeError
| StopIteration
| ExternalError (msg : string).

(** The result of a call that may raise. *)
Inductive outcome (A : Type) :=
| Ok (a : A)
| Raise (e : exn).
Arguments Ok {A} a.
Arguments Raise {A} e.

(** ** The [str] methods the sources use *)
Module PyStr.

(** [str.isspace] on one character: TAB..CR, FS..US, space, NEL, NBSP. *)
Definition is_space (c : ascii) : bool :=
  let n := nat_of_ascii c in
  ((9 <=? n)%nat && (n <=? 13)%nat) || ((28 <=? n)%nat && (n <=? 32)%nat)
  || (n =? 133)%nat || (n =? 160)%nat.

(** [s.lstrip()] *)
Fixpoint lstrip (s : pystr) : pystr :=
  match s with
  | [] => []
  | c :: t => if is_space c then lstrip t else s
  end.

(** [s.rstrip()] *)
Fixpoint rstrip (s : pystr) : pystr :=
  match s with
  | [] => []
  | c :: t =>
      match rstrip t with
      | [] => if is_space c then [] else [c]
      | r => c :: r
      end
  end.

(** [s.strip()] *)
Definition strip (s : pystr) : pystr := rstrip (lstrip s).

(** Puts [c] in front of the first word of [ws]. *)
Definition glue (c : ascii) (ws : list pystr) : list pystr :=
  match ws with
  | [] => [[c]]
  | w :: ws' => (c :: w) :: ws'
  end.

(** [s.split()]: the maximal runs of non-whitespace characters. *)
Fixpoint split (s : pystr) : list pystr :=
  match s with
  | [] => []
  | c :: t =>
      if is_space c then split t
      else match t with
           | [] => [[c]]
           | d :: _ => if is_space d then [c] :: split t else glue c (split t)
           end
  end.

(** [sep.join(ws)] *)
Fixpoint join (sep : pystr) (ws : list pystr) : pystr :=
  match ws with
  | [] => []
  | [w] => w
  | w :: ws' => w ++ sep ++ join sep ws'
  end.

Definition space : pystr := [" "%char].

(** Truth value of a [str]: non-empty. *)
Definition truthy (s : pystr) : bool :=
  match s with [] => false | _ => true end.

(** [l[-k:]] for [k > 0]: the last [k] elements, all of [l] when it is
    shorter. *)
Definition last_n {A} (k : nat) (l : list A) : list A :=
  drop (length l - k)%nat l.

Definition of_string (s : string) : pystr := list_ascii_of_string s.

End PyStr.

(** ** document_processor.py *)
Module DocumentProcessor.
Import PyStr.

Record page_data := { page : Z; text : pystr }.

Record doc_metadata := {
  source : pystr;
  total_pages : Z;
  extraction_method : pystr
}.

Record document_data := {
  content : list page_data;
  metadata : doc_metadata
}.

Record chunk_metadata := {
  cm_source : pystr;
  cm_page : Z;
  cm_chunk_index : Z;
  cm_word_count : nat;
  cm_sentence_count : nat;
  cm_extraction_method : pystr
}.

Record chunk := {
  chunk_id : Z;
  chunk_text : pystr;
  chunk_metadata_of : chunk_metadata
}.

(** The configuration held by a [DocumentProcessor]. *)
Record config := { chunk_size : Z; chunk_overlap : Z }.

(** The characters of the class [[.!?]]. *)
Definition is_boundary (c : ascii) : bool :=
  (Ascii.eqb c "."%char || Ascii.eqb c "!"%char || Ascii.eqb c "?"%char)%bool.

(** [re.split(r'[.!?]+', text)]: the pieces between maximal runs of boundary
    characters; [in_sep] says that the previous character was one. *)
Fixpoint re_split_from (in_sep : bool) (s : pystr) : list pystr :=
  match s with
  | [] => [[]]
  | c :: t =>
      if is_boundary c then
        if in_sep then re_split_from true t else [] :: re_split_from true t
      else glue c (re_split_from false t)
  end.

Definition re_split (s : pystr) : list pystr := re_split_from false s.

(** The loop of [_split_into_sentences] over the pieces. *)
Fixpoint clean_sentences (pieces : list pystr) : list pystr :=
  match pieces with
  | [] => []
  | sentence :: rest =>
      let sentence := strip sentence in
      if truthy sentence && (10 <? length sentence)%nat
      then sentence :: clean_sentences rest
      else clean_sentences rest
  end.

Definition _split_into_sentences (text : pystr) : list pystr :=
  clean_sentences (re_split text).

(** The arguments of one call of [_create_chunk]; the sentence list is only
    counted by it. *)
Record chunk_call := {
  call_id : Z;
  call_text : pystr;
  call_page : Z;
  call_sentences : list pystr
}.

Definition _create_chunk (md : doc_metadata) (c : chunk_call) : chunk :=
  {| chunk_id := call_id c;
     chunk_text := strip (call_text c);
     chunk_metadata_of :=
       {| cm_source := source md;
          cm_page := call_page c;
          cm_chunk_index := call_id c;
          cm_word_count := length (split (call_text c));
          cm_sentence_count := length (call_sentences c);
          cm_extraction_method := extraction_method md |} |}.

Section Chunking.
Variable cfg : config.

(** [chunks.append(...); chunk_id += 1] under [if current_chunk:]. *)
Definition save_chunk (page_num chunk_id : Z) (current_chunk : pystr)
    (current_sentences : list pystr) : list chunk_call * Z :=
  if truthy current_chunk
  then ([ {| call_id := chunk_id; call_text := current_chunk;
             call_page := page_num; call_sentences := current_sentences |} ],
        chunk_id + 1)
  else ([], chunk_id).

(** The buffer a closed chunk leaves behind for [sentence]. *)
Definition restart (current_sentences : list pystr) (sentence : pystr)
    : pystr * list pystr :=
  if (0 <? chunk_overlap cfg) && negb (bool_decide (current_sentences = []))
  then let overlap_sentences :=
         last_n (Z.to_nat (chunk_overlap cfg)) current_sentences in
       (join space overlap_sentences ++ space ++ sentence,
        overlap_sentences ++ [sentence])
  else (sentence, [sentence]).

(** The sentence loop of one page followed by the flush of the last
    buffer; returns the [_create_chunk] calls in order and the next id. *)
Fixpoint chunk_sentences (page_num chunk_id : Z) (current_chunk : pystr)
    (current_sentences sentences : list pystr) : list chunk_call * Z :=
  match sentences with
  | [] => save_chunk page_num chunk_id current_chunk current_sentences
  | sentence :: rest =>
      let test_chunk :=
        if truthy current_chunk then current_chunk ++ space ++ sentence
        else sentence in
      if Z.of_nat (length (split test_chunk)) <=? chunk_size cfg then
        chunk_sentences page_num chunk_id test_chunk
          (current_sentences ++ [sentence]) rest
      else
        let '(saved, chunk_id') :=
          save_chunk page_num chunk_id current_chunk current_sentences in
        let '(current_chunk', current_sentences') :=
          restart current_sentences sentence in
        let '(later, last_id) :=
          chunk_sentences page_num chunk_id' current_chunk'
            current_sentences' rest in
        (saved ++ later, last_id)
  end.

(** One iteration of the page loop. *)
Definition chunk_page (chunk_id : Z) (p : page_data) : list chunk_call * Z :=
  chunk_sentences (page p) chunk_id [] [] (_split_into_sentences (text p)).

(** The page loop: the calls of each page, page by page. *)
Fixpoint chunk_pages (chunk_id : Z) (pages : list page_data)
    : list (list chunk_call) :=
  match pages with
  | [] => []
  | p :: rest =>
      let '(calls, chunk_id') := chunk_page chunk_id p in
      calls :: chunk_pages chunk_id' rest
  end.

Definition split_text_into_chunks (d : document_data) : list chunk :=
  _create_chunk (metadata d) <$> concat (chunk_pages 0 (content d)).

End Chunking.

End DocumentProcessor.

(** ** embedding_service.py *)
Module EmbeddingService.
Import PyStr.

Abbreviation vector := (list float).

(** An argument of [_clean_text] as that function sees it: a [str], or an
    object of another type, of which only the truth value is looked at
    before [text.split] fails. *)
Inductive pytext :=
| Str (s : pystr)
| Falsy
| Truthy.

(** The [input] of one [embeddings.create] request. *)
Inductive embed_input :=
| InputStr (s : pystr)
| InputList (l : list pystr).

Definition _get_embedding_dimension (model : string) : nat :=
  if String.eqb model "text-embedding-3-small" then 1536
  else if String.eqb model "text-embedding-3-large" then 3072
  else if String.eqb model "text-embedding-ada-002" then 1536
  else 1536.

(** The fields [__init__] derives from its arguments. *)
Record service := { model : string }.

Definition embedding_dimension (svc : service) : nat :=
  _get_embedding_dimension (model svc).

(** [[0.0] * self.embedding_dimension] *)
Definition zero_vector (svc : service) : vector :=
  repeat 0%float (embedding_dimension svc).

Definition max_tokens : nat := 8000.

Definition _clean_text (text : pytext) : outcome pystr :=
  match text with
  | Str s =>
      if negb (truthy s) then Ok []
      else
        let cleaned := join space (split s) in
        let words := split cleaned in
        if (max_tokens <? length words)%nat
        then Ok (join space (take max_tokens words))
        else Ok cleaned
  | Falsy => Ok []
  | Truthy => Raise AttributeError
  end.

(** [[self._clean_text(text) for text in texts]] *)
Fixpoint clean_texts (texts : list pytext) : outcome (list pystr) :=
  match texts with
  | [] => Ok []
  | text :: rest =>
      match _clean_text text with
      | Raise e => Raise e
      | Ok c =>
          match clean_texts rest with
          | Raise e => Raise e
          | Ok cs => Ok (c :: cs)
          end
      end
  end.

(** The [enumerate] loop that collects [valid_texts] and [valid_indices]. *)
Fixpoint collect_valid (idx : nat) (cleaned_texts : list pystr)
    : list pystr * list nat :=
  match cleaned_texts with
  | [] => ([], [])
  | text :: rest =>
      let '(valid_texts, valid_indices) := collect_valid (S idx) rest in
      if truthy text then (text :: valid_texts, idx :: valid_indices)
      else (valid_texts, valid_indices)
  end.

(** The reconstruction loop over [range(len(texts))]; [data] is what the
    iterator [valid_iter] still holds. *)
Fixpoint reconstruct (zero : vector) (valid_indices idxs : list nat)
    (data : list vector) : outcome (list vector) :=
  match idxs with
  | [] => Ok []
  | idx :: rest =>
      if bool_decide (idx ∈ valid_indices) then
        match data with
        | [] => Raise StopIteration
        | d :: data' =>
            match reconstruct zero valid_indices rest data' with
            | Raise e => Raise e
            | Ok embeddings => Ok (d :: embeddings)
            end
        end
      else
        match reconstruct zero valid_indices rest data with
        | Raise e => Raise e
        | Ok embeddings => Ok (zero :: embeddings)
        end
  end.

(** [range(0, stop, step)] for [step > 0]. *)
Definition py_range (stop step : nat) : list nat :=
  (λ k, k * step)%nat <$> seq 0 ((stop + step - 1) / step)%nat.

Section Client.
(** The embedding provider: a state of its own and the answer to one
    [embeddings.create(model, input)] request, the vectors of
    [response.data] in order or the exception raised. *)
Context {W : Type}.
Variable create : W → string → embed_input → outcome (list vector) * W.

(** The provider and the requests sent to it so far. *)
Record client := { world : W; requests : list embed_input }.

Definition embeddings_create (svc : service) (input : embed_input)
    (cl : client) : outcome (list vector) * client :=
  let '(r, w) := create (world cl) (model svc) input in
  (r, {| world := w; requests := requests cl ++ [input] |}).

Definition generate_embedding (svc : service) (text : pytext) (cl : client)
    : outcome vector * client :=
  match _clean_text text with
  | Raise e => (Raise e, cl)
  | Ok cleaned_text =>
      if negb (truthy cleaned_text) then (Ok (zero_vector svc), cl)
      else
        let '(response, cl') :=
          embeddings_create svc (InputStr cleaned_text) cl in
        match response with
        | Raise e => (Raise e, cl')
        | Ok [] => (Raise IndexError, cl')
        | Ok (embedding :: _) => (Ok embedding, cl')
        end
  end.

(** [[[0.0] * self.embedding_dimension] * len(texts)] *)
Definition zero_batch (svc : service) (texts : list pytext) : list vector :=
  repeat (zero_vector svc) (length texts).

Definition _process_batch (svc : service) (texts : list pytext)
    (cl : client) : list vector * client :=
  match clean_texts texts with
  | Raise _ => (zero_batch svc texts, cl)
  | Ok cleaned_texts =>
      let '(valid_texts, valid_indices) := collect_valid 0 cleaned_texts in
      match valid_texts with
      | [] => (zero_batch svc texts, cl)
      | _ =>
          let '(response, cl') :=
            embeddings_create svc (InputList valid_texts) cl in
          match response with
          | Raise _ => (zero_batch svc texts, cl')
          | Ok data =>
              match reconstruct (zero_vector svc) valid_indices
                      (seq 0 (length texts)) data with
              | Raise _ => (zero_batch svc texts, cl')
              | Ok embeddings => (embeddings, cl')
              end
          end
      end
  end.

(** The body of the batch loop for the start indices [starts]. *)
Fixpoint batch_loop (svc : service) (texts : list pytext)
    (batch_size : nat) (starts : list nat) (cl : client)
    : list vector * client :=
  match starts with
  | [] => ([], cl)
  | i :: rest =>
      let batch := take batch_size (drop i texts) in
      let '(batch_embeddings, cl1) := _process_batch svc batch cl in
      let '(embeddings, cl2) := batch_loop svc texts batch_size rest cl1 in
      (batch_embeddings ++ embeddings, cl2)
  end.

(** [range] refuses a zero step and is empty for a negative one. *)
Definition generate_embeddings_batch (svc : service) (texts : list pytext)
    (batch_size : Z) (cl : client) : outcome (list vector) * client :=
  if batch_size =? 0
  then (Raise (ValueError "range() arg 3 must not be zero"), cl)
  else if batch_size <? 0 then (Ok [], cl)
  else
    let '(embeddings, cl') :=
      batch_loop svc texts (Z.to_nat batch_size)
        (py_range (length texts) (Z.to_nat batch_size)) cl in
    (Ok embeddings, cl').

End Client.

(** *** Chunk dictionaries on the heap *)

Abbreviation loc := positive.

(** The values a chunk dictionary holds; a nested dictionary is held by
    reference. *)
Inductive value :=
| VStr (s : pystr)
| VInt (z : Z)
| VFloats (v : vector)
| VRef (l : loc).

Abbreviation dict := (gmap string value).
Abbreviation heap := (gmap loc dict).

(** The object a reference points to. *)
Definition deref (h : heap) (l : loc) : dict := default ∅ (h !! l).

(** How [_clean_text] sees a value. *)
Definition as_text (h : heap) (v : value) : pytext :=
  match v with
  | VStr s => Str s
  | VInt z => if z =? 0 then Falsy else Truthy
  | VFloats l => match l with [] => Falsy | _ => Truthy end
  | VRef l => if (size (deref h l) =? 0)%nat then Falsy else Truthy
  end.

(** [[chunk["text"] for chunk in chunks]] *)
Fixpoint chunk_texts (h : heap) (chunks : list loc) : outcome (list pytext) :=
  match chunks with
  | [] => Ok []
  | chunk :: rest =>
      match deref h chunk !! "text" with
      | None => Raise (KeyError "text")
      | Some v =>
          match chunk_texts h rest with
          | Raise e => Raise e
          | Ok texts => Ok (as_text h v :: texts)
          end
      end
  end.

(** [d.copy()]: a new object with the same items. *)
Definition dict_copy (l : loc) (h : heap) : loc * heap :=
  let l' := fresh (dom h) in
  (l', <[l' := deref h l]> h).

(** [d[key] = v] on the object at [l]. *)
Definition setitem (l : loc) (key : string) (v : value) (h : heap) : heap :=
  alter (<[key := v]>) l h.

(** The loop over [zip(chunks, embeddings)]. *)
Fixpoint enrich (svc : service) (pairs : list (loc * vector)) (h : heap)
    : list loc * heap :=
  match pairs with
  | [] => ([], h)
  | (chunk, embedding) :: rest =>
      let '(enriched_chunk, h1) := dict_copy chunk h in
      let h2 := setitem enriched_chunk "embedding" (VFloats embedding) h1 in
      let h3 := setitem enriched_chunk "embedding_model"
                  (VStr (of_string (model svc))) h2 in
      let h4 := setitem enriched_chunk "embedding_dimension"
                  (VInt (Z.of_nat (length embedding))) h3 in
      let '(enriched_chunks, h') := enrich svc rest h4 in
      (enriched_chunk :: enriched_chunks, h')
  end.

Definition generate_embeddings_for_chunks {W}
    (create : W → string → embed_input → outcome (list vector) * W)
    (svc : service) (chunks : list loc) (h : heap) (cl : client)
    : outcome (list loc) * heap * client :=
  match chunk_texts h chunks with
  | Raise e => (Raise e, h, cl)
  | Ok texts =>
      match generate_embeddings_batch create svc texts 100 cl with
      | (Raise e, cl') => (Raise e, h, cl')
      | (Ok embeddings, cl') =>
          let '(enriched_chunks, h') := enrich svc (zip chunks embeddings) h in
          (Ok enriched_chunks, h', cl')
      end
  end.

(** *** Cosine similarity on binary64 numbers *)

Section Blas.
(** [np.dot] of two one-dimensional float64 arrays, and through it
    [np.linalg.norm], is computed by the routine [ddot] of the BLAS library
    numpy is linked with.  In which order the routine adds the products, and
    whether it rounds a product before it adds it, is the library's choice
    and not in this repository, so the routine is a parameter. *)
Variable ddot : vector → vector → float.

(** [np.dot]: arrays of different lengths are refused, arrays of equal length
    go to the routine. *)
Definition np_dot (a b : vector) : outcome float :=
  if (length a =? length b)%nat
  then Ok (ddot a b)
  else Raise (ValueError "shapes not aligned").

(** [np.linalg.norm] of a one-dimensional array: [sqrt(x.dot(x))]. *)
Definition np_linalg_norm (a : vector) : float :=
  PrimFloat.sqrt (ddot a a).

Definition cosine_similarity (embedding1 embedding2 : vector) : outcome float :=
  match np_dot embedding1 embedding2 with
  | Raise e => Raise e
  | Ok dot_product =>
      let norm1 := np_linalg_norm embedding1 in
      let norm2 := np_linalg_norm embedding2 in
      if (PrimFloat.eqb norm1 0 || PrimFloat.eqb norm2 0)%bool then Ok 0%float
      else Ok (dot_product / (norm1 * norm2))%float
  end.

End Blas.

End EmbeddingService.

(** ** endee_client.py *)
Module Endee.
Import PyStr EmbeddingService.

(** One item of [vectors_data]; the id is the pair of values the f-string
    joins with an underscore. *)
Record vector_entry := {
  entry_id : value * value;
  entry_vector : value;
  entry_metadata : dict
}.

(** A decoded JSON value, as [response.json()] returns it: [None], a
    [bool], an [int], a [float], a [str], a [list] or a [dict] with its
    members as they stand in the body. *)
Inductive json :=
| JNull
| JBool (b : bool)
| JInt (n : Z)
| JFloat (x : float)
| JStr (s : pystr)
| JList (items : list json)
| JObject (members : list (string * json)).

(** [d.get(key)] on the dict of an object; of two members with one name the
    later one counts, as the decoder keeps it. *)
Fixpoint dict_get (key : string) (members : list (string * json))
    : option json :=
  match members with
  | [] => None
  | (k, v) :: rest =>
      match dict_get key rest with
      | Some v' => Some v'
      | None => if String.eqb k key then Some v else None
      end
  end.

(** The keys of a dict, each once, in the order in which they first
    appear. *)
Fixpoint dict_keys (members : list (string * json)) : list string :=
  match members with
  | [] => []
  | (k, _) :: rest =>
      k :: filter (λ k', negb (String.eqb k' k)) (dict_keys rest)
  end.

(** [x.get(key, dflt)]: only a dict has the method, on any other value the
    call raises [AttributeError], which is [None] here. *)
Definition py_get (x : json) (key : string) (dflt : json) : option json :=
  match x with
  | JObject members => Some (default dflt (dict_get key members))
  | _ => None
  end.

(** [len(x)]: [TypeError], which is [None] here, unless [x] is a list, a
    string or a dict. *)
Definition py_len (x : json) : option nat :=
  match x with
  | JList items => Some (length items)
  | JStr s => Some (length s)
  | JObject members => Some (length (dict_keys members))
  | _ => None
  end.

(** What [for result in x] goes through: the items of a list, the
    characters of a string, the keys of a dict; [TypeError], which is [None]
    here, for any other value. *)
Definition py_iter (x : json) : option (list json) :=
  match x with
  | JList items => Some items
  | JStr s => Some ((λ c, JStr [c]) <$> s)
  | JObject members => Some ((λ k, JStr (of_string k)) <$> dict_keys members)
  | _ => None
  end.

Inductive request :=
| GetHealth
| GetCollections
| PostCollections (name : pystr) (dimension : Z) (metric : string)
| PostVectors (collection : pystr) (vectors : list vector_entry)
| PostSearch (collection : pystr) (query : vector) (top_k : Z)
    (threshold : float).

(** What [httpx] gives back: a response with its status code and its body
    decoded as JSON, [None] when [response.json()] raises; or an
    exception. *)
Inductive http_result :=
| Response (status_code : Z) (body : option json)
| TransportError.

(** The dictionary [search_similar_chunks] builds for one hit. *)
Record search_result := {
  sr_id : json;
  sr_score : json;
  sr_text : json;
  sr_source : json;
  sr_page : json;
  sr_chunk_index : json;
  sr_metadata : json
}.

(** The fields of a [VectorStore]; the client it holds has no state. *)
Record vector_store := {
  collection_name : pystr;
  initialized : bool
}.

Section Transport.
(** The backing store behind the HTTP transport. *)
Context {S : Type}.
Variable send : S → request → http_result * S.

Definition health_check_sync (s : S) : bool * S :=
  match send s GetHealth with
  | (Response status_code _, s') => (status_code =? 200, s')
  | (TransportError, s') => (false, s')
  end.

Definition create_collection_sync (collection_name : pystr)
    (dimension : Z) (s : S) : bool * S :=
  match send s (PostCollections collection_name dimension "cosine") with
  | (Response status_code _, s') =>
      if (status_code =? 200) || (status_code =? 201) then (true, s')
      else if status_code =? 409 then (true, s')
      else (false, s')
  | (TransportError, s') => (false, s')
  end.

Definition insert_vectors_sync (collection_name : pystr)
    (vectors : list vector_entry) (s : S) : bool * S :=
  match send s (PostVectors collection_name vectors) with
  | (Response status_code _, s') =>
      ((status_code =? 200) || (status_code =? 201), s')
  | (TransportError, s') => (false, s')
  end.

(** The value returned is what the body has under [results], whatever it
    is, provided the log line could take its length; every exception gives
    the empty list. *)
Definition search_vectors_sync (collection_name : pystr)
    (query_vector : vector) (top_k : Z) (threshold : float) (s : S)
    : json * S :=
  match send s (PostSearch collection_name query_vector top_k threshold) with
  | (Response status_code body, s') =>
      if status_code =? 200 then
        match body with
        | None => (JList [], s')
        | Some results =>
            match py_get results "results" (JList []) with
            | None => (JList [], s')
            | Some found =>
                match py_len found with
                | None => (JList [], s')
                | Some _ => (found, s')
                end
            end
        end
      else (JList [], s')
  | (TransportError, s') => (JList [], s')
  end.

(** [VectorStore.initialize] *)
Definition initialize (vs : vector_store) (embedding_dimension : Z) (s : S)
    : bool * vector_store * S :=
  let '(healthy, s1) := health_check_sync s in
  if negb healthy then (false, vs, s1)
  else
    let '(success, s2) :=
      create_collection_sync (collection_name vs) embedding_dimension s1 in
    if success
    then (true, {| collection_name := collection_name vs;
                   initialized := true |}, s2)
    else (false, vs, s2).

(** The [vector_data] dictionary of one chunk; a missing key or a
    [metadata] that is no dictionary raises. *)
Definition vector_data_of (now : pystr) (h : heap) (chunk : loc)
    : option vector_entry :=
  let d := deref h chunk in
  match d !! "metadata" with
  | Some (VRef m) =>
      let md := deref h m in
      match md !! "source", d !! "chunk_id", d !! "embedding", d !! "text" with
      | Some src, Some cid, Some emb, Some txt =>
          Some {| entry_id := (src, cid);
                  entry_vector := emb;
                  entry_metadata :=
                    <["embedding_model" :=
                        default (VStr (of_string "unknown"))
                          (d !! "embedding_model")]>
                      (<["created_at" := VStr now]>
                         (<["text" := txt]> md)) |}
      | _, _, _, _ => None
      end
  | _ => None
  end.

Fixpoint vectors_data_of (now : pystr) (h : heap) (chunks : list loc)
    : option (list vector_entry) :=
  match chunks with
  | [] => Some []
  | chunk :: rest =>
      match vector_data_of now h chunk with
      | None => None
      | Some e =>
          match vectors_data_of now h rest with
          | None => None
          | Some es => Some (e :: es)
          end
      end
  end.

Definition store_document_chunks (vs : vector_store) (now : pystr)
    (h : heap) (chunks_with_embeddings : list loc) (s : S) : bool * S :=
  if negb (initialized vs) then (false, s)
  else
    match vectors_data_of now h chunks_with_embeddings with
    | None => (false, s)
    | Some vectors_data =>
        insert_vectors_sync (collection_name vs) vectors_data s
    end.

(** The body of the formatting loop; [None] when one of its [get] calls
    raises: the hit is no dict, or what it has under [metadata] is none. *)
Definition format_result (result : json) : option search_result :=
  match py_get result "id" JNull,
        py_get result "score" (JFloat 0),
        py_get result "metadata" (JObject []) with
  | Some id, Some score, Some metadata =>
      match py_get metadata "text" (JStr []),
            py_get metadata "source" (JStr []),
            py_get metadata "page" (JInt 0),
            py_get metadata "chunk_index" (JInt 0) with
      | Some text, Some source, Some page, Some chunk_index =>
          Some {| sr_id := id;
                  sr_score := score;
                  sr_text := text;
                  sr_source := source;
                  sr_page := page;
                  sr_chunk_index := chunk_index;
                  sr_metadata := metadata |}
      | _, _, _, _ => None
      end
  | _, _, _ => None
  end.

(** An exception anywhere in the loop is caught outside it: the results
    formatted so far are dropped and the empty list is returned. *)
Definition search_similar_chunks (vs : vector_store)
    (query_embedding : vector) (top_k : Z) (threshold : float) (s : S)
    : list search_result * S :=
  if negb (initialized vs) then ([], s)
  else
    let '(results, s') :=
      search_vectors_sync (collection_name vs) query_embedding top_k
        threshold s in
    match py_iter results with
    | None => ([], s')
    | Some items =>
        match mapM format_result items with
        | None => ([], s')
        | Some formatted_results => (formatted_results, s')
        end
    end.

End Transport.

(** Modelled from the spec: the vector database behind the transport, which
    is not part of the repository.  It is reachable, answers the health
    probe with 200, creates a collection that does not exist (201) and
    answers 409 for one that does, keeping its settings. *)
Record settings := { set_dimension : Z; set_metric : string }.

Definition reachable_store (colls : gmap pystr settings) (r : request)
    : http_result * gmap pystr settings :=
  match r with
  | GetHealth => (Response 200 None, colls)
  | GetCollections => (Response 200 None, colls)
  | PostCollections name dimension metric =>
      match colls !! name with
      | Some _ => (Response 409 None, colls)
      | None =>
          (Response 201 None,
           <[name := {| set_dimension := dimension; set_metric := metric |}]>
             colls)
      end
  | PostVectors name _ =>
      (Response (if bool_decide (is_Some (colls !! name)) then 200 else 404)
         None, colls)
  | PostSearch name _ _ _ =>
      if bool_decide (is_Some (colls !! name))
      then (Response 200 (Some (JObject [("results", JList [])])), colls)
      else (Response 404 None, colls)
  end.

End Endee.

(** ** rag_pipeline.py *)
Module RAGPipeline.
Import PyStr DocumentProcessor EmbeddingService Endee.

(** The fields of a [RAGPipeline] object. *)
Record pipeline := {
  document_processor : config;
  embedding_service : service;
  vector_store : vector_store;
  pl_initialized : bool
}.

(** [RAGPipeline.__init__] for given settings. *)
Definition new_pipeline (cfg : config) (openai_model : string) : pipeline :=
  {| document_processor := cfg;
     embedding_service := {| model := openai_model |};
     vector_store := {| collection_name := of_string "documents";
                        initialized := false |};
     pl_initialized := false |}.

(** What a call can change outside the pipeline object: the provider, the
    backing store and the heap of chunk dictionaries. *)
Record world (W S : Type) := {
  w_client : client (W := W);
  w_store : S;
  w_heap : heap
}.
Arguments w_client {W S} _.
Arguments w_store {W S} _.
Arguments w_heap {W S} _.

(** The dictionary returned by [process_pdf_file] and [process_pdf_bytes],
    without the random id and the time stamp. *)
Inductive process_result :=
| Processed (name : pystr) (total_pages : Z) (total_chunks : nat)
    (extraction_method : pystr) (embedding_model : string)
    (embedding_dimension : nat) (chunks_stored : nat)
| Failed (error : exn) (name : pystr).

(** The dictionary objects [_create_chunk] builds, placed on the heap. *)
Definition alloc (d : dict) (h : heap) : loc * heap :=
  let l := fresh (dom h) in (l, <[l := d]> h).

Definition chunk_dict (c : chunk) (h : heap) : loc * heap :=
  let m := chunk_metadata_of c in
  let '(lm, h1) :=
    alloc (<["source" := VStr (cm_source m)]>
           (<["page" := VInt (cm_page m)]>
           (<["chunk_index" := VInt (cm_chunk_index m)]>
           (<["word_count" := VInt (Z.of_nat (cm_word_count m))]>
           (<["sentence_count" := VInt (Z.of_nat (cm_sentence_count m))]>
           (<["extraction_method" := VStr (cm_extraction_method m)]> ∅))))))
      h in
  alloc (<["chunk_id" := VInt (chunk_id c)]>
         (<["text" := VStr (chunk_text c)]>
         (<["metadata" := VRef lm]> ∅))) h1.

Fixpoint chunk_dicts (cs : list chunk) (h : heap) : list loc * heap :=
  match cs with
  | [] => ([], h)
  | c :: rest =>
      let '(l, h1) := chunk_dict c h in
      let '(ls, h2) := chunk_dicts rest h1 in
      (l :: ls, h2)
  end.

Definition not_initialized : exn :=
  RuntimeError "RAG pipeline not initialized. Call initialize() first.".

Section Collaborators.
Context {W S : Type}.
Variable create : W → string → embed_input → outcome (list vector) * W.
Variable send : S → request → http_result * S.
(** The two PDF extractors, which raise [ValueError] when no reader
    succeeds, and the clock. *)
Variable extract_text_from_pdf : pystr → outcome document_data.
Variable extract_text_from_bytes : pystr → pystr → outcome document_data.
Variable now : pystr.

Definition initialize (p : pipeline) (w : world W S) : bool * pipeline * world W S :=
  let embedding_dim := Z.of_nat (embedding_dimension (embedding_service p)) in
  let '(success, vs, s) :=
    Endee.initialize send (vector_store p) embedding_dim (w_store w) in
  let w' := {| w_client := w_client w; w_store := s; w_heap := w_heap w |} in
  if success
  then (true, {| document_processor := document_processor p;
                 embedding_service := embedding_service p;
                 vector_store := vs;
                 pl_initialized := true |}, w')
  else (false, {| document_processor := document_processor p;
                  embedding_service := embedding_service p;
                  vector_store := vs;
                  pl_initialized := pl_initialized p |}, w').

(** Steps 2 to 4 and the result, shared by the two entry points. *)
Definition process_document (p : pipeline) (name : pystr)
    (extracted : outcome document_data) (w : world W S)
    : process_result * world W S :=
  match extracted with
  | Raise e => (Failed e name, w)
  | Ok document_data =>
      match content document_data with
      | [] => (Failed (ValueError "No text content extracted from PDF") name, w)
      | _ =>
          let chunks :=
            split_text_into_chunks (document_processor p) document_data in
          match chunks with
          | [] => (Failed (ValueError "No chunks created from document") name, w)
          | _ =>
              let '(refs, h1) := chunk_dicts chunks (w_heap w) in
              let '(r, h2, cl) :=
                generate_embeddings_for_chunks create (embedding_service p)
                  refs h1 (w_client w) in
              match r with
              | Raise e =>
                  (Failed e name,
                   {| w_client := cl; w_store := w_store w; w_heap := h2 |})
              | Ok chunks_with_embeddings =>
                  let '(storage_success, s) :=
                    store_document_chunks send (vector_store p) now h2
                      chunks_with_embeddings (w_store w) in
                  let w' := {| w_client := cl; w_store := s; w_heap := h2 |} in
                  if negb storage_success
                  then (Failed (RuntimeError
                          "Failed to store chunks in vector database") name, w')
                  else
                    let md := metadata document_data in
                    (Processed name (total_pages md) (length chunks)
                       (extraction_method md)
                       (model (embedding_service p))
                       (embedding_dimension (embedding_service p))
                       (length chunks_with_embeddings), w')
              end
          end
      end
  end.

Definition process_pdf_file (p : pipeline) (file_path : pystr)
    (w : world W S) : outcome process_result * world W S :=
  if negb (pl_initialized p) then (Raise not_initialized, w)
  else
    let '(r, w') :=
      process_document p file_path (extract_text_from_pdf file_path) w in
    (Ok r, w').

Definition process_pdf_bytes (p : pipeline) (pdf_bytes filename : pystr)
    (w : world W S) : outcome process_result * world W S :=
  if negb (pl_initialized p) then (Raise not_initialized, w)
  else
    let '(r, w') :=
      process_document p filename
        (extract_text_from_bytes pdf_bytes filename) w in
    (Ok r, w').

Definition search_documents (p : pipeline) (query : pystr) (top_k : Z)
    (threshold : float) (w : world W S)
    : outcome (list search_result) * world W S :=
  if negb (pl_initialized p) then (Raise not_initialized, w)
  else
    let '(r, cl) :=
      generate_embedding create (embedding_service p) (Str query)
        (w_client w) in
    match r with
    | Raise _ =>
        (Ok [], {| w_client := cl; w_store := w_store w; w_heap := w_heap w |})
    | Ok query_embedding =>
        let '(results, s) :=
          search_similar_chunks send (vector_store p) query_embedding top_k
            threshold (w_store w) in
        (Ok results, {| w_client := cl; w_store := s; w_heap := w_heap w |})
    end.

End Collaborators.

End RAGPipeline.

(** ** Views of the chunker used to state its properties *)
Module ChunkerViews.
Import PyStr DocumentProcessor.

(** A string that is not empty and begins and ends with a character that is
    no whitespace. *)
Definition solid (s : pystr) : Prop :=
  (∃ c t, s = c :: t ∧ is_space c = false) ∧
  (∃ t c, s = t ++ [c] ∧ is_space c = false).

(** A string without any of the boundary characters. *)
Definition no_boundary (s : pystr) : Prop :=
  Forall (λ c, c ≠ "."%char ∧ c ≠ "!"%char ∧ c ≠ "?"%char) s.


(** [s] occurs in [t]. *)
Definition occurs_in (s t : pystr) : Prop := ∃ pre post, t = pre ++ s ++ post.

(** Whether the sentences [l], joined by single spaces, stay within the
    configured number of words. *)
Definition fits (cfg : config) (l : list pystr) : bool :=
  Z.of_nat (length (split (join space l))) <=? chunk_size cfg.

(** The sentence list of the buffer after a chunk was closed. *)
Definition restart_sentences (cfg : config) (cs : list pystr) (s : pystr)
    : list pystr :=
  if (0 <? chunk_overlap cfg) && negb (bool_decide (cs = []))
  then last_n (Z.to_nat (chunk_overlap cfg)) cs ++ [s]
  else [s].

(** A buffer is saved unless it is empty. *)
Definition closed (cs : list pystr) : list (list pystr) :=
  match cs with [] => [] | _ => [cs] end.

(** The sentence lists of the chunks of one page, from the buffer [cs] and
    the sentences still to come. *)
Fixpoint sentence_groups (cfg : config) (cs sentences : list pystr)
    : list (list pystr) :=
  match sentences with
  | [] => closed cs
  | s :: rest =>
      if fits cfg (cs ++ [s]) then sentence_groups cfg (cs ++ [s]) rest
      else closed cs ++ sentence_groups cfg (restart_sentences cfg cs s) rest
  end.

(** The [_create_chunk] calls for consecutive sentence lists. *)
Fixpoint calls_of (page_num chunk_id : Z) (groups : list (list pystr))
    : list chunk_call :=
  match groups with
  | [] => []
  | g :: gs =>
      {| call_id := chunk_id; call_text := join space g;
         call_page := page_num; call_sentences := g |}
      :: calls_of page_num (chunk_id + 1) gs
  end.

End ChunkerViews.


(** ** Views of the embedding service used to state its properties *)
Module EmbedderViews.
Import PyStr EmbeddingService.

(** What [_clean_text] returns for a [str]. *)
Definition clean_str (s : pystr) : pystr :=
  if negb (truthy s) then []
  else
    let cleaned := join space (split s) in
    let words := split cleaned in
    if (max_tokens <? length words)%nat
    then join space (take max_tokens words)
    else cleaned.

(** [n] zero vectors. *)
Definition zeros (svc : service) (n : nat) : list vector :=
  repeat (zero_vector svc) n.

(** The number of batches of [n] texts. *)
Definition batches (n batch_size : nat) : nat :=
  ((n + batch_size - 1) / batch_size)%nat.

(** A request as the batch loop sends them for [texts]: a list, not empty,
    of cleaned texts none of which is empty. *)
Definition batch_request (texts : list pystr) (r : embed_input) : Prop :=
  ∃ l, r = InputList l ∧ l ≠ [] ∧
       Forall (λ s, s ≠ [] ∧ ∃ t, t ∈ texts ∧ s = clean_str t) l.

(** The cleaned texts that are sent to the provider. *)
Definition valid_texts (texts : list pystr) : list pystr :=
  filter (λ s, truthy s = true) (clean_str <$> texts).

(** The answer vectors put back in the places of the valid texts, a zero
    vector everywhere else. *)
Fixpoint fill (zero : vector) (cleaned : list pystr) (data : list vector)
    : outcome (list vector) :=
  match cleaned with
  | [] => Ok []
  | c :: rest =>
      if truthy c then
        match data with
        | [] => Raise StopIteration
        | d :: data' =>
            match fill zero rest data' with
            | Raise e => Raise e
            | Ok out => Ok (d :: out)
            end
        end
      else
        match fill zero rest data with
        | Raise e => Raise e
        | Ok out => Ok (zero :: out)
        end
  end.

(** The batch loop, batch by batch: [m] batches off the front of [texts]. *)
Fixpoint by_batches {W}
    (create : W → string → embed_input → outcome (list vector) * W)
    (svc : service) (batch_size m : nat) (texts : list pytext)
    (cl : client) : list vector * client :=
  match m with
  | O => ([], cl)
  | S m' =>
      let '(out, cl1) := _process_batch create svc (take batch_size texts) cl in
      let '(outs, cl2) :=
        by_batches create svc batch_size m' (drop batch_size texts) cl1 in
      (out ++ outs, cl2)
  end.

(** A provider that answers every request with one vector per text. *)
Definition answering (f : pystr → vector) (w : unit) (model : string)
    (input : embed_input) : outcome (list vector) * unit :=
  match input with
  | InputStr s => (Ok [f s], w)
  | InputList l => (Ok (f <$> l), w)
  end.

(** A word: characters that are no whitespace, at least one. *)
Definition word (w : pystr) : Prop :=
  w ≠ [] ∧ Forall (λ c, is_space c = false) w.

(** The vector a text gets from a provider that answers [f s] for the text
    [s]: a zero vector for a text that cleans to the empty string. *)
Definition embedding_of (svc : service) (f : pystr → vector) (t : pystr)
    : vector :=
  if truthy (clean_str t) then f (clean_str t) else zero_vector svc.

(** A provider that answers every request with no vector at all. *)
Definition stingy (w : unit) (model : string) (input : embed_input)
    : outcome (list vector) * unit :=
  (Ok [], w).

(** A provider that is down. *)
Definition failing (w : unit) (model : string) (input : embed_input)
    : outcome (list vector) * unit :=
  (Raise (ExternalError "provider unavailable"), w).

(** The items of an input chunk [d] and the three the service adds. *)
Definition enriched_dict (svc : service) (d : dict) (embedding : vector) : dict :=
  <["embedding_dimension" := VInt (Z.of_nat (length embedding))]>
    (<["embedding_model" := VStr (of_string (model svc))]>
       (<["embedding" := VFloats embedding]> d)).

(** The keys [generate_embeddings_for_chunks] writes. *)
Definition added_keys : list string :=
  ["embedding"; "embedding_model"; "embedding_dimension"]%string.

(** A provider that counts its requests and raises for request number [k],
    counted from zero; [ones s] is the vector it gives for the text [s]. *)
Definition ones (s : pystr) : vector := repeat 1%float (length s).

Definition failing_at (k : nat) (sent : nat) (model : string)
    (input : embed_input) : outcome (list vector) * nat :=
  if (sent =? k)%nat then (Raise (ExternalError "provider unavailable"), S sent)
  else match input with
       | InputStr s => (Ok [ones s], S sent)
       | InputList l => (Ok (ones <$> l), S sent)
       end.

(** Five texts, the second of them blank. *)
Definition five_texts : list pystr :=
  of_string <$> ["alpha"; "  "; "beta gamma"; "delta"; "epsilon"]%string.

Definition small : service := {| model := "text-embedding-3-small" |}.

Definition fresh_client : client (W := nat) := {| world := 0%nat; requests := [] |}.

(** A heap with one chunk, at 2, and its metadata, at 1. *)
Definition one_chunk : dict :=
  <["chunk_id" := VInt 0]>
    (<["text" := VStr (of_string "hello")]> (<["metadata" := VRef 1]> ∅)).

Definition one_chunk_heap : heap :=
  <[2%positive := one_chunk]>
    (<[1%positive := <["source" := VStr (of_string "a.pdf")]> ∅]> ∅).

End EmbedderViews.

(** ** The chunking scenario of the specification *)
(** ** Views of the dot routine *)
Module BlasViews.
Import EmbeddingService.

(** A number that compares equal to zero: [0.0] or [-0.0]. *)
Definition is_zero (x : float) : bool := PrimFloat.eqb x 0.

(** What holds of a dot routine in whatever order it adds: of an array of
    zeros with itself the products are zeros and so is every sum of them. *)
Definition zero_preserving (ddot : vector → vector → float) : Prop :=
  ∀ a, Forall (λ x, is_zero x = true) a → is_zero (ddot a a) = true.

(** Of arrays of one component there is one product and nothing to add to
    it: the routine returns a number equal to the rounded product, the sign
    of a zero apart. *)
Definition one_product (ddot : vector → vector → float) : Prop :=
  ∀ x y, PrimFloat.is_nan (x * y) = false →
         PrimFloat.eqb (ddot [x] [y]) (x * y) = true.

(** One such routine: the loop that adds the rounded products from the
    left, as the reference BLAS does. *)
Definition ddot_sequential (a b : vector) : float :=
  fold_left (λ acc p, acc + fst p * snd p)%float (zip a b) 0%float.

End BlasViews.

Module Scenario.
Import PyStr DocumentProcessor.

Definition page_text : pystr :=
  of_string "ML is great. AI is powerful. Deep learning is a subset.".

Definition the_page : page_data := {| page := 1; text := page_text |}.

Definition document : document_data :=
  {| content := [the_page];
     metadata := {| source := of_string "notes.pdf"; total_pages := 1;
                    extraction_method := of_string "pdfplumber" |} |}.

(** [chunk_size=5], an overlap of one sentence. *)
Definition cfg : config := {| chunk_size := 5; chunk_overlap := 1 |}.

Definition s1 : pystr := of_string "ML is great".
Definition s2 : pystr := of_string "AI is powerful".
Definition s3 : pystr := of_string "Deep learning is a subset".

(** The three [_create_chunk] calls the code makes for the page. *)
Definition call0 : chunk_call :=
  {| call_id := 0; call_text := of_string "ML is great";
     call_page := 1; call_sentences := [s1] |}.
Definition call1 : chunk_call :=
  {| call_id := 1; call_text := of_string "ML is great AI is powerful";
     call_page := 1; call_sentences := [s1; s2] |}.
Definition call2 : chunk_call :=
  {| call_id := 2;
     call_text := of_string "AI is powerful Deep learning is a subset";
     call_page := 1; call_sentences := [s2; s3] |}.

(** The same page without overlap. *)
Definition cfg0 : config := {| chunk_size := 5; chunk_overlap := 0 |}.

Definition single0 : chunk_call :=
  {| call_id := 0; call_text := s1; call_page := 1; call_sentences := [s1] |}.
Definition single1 : chunk_call :=
  {| call_id := 1; call_text := s2; call_page := 1; call_sentences := [s2] |}.
Definition single2 : chunk_call :=
  {| call_id := 2; call_text := s3; call_page := 1; call_sentences := [s3] |}.

End Scenario.

(** ** A pipeline that was not initialized, and collaborators for it *)
Module Uninitialized.
Import PyStr DocumentProcessor EmbeddingService EmbedderViews Endee RAGPipeline.

Definition the_pipeline : pipeline :=
  new_pipeline {| chunk_size := 512; chunk_overlap := 50 |}
    "text-embedding-3-small".

Definition the_world : world nat (gmap pystr settings) :=
  {| w_client := fresh_client; w_store := ∅; w_heap := ∅ |}.

(** No reader can open the file. *)
Definition no_pdf (file_path : pystr) : outcome document_data :=
  Raise (ValueError "Could not extract text from PDF").

Definition no_pdf_bytes (pdf_bytes filename : pystr) : outcome document_data :=
  Raise (ValueError "Could not extract text from PDF bytes").

Definition clock : pystr := of_string "2024-01-01T00:00:00".

End Uninitialized.

(** ** document_processor.py: text extraction *)
Module PdfExtraction.
Import PyStr DocumentProcessor.

(** What [page.extract_text()] gives for one page of an opened PDF: a string,
    [None], or an exception. *)
Abbreviation page_result := (outcome (option pystr)).

(** The loop over [enumerate(pdf.pages, page_num)]: a page whose text is
    [None] or empty, or whose extraction raises, is left out. *)
Fixpoint extract_pages (page_num : Z) (pages : list page_result)
    : list page_data :=
  match pages with
  | [] => []
  | r :: rest =>
      match r with
      | Ok (Some page_text) =>
          if truthy page_text
          then {| page := page_num; text := strip page_text |}
               :: extract_pages (page_num + 1) rest
          else extract_pages (page_num + 1) rest
      | _ => extract_pages (page_num + 1) rest
      end
  end.

(** The body shared by the four [_extract_...] methods: [opened] is the
    list of pages of the opened PDF, or the exception of the reader. *)
Definition extract_with (method source : pystr)
    (opened : outcome (list page_result)) : outcome document_data :=
  match opened with
  | Raise e => Raise e
  | Ok pages =>
      Ok {| content := extract_pages 1 pages;
            metadata := {| source := source;
                           total_pages := Z.of_nat (length pages);
                           extraction_method := method |} |}
  end.

Definition pdfplumber : pystr := of_string "pdfplumber".
Definition PyPDF2 : pystr := of_string "PyPDF2".

Section Readers.
(** The two PDF readers on the bytes of a file. *)
Variable open_pdfplumber open_pypdf2 : pystr → outcome (list page_result).

Definition _extract_bytes_with_pdfplumber (pdf_bytes filename : pystr)
    : outcome document_data :=
  extract_with pdfplumber filename (open_pdfplumber pdf_bytes).

Definition _extract_bytes_with_pypdf2 (pdf_bytes filename : pystr)
    : outcome document_data :=
  extract_with PyPDF2 filename (open_pypdf2 pdf_bytes).

(** The message of the [ValueError] is given without the text of the second
    exception. *)
Definition extract_text_from_bytes (pdf_bytes filename : pystr)
    : outcome document_data :=
  match _extract_bytes_with_pdfplumber pdf_bytes filename with
  | Ok d => Ok d
  | Raise _ =>
      match _extract_bytes_with_pypdf2 pdf_bytes filename with
      | Ok d => Ok d
      | Raise _ => Raise (ValueError "Could not extract text from PDF bytes")
      end
  end.

End Readers.



End PdfExtraction.

(** ** endee_client.py: the client object *)
Module EndeeClient.
Import PyStr.

(** [s.rstrip('/')] *)
Fixpoint rstrip_slash (s : pystr) : pystr :=
  match s with
  | [] => []
  | c :: t =>
      match rstrip_slash t with
      | [] => if Ascii.eqb c "/"%char then [] else [c]
      | r => c :: r
      end
  end.

(** The [base_url] set by [__init__]. *)
Definition base_url (url : pystr) : pystr :=
  rstrip_slash url ++ of_string "/api/v1".

End EndeeClient.

(** ** rag_pipeline.py: the functions of the module *)
Module Convenience.
Import PyStr DocumentProcessor EmbeddingService Endee RAGPipeline.

(** What the module functions return in place of the pipeline's result when
    [initialize] fails. *)
Inductive convenience_result :=
| InitFailed
| Ran (r : process_result).

Section Collaborators.
Context {W S : Type}.
Variable create : W → string → embed_input → outcome (list vector) * W.
Variable send : S → request → http_result * S.
Variable extract_text_from_pdf : pystr → outcome document_data.
Variable now : pystr.
(** The settings [RAGPipeline()] reads. *)
Variable settings_cfg : config.
Variable settings_model : string.

Definition process_pdf_file (file_path : pystr) (w : world W S)
    : outcome convenience_result * world W S :=
  let pipeline := new_pipeline settings_cfg settings_model in
  let '(ok, pipeline', w1) := RAGPipeline.initialize send pipeline w in
  if negb ok then (Ok InitFailed, w1)
  else
    match RAGPipeline.process_pdf_file create send extract_text_from_pdf now
            pipeline' file_path w1 with
    | (Ok r, w2) => (Ok (Ran r), w2)
    | (Raise e, w2) => (Raise e, w2)
    end.

Definition search_documents (query : pystr) (top_k : Z) (w : world W S)
    : outcome (list search_result) * world W S :=
  let pipeline := new_pipeline settings_cfg settings_model in
  let '(ok, pipeline', w1) := RAGPipeline.initialize send pipeline w in
  if negb ok then (Ok [], w1)
  else RAGPipeline.search_documents create send pipeline' query top_k 0%float w1.

End Collaborators.

End Convenience.

(** ** Views of the pipeline used to state its properties *)
Module PipelineViews.
Import PyStr DocumentProcessor EmbeddingService EmbedderViews Endee RAGPipeline.

(** The object at [r] is a chunk dictionary as [_create_chunk] builds it:
    it has a text, an id and a metadata dictionary that names the source. *)
Definition chunk_object (h : heap) (r : loc) : Prop :=
  ∃ d lm md,
    h !! r = Some d ∧ is_Some (d !! "text") ∧ is_Some (d !! "chunk_id") ∧
    d !! "metadata" = Some (VRef lm) ∧
    h !! lm = Some md ∧ is_Some (md !! "source").

(** A pipeline after a successful [initialize]. *)
Definition ready (p : pipeline) : Prop :=
  pl_initialized p = true ∧ initialized (vector_store p) = true.

(** An initialized pipeline with the chunking of the scenario, the page of
    the scenario as the only extracted document, and a store that holds the
    collection. *)
Definition ready_pipeline : pipeline :=
  {| document_processor := Scenario.cfg;
     embedding_service := small;
     vector_store := {| collection_name := of_string "documents";
                        initialized := true |};
     pl_initialized := true |}.

Definition reads_scenario (file_path : pystr) : outcome document_data :=
  Ok Scenario.document.

Definition reads_blank (file_path : pystr) : outcome document_data :=
  Ok {| content := [ {| page := 1; text := of_string "Page 1." |} ];
        metadata := metadata Scenario.document |}.

Definition store_with_collection : gmap pystr settings :=
  {[ of_string "documents" :=
       {| set_dimension := 1536; set_metric := "cosine" |} ]}.

Definition ready_world : world unit (gmap pystr settings) :=
  {| w_client := {| EmbeddingService.world := tt;
                    EmbeddingService.requests := [] |};
     w_store := store_with_collection;
     w_heap := ∅ |}.

(** A heap whose only chunk, at 1, has no text. *)
Definition textless_heap : heap :=
  <[1%positive := <["chunk_id" := VInt 0]> ∅]> ∅.

End PipelineViews.

(** ** Views of the search answers *)
Module SearchViews.
Import PyStr EmbeddingService Endee.

(** A hit the formatting loop can take: a JSON object whose [metadata], if
    it has one, is an object. *)
Definition well_formed_hit (hit : json) : bool :=
  match hit with
  | JObject members =>
      match dict_get "metadata" members with
      | None | Some (JObject _) => true
      | Some _ => false
      end
  | _ => false
  end.

(** The hits of an answer: the items of the list under [results] of a 200
    body that is an object; none in every other case. *)
Definition hits_of (answer : http_result) : list json :=
  match answer with
  | Response status_code (Some (JObject members)) =>
      if status_code =? 200 then
        match dict_get "results" members with
        | Some (JList items) => items
        | _ => []
        end
      else []
  | _ => []
  end.

(** The result [r] has the fields of the hit and of its metadata, or their
    defaults. *)
Definition formatted (hit : json) (r : search_result) : Prop :=
  ∃ members metadata,
    hit = JObject members ∧
    JObject metadata = default (JObject []) (dict_get "metadata" members) ∧
    sr_id r = default JNull (dict_get "id" members) ∧
    sr_score r = default (JFloat 0) (dict_get "score" members) ∧
    sr_text r = default (JStr []) (dict_get "text" metadata) ∧
    sr_source r = default (JStr []) (dict_get "source" metadata) ∧
    sr_page r = default (JInt 0) (dict_get "page" metadata) ∧
    sr_chunk_index r = default (JInt 0) (dict_get "chunk_index" metadata) ∧
    sr_metadata r = JObject metadata.

(** A store that answers every request with 200 and the given body. *)
Definition answers {S : Type} (body : json) (s : S) (r : request)
    : http_result * S :=
  (Response 200 (Some body), s).

Definition first_hit : json :=
  JObject [ ("id", JStr (of_string "paper.pdf_0"));
            ("score", JFloat 0.5);
            ("metadata",
             JObject [ ("text", JStr (of_string "ML is great"));
                       ("source", JStr (of_string "paper.pdf"));
                       ("page", JInt 1);
                       ("chunk_index", JInt 0) ]) ].

(** An answer with two hits, the second without metadata. *)
Definition two_hits : json :=
  JObject [ ("results",
             JList [ first_hit;
                     JObject [ ("id", JStr (of_string "paper.pdf_1")) ] ]) ].

(** An answer with two hits, the second with [null] for its metadata. *)
Definition null_metadata : json :=
  JObject [ ("results",
             JList [ first_hit;
                     JObject [ ("id", JStr (of_string "paper.pdf_1"));
                               ("metadata", JNull) ] ]) ].

End SearchViews.

(** * Properties *)

(** ** Facts about the [str] methods *)
Section StrFacts.
Import PyStr ChunkerViews.

Lemma lstrip_suffix (s : pystr) : lstrip s `suffix_of` s.
Proof.
  induction s as [|c t IH]; simpl; [done|].
  destruct (is_space c); [by apply suffix_cons_r | done].
Qed.

Lemma rstrip_prefix (s : pystr) : rstrip s `prefix_of` s.
Proof.
  induction s as [|c t IH]; simpl; [done|].
  destruct (rstrip t) as [|d r] eqn:E.
  - destruct (is_space c); [apply prefix_nil | by apply prefix_cons, prefix_nil].
  - by apply prefix_cons.
Qed.

Lemma elem_of_strip (x : ascii) (s : pystr) : x ∈ strip s → x ∈ s.
Proof.
  unfold strip. intros H.
  destruct (lstrip_suffix s) as [k1 E1].
  destruct (rstrip_prefix (lstrip s)) as [k2 E2].
  rewrite E1, E2. set_solver.
Qed.

Lemma rstrip_cons_nonspace (c : ascii) (t : pystr) :
  is_space c = false → rstrip (c :: t) = c :: rstrip t.
Proof. intros H. simpl. rewrite H. by destruct (rstrip t). Qed.

Lemma rstrip_cons_ne (c : ascii) (t : pystr) :
  rstrip t ≠ [] → rstrip (c :: t) = c :: rstrip t.
Proof. intros H. simpl. by destruct (rstrip t). Qed.

Lemma rstrip_idem (s : pystr) : rstrip (rstrip s) = rstrip s.
Proof.
  induction s as [|c t IH]; [done|].
  destruct (decide (rstrip t = [])) as [E|E].
  - simpl. rewrite E. destruct (is_space c) eqn:Ec; simpl; [done | by rewrite Ec].
  - rewrite (rstrip_cons_ne c t E). rewrite rstrip_cons_ne; rewrite IH; done.
Qed.

Lemma lstrip_head (s : pystr) :
  lstrip s = [] ∨ ∃ c t, lstrip s = c :: t ∧ is_space c = false.
Proof.
  induction s as [|c t IH]; simpl; [by left|].
  destruct (is_space c) eqn:E; [done | right; eauto].
Qed.

Lemma strip_idem (s : pystr) : strip (strip s) = strip s.
Proof.
  unfold strip. destruct (lstrip_head s) as [E|(c & t & E & Hc)]; rewrite E.
  - done.
  - rewrite (rstrip_cons_nonspace _ _ Hc). simpl lstrip. rewrite Hc.
    rewrite <- (rstrip_cons_nonspace _ _ Hc). apply rstrip_idem.
Qed.

Lemma rstrip_snoc_nonspace (t : pystr) (c : ascii) :
  is_space c = false → rstrip (t ++ [c]) = t ++ [c].
Proof.
  intros Hc. induction t as [|d t IH]; simpl.
  - by rewrite Hc.
  - rewrite IH. by destruct t.
Qed.

Lemma rstrip_last (s : pystr) :
  rstrip s = [] ∨ ∃ t c, rstrip s = t ++ [c] ∧ is_space c = false.
Proof.
  induction s as [|c t IH]; simpl; [by left|].
  destruct (rstrip t) as [|d r] eqn:E.
  - destruct (is_space c) eqn:Ec; [by left|]. right. by exists [], c.
  - right. destruct IH as [IH|(t' & c' & IH & Hc')]; [done|].
    exists (c :: t'), c'. by rewrite IH.
Qed.

Lemma solid_strip (s : pystr) : solid s → strip s = s.
Proof.
  intros [(c & t & -> & Hc) (t' & c' & E & Hc')]. unfold strip. simpl.
  rewrite Hc, E. by apply rstrip_snoc_nonspace.
Qed.

Lemma strip_solid (s : pystr) : strip s ≠ [] → solid (strip s).
Proof.
  unfold strip. intros Hne.
  destruct (lstrip_head s) as [E|(c & t & E & Hc)]; rewrite E in *; [done|].
  split.
  - rewrite (rstrip_cons_nonspace _ _ Hc). eauto.
  - destruct (rstrip_last (c :: t)) as [E'|H]; [done | exact H].
Qed.

Lemma solid_nonempty (s : pystr) : solid s → s ≠ [].
Proof. by intros [(c & t & -> & _) _]. Qed.

Lemma solid_truthy (s : pystr) : solid s → truthy s = true.
Proof. by intros [(c & t & -> & _) _]. Qed.

Lemma solid_app (a m b : pystr) : solid a → solid b → solid (a ++ m ++ b).
Proof.
  intros [(c & t & -> & Hc) _] [_ (t' & c' & -> & Hc')]. split.
  - by exists c, (t ++ m ++ t' ++ [c']).
  - exists ((c :: t) ++ m ++ t'), c'. by rewrite <- !app_assoc.
Qed.

Lemma join_snoc (sep : pystr) (ws : list pystr) (w : pystr) :
  ws ≠ [] → join sep (ws ++ [w]) = join sep ws ++ sep ++ w.
Proof.
  intros Hne. induction ws as [|a ws IH]; [done|].
  destruct ws as [|b ws]; [done|].
  change (join sep ((a :: b :: ws) ++ [w]))
    with (a ++ sep ++ join sep ((b :: ws) ++ [w])).
  rewrite IH by done. change (join sep (a :: b :: ws))
    with (a ++ sep ++ join sep (b :: ws)).
  by rewrite <- !app_assoc.
Qed.

Lemma join_solid (sep : pystr) (ws : list pystr) :
  ws ≠ [] → Forall solid ws → solid (join sep ws).
Proof.
  induction ws as [|a ws IH]; [done|]. intros _ Hall.
  apply Forall_cons in Hall as [Ha Hws].
  destruct ws as [|b ws]; [done|].
  change (join sep (a :: b :: ws)) with (a ++ sep ++ join sep (b :: ws)).
  apply solid_app; [done | by apply IH].
Qed.

Lemma join_truthy (sep : pystr) (ws : list pystr) :
  Forall solid ws → truthy (join sep ws) = negb (bool_decide (ws = [])).
Proof.
  intros Hall. destruct ws as [|a ws]; [done|].
  rewrite solid_truthy by (by apply join_solid). done.
Qed.

(** Every element of a joined list occurs in the joined string. *)
Lemma join_contains (sep : pystr) (ws : list pystr) (w : pystr) :
  w ∈ ws → ∃ pre post, join sep ws = pre ++ w ++ post.
Proof.
  induction ws as [|a ws IH]; [by intros ?%elem_of_nil|].
  intros [->|Hin]%elem_of_cons.
  - destruct ws as [|b ws].
    + exists [], []. simpl. by rewrite app_nil_r.
    + exists [], (sep ++ join sep (b :: ws)). done.
  - destruct (IH Hin) as (pre & post & E).
    destruct ws as [|b ws]; [by apply elem_of_nil in Hin|].
    exists (a ++ sep ++ pre), post.
    change (join sep (a :: b :: ws)) with (a ++ sep ++ join sep (b :: ws)).
    rewrite E. by rewrite <- !app_assoc.
Qed.

End StrFacts.

(** ** Cosine similarity *)
Section CosineSimilarity.
Import EmbeddingService BlasViews.

Lemma is_zero_spec (x : float) :
  is_zero x = true ↔ ∃ s, Prim2SF x = S754_zero s.
Proof.
  unfold is_zero. rewrite FloatAxioms.eqb_spec.
  change (Prim2SF 0) with (S754_zero false).
  destruct (Prim2SF x) as [s| | |s m e]; simpl; split.
  all: try (intros ?; eexists; reflexivity).
  all: try discriminate.
  all: try (intros [? ?]; discriminate).
  all: destruct s; simpl; try discriminate; try (intros [? ?]; discriminate).
Qed.

Lemma is_zero_mul (x y : float) :
  is_zero x = true → is_zero y = true → is_zero (x * y) = true.
Proof.
  rewrite !is_zero_spec. intros [s Hx] [t Hy].
  rewrite FloatAxioms.mul_spec, Hx, Hy. eexists. reflexivity.
Qed.

Lemma is_zero_add (x y : float) :
  is_zero x = true → is_zero y = true → is_zero (x + y) = true.
Proof.
  rewrite !is_zero_spec. intros [s Hx] [t Hy].
  rewrite FloatAxioms.add_spec, Hx, Hy. destruct s, t; eexists; reflexivity.
Qed.

(** The square root of a zero is a zero: a sum of squares that underflows
    gives the norm [0.0]. *)
Lemma is_zero_sqrt (x : float) :
  is_zero x = true → is_zero (PrimFloat.sqrt x) = true.
Proof.
  rewrite !is_zero_spec. intros [s Hx].
  rewrite FloatAxioms.sqrt_spec, Hx. eexists. reflexivity.
Qed.

Lemma is_zero_eqb (x y : float) :
  is_zero y = true → PrimFloat.eqb x y = true → is_zero x = true.
Proof.
  intros Hy. unfold is_zero. rewrite !FloatAxioms.eqb_spec.
  apply is_zero_spec in Hy as [t Hy]. rewrite Hy.
  change (Prim2SF 0) with (S754_zero false).
  by destruct (Prim2SF x) as [s| | |s m e].
Qed.

Lemma ddot_sequential_zeros (a : vector) (acc : float) :
  Forall (λ x, is_zero x = true) a → is_zero acc = true →
  is_zero (fold_left (λ acc p, acc + fst p * snd p)%float (zip a a) acc) = true.
Proof.
  intros Ha. revert acc. induction Ha as [|x a Hx Ha IH]; intros acc Hacc.
  - exact Hacc.
  - simpl. apply IH. apply is_zero_add; [done|]. by apply is_zero_mul.
Qed.

(** The loop from the left is a routine of the kind described. *)
Lemma ddot_sequential_zero_preserving : zero_preserving ddot_sequential.
Proof. intros a Ha. by apply ddot_sequential_zeros. Qed.

Lemma ddot_sequential_one_product : one_product ddot_sequential.
Proof.
  intros x y Hn. unfold ddot_sequential. simpl.
  generalize dependent (x * y)%float. intros p Hn.
  unfold PrimFloat.is_nan in Hn. apply negb_false_iff in Hn.
  rewrite FloatAxioms.eqb_spec in Hn.
  rewrite FloatAxioms.eqb_spec, FloatAxioms.add_spec.
  change (Prim2SF 0) with (S754_zero false).
  destruct (Prim2SF p) as [s|s| |s m e] eqn:E; try done;
    try (by destruct s); exact Hn.
Qed.

Lemma norm_zero (ddot : vector → vector → float) (a : vector) :
  zero_preserving ddot → Forall (λ x, is_zero x = true) a →
  PrimFloat.eqb (np_linalg_norm ddot a) 0 = true.
Proof. intros Hk Ha. apply is_zero_sqrt, Hk, Ha. Qed.

End CosineSimilarity.

(** C7, as stated, fails: the one-component vector [2^-600] is not zero, yet
    its square underflows to [0.0], so that with every dot routine the
    computed norm is [0.0] and [cosine_similarity(v, v)] is [0.0], not [1.0];
    the loop that adds from the left is one such routine. *)
Lemma cosine_similarity_self_underflow :
  let v := [0x1p-600%float] in
  PrimFloat.eqb 0x1p-600 0 = false ∧
  (∀ ddot, BlasViews.one_product ddot →
     EmbeddingService.cosine_similarity ddot v v = Ok 0%float ∧
     EmbeddingService.cosine_similarity ddot v v ≠ Ok 1%float) ∧
  BlasViews.one_product BlasViews.ddot_sequential ∧
  EmbeddingService.cosine_similarity BlasViews.ddot_sequential v v
    = Ok 0%float.
Proof.
  assert (Hne : (Ok 0%float : outcome float) ≠ Ok 1%float).
  { intros H.
    pose proof (f_equal (λ o, match o with
                              | Ok x => PrimFloat.eqb x 1
                              | Raise _ => false
                              end) H) as E.
    vm_compute in E. discriminate E. }
  split; [reflexivity|]. split; [|split].
  - intros ddot Hk.
    assert (E : EmbeddingService.cosine_similarity ddot [0x1p-600%float]
                  [0x1p-600%float] = Ok 0%float).
    { unfold EmbeddingService.cosine_similarity, EmbeddingService.np_dot.
      simpl.
      assert (Hz : PrimFloat.eqb
                     (EmbeddingService.np_linalg_norm ddot [0x1p-600%float]) 0
                   = true).
      { apply is_zero_sqrt.
        apply (is_zero_eqb _ (0x1p-600 * 0x1p-600)%float); [reflexivity|].
        apply Hk. reflexivity. }
      rewrite Hz. reflexivity. }
    split; [exact E|]. rewrite E. exact Hne.
  - exact ddot_sequential_one_product.
  - reflexivity.
Qed.

(** C7, amended: for vectors of equal length [cosine_similarity] does not
    raise; it returns exactly [0.0] whenever the computed norm of either
    argument, the square root of what the dot routine gives for the argument
    with itself, is zero, and otherwise the binary64 quotient of the dot
    product by the product of the two norms.  In particular it returns [0.0]
    when all components of either argument are zeros, whatever the order in
    which the routine adds. *)
Theorem cosine_similarity_spec
    (ddot : EmbeddingService.vector → EmbeddingService.vector → float)
    (a b : EmbeddingService.vector) :
  length a = length b →
  BlasViews.zero_preserving ddot →
  let norm1 := PrimFloat.sqrt (ddot a a) in
  let norm2 := PrimFloat.sqrt (ddot b b) in
  (∃ r, EmbeddingService.cosine_similarity ddot a b = Ok r ∧
        (PrimFloat.eqb norm1 0 = true ∨ PrimFloat.eqb norm2 0 = true →
         r = 0%float) ∧
        (PrimFloat.eqb norm1 0 = false → PrimFloat.eqb norm2 0 = false →
         r = (ddot a b / (norm1 * norm2))%float)) ∧
  (Forall (λ x, BlasViews.is_zero x = true) a
   ∨ Forall (λ x, BlasViews.is_zero x = true) b →
   EmbeddingService.cosine_similarity ddot a b = Ok 0%float).
Proof.
  intros Hlen Hk norm1 norm2.
  assert (E : EmbeddingService.cosine_similarity ddot a b =
              if (PrimFloat.eqb norm1 0 || PrimFloat.eqb norm2 0)%bool
              then Ok 0%float
              else Ok (ddot a b / (norm1 * norm2))%float).
  { unfold EmbeddingService.cosine_similarity, EmbeddingService.np_dot.
    rewrite Hlen, Nat.eqb_refl. reflexivity. }
  split.
  - rewrite E. destruct (PrimFloat.eqb norm1 0) eqn:E1;
      destruct (PrimFloat.eqb norm2 0) eqn:E2; simpl; eexists;
      (split; [reflexivity|]);
      (split; [try done; intros [?|?]; done | done]).
  - intros Hz. rewrite E.
    destruct Hz as [Hz|Hz];
      pose proof (norm_zero ddot _ Hk Hz) as Hn;
      unfold EmbeddingService.np_linalg_norm in Hn; fold norm1 norm2 in Hn;
      rewrite Hn; [reflexivity | by rewrite orb_true_r].
Qed.

Lemma cosine_similarity_spec_witness :
  EmbeddingService.cosine_similarity BlasViews.ddot_sequential
    [3%float; 4%float] [0%float; (-0)%float] = Ok 0%float.
Proof.
  apply (cosine_similarity_spec BlasViews.ddot_sequential
           [3%float; 4%float] [0%float; (-0)%float]).
  - reflexivity.
  - exact ddot_sequential_zero_preserving.
  - right. repeat constructor.
Defined.

(** ** The sentence splitter *)
Section Sentences.
Import PyStr DocumentProcessor ChunkerViews.

Lemma is_boundary_false (c : ascii) :
  is_boundary c = false → c ≠ "."%char ∧ c ≠ "!"%char ∧ c ≠ "?"%char.
Proof.
  unfold is_boundary. intros H.
  apply orb_false_elim in H as [H H3]. apply orb_false_elim in H as [H1 H2].
  apply Ascii.eqb_neq in H1, H2, H3. done.
Qed.

Lemma glue_no_boundary (c : ascii) (ws : list pystr) :
  is_boundary c = false → Forall no_boundary ws → Forall no_boundary (glue c ws).
Proof.
  intros Hc Hws. apply is_boundary_false in Hc.
  destruct ws as [|w ws]; simpl.
  - repeat constructor; tauto.
  - apply Forall_cons in Hws as [Hw Hws]. constructor; [|done].
    by constructor.
Qed.

Lemma re_split_from_no_boundary (in_sep : bool) (s : pystr) :
  Forall no_boundary (re_split_from in_sep s).
Proof.
  revert in_sep. induction s as [|c t IH]; intros in_sep; simpl.
  - repeat constructor.
  - destruct (is_boundary c) eqn:Ec.
    + destruct in_sep; [apply IH|]. constructor; [constructor | apply IH].
    + by apply glue_no_boundary.
Qed.

Lemma no_boundary_strip (s : pystr) : no_boundary s → no_boundary (strip s).
Proof.
  unfold no_boundary. rewrite !Forall_forall.
  intros H c Hc. by apply H, elem_of_strip.
Qed.

Lemma clean_sentences_spec (pieces : list pystr) (s : pystr) :
  s ∈ clean_sentences pieces →
  ∃ p, p ∈ pieces ∧ s = strip p ∧ s ≠ [] ∧ (10 < length s)%nat.
Proof.
  induction pieces as [|p rest IH]; simpl; [by intros ?%elem_of_nil|].
  destruct (truthy (strip p) && (10 <? length (strip p))%nat) eqn:E.
  - intros [->|Hin]%elem_of_cons.
    + apply andb_true_iff in E as [E1 E2]. apply Nat.ltb_lt in E2.
      exists p. split; [left|]. split; [done|]. split; [|done].
      by destruct (strip p).
    + destruct (IH Hin) as (q & Hq & H). exists q. split; [by right | done].
  - intros Hin. destruct (IH Hin) as (q & Hq & H).
    exists q. split; [by right | done].
Qed.

Lemma sentence_spec (text s : pystr) :
  s ∈ _split_into_sentences text →
  s ≠ [] ∧ strip s = s ∧ (10 < length s)%nat ∧ no_boundary s.
Proof.
  intros (p & Hp & -> & Hne & Hlen)%clean_sentences_spec.
  split; [done|]. split; [apply strip_idem|]. split; [done|].
  apply no_boundary_strip.
  pose proof (re_split_from_no_boundary false text) as H.
  rewrite Forall_forall in H. by apply H.
Qed.

Lemma sentences_solid (text : pystr) :
  Forall solid (_split_into_sentences text).
Proof.
  apply Forall_forall. intros s (Hne & E & _)%sentence_spec.
  rewrite <- E. apply strip_solid. by rewrite E.
Qed.

End Sentences.

(** ** The chunking loop and its sentence lists *)
Section Groups.
Import PyStr DocumentProcessor ChunkerViews.
Variable cfg : config.

Lemma length_last_n {A} (k : nat) (l : list A) :
  length (last_n k l) = (k `min` length l)%nat.
Proof. unfold last_n. rewrite length_drop. lia. Qed.

Lemma last_n_suffix {A} (k : nat) (l : list A) : last_n k l `suffix_of` l.
Proof. apply suffix_drop. Qed.

Lemma last_n_nonempty {A} (k : nat) (l : list A) :
  (0 < k)%nat → l ≠ [] → last_n k l ≠ [].
Proof.
  intros Hk Hl E. apply (f_equal length) in E.
  rewrite length_last_n in E. destruct l; [done|]. simpl in E. lia.
Qed.

Lemma calls_of_app (pn id : Z) (g1 g2 : list (list pystr)) :
  calls_of pn id (g1 ++ g2) =
  calls_of pn id g1 ++ calls_of pn (id + Z.of_nat (length g1)) g2.
Proof.
  revert id. induction g1 as [|g g1 IH]; intros id; simpl.
  - by rewrite Z.add_0_r.
  - rewrite IH. do 3 f_equal. lia.
Qed.

Lemma save_chunk_closed (pn id : Z) (cs : list pystr) :
  Forall solid cs →
  save_chunk pn id (join space cs) cs =
  (calls_of pn id (closed cs), id + Z.of_nat (length (closed cs))).
Proof.
  intros Hcs. unfold save_chunk. rewrite join_truthy by done.
  destruct cs as [|c cs]; simpl; [by rewrite Z.add_0_r | done].
Qed.

Lemma test_chunk_join (cs : list pystr) (s : pystr) :
  Forall solid cs →
  (if truthy (join space cs) then join space cs ++ space ++ s else s)
  = join space (cs ++ [s]).
Proof.
  intros Hcs. rewrite join_truthy by done.
  destruct cs as [|c cs]; [done|]. by rewrite join_snoc.
Qed.

Lemma restart_join (cs : list pystr) (s : pystr) :
  restart cfg cs s =
  (join space (restart_sentences cfg cs s), restart_sentences cfg cs s).
Proof.
  unfold restart, restart_sentences.
  destruct (0 <? chunk_overlap cfg) eqn:Ho; simpl; [|done].
  case_bool_decide as Hcs; simpl; [done|].
  rewrite join_snoc; [done|].
  apply last_n_nonempty; [|done]. apply Z.ltb_lt in Ho. lia.
Qed.

Lemma restart_sentences_solid (cs : list pystr) (s : pystr) :
  Forall solid cs → solid s → Forall solid (restart_sentences cfg cs s).
Proof.
  intros Hcs Hs. unfold restart_sentences.
  destruct (_ && _); [|by apply Forall_singleton].
  apply Forall_app. split; [|by apply Forall_singleton].
  destruct (last_n_suffix (Z.to_nat (chunk_overlap cfg)) cs) as [k E].
  rewrite E in Hcs. by apply Forall_app in Hcs as [_ ?].
Qed.

Lemma chunk_sentences_groups (pn id : Z) (cs sentences : list pystr) :
  Forall solid cs → Forall solid sentences →
  chunk_sentences cfg pn id (join space cs) cs sentences =
  (calls_of pn id (sentence_groups cfg cs sentences),
   id + Z.of_nat (length (sentence_groups cfg cs sentences))).
Proof.
  intros Hcs Hall. revert id cs Hcs.
  induction Hall as [|s rest Hs Hrest IH]; intros id cs Hcs.
  - by apply save_chunk_closed.
  - cbn [chunk_sentences sentence_groups].
    rewrite test_chunk_join by done. fold (fits cfg (cs ++ [s])).
    destruct (fits cfg (cs ++ [s])).
    + apply IH. apply Forall_app. split; [done | by apply Forall_singleton].
    + rewrite save_chunk_closed, restart_join by done.
      rewrite IH by (by apply restart_sentences_solid).
      rewrite calls_of_app, length_app. f_equal. lia.
Qed.

End Groups.

(** ** What the sentence lists of a page look like *)
Section GroupFacts.
Import PyStr DocumentProcessor ChunkerViews.
Variable cfg : config.

Lemma closed_elem (cs g : list pystr) : g ∈ closed cs → g = cs ∧ cs ≠ [].
Proof. destruct cs; simpl; [by intros ?%elem_of_nil | by intros ->%list_elem_of_singleton]. Qed.

Lemma restart_sentences_elem (cs : list pystr) (s x : pystr) :
  x ∈ restart_sentences cfg cs s → x ∈ cs ∨ x = s.
Proof.
  unfold restart_sentences. destruct (_ && _).
  - intros [H|H]%elem_of_app.
    + left. destruct (last_n_suffix (Z.to_nat (chunk_overlap cfg)) cs) as [k E].
      rewrite E. set_solver.
    + right. by apply list_elem_of_singleton in H.
  - intros H. right. by apply list_elem_of_singleton in H.
Qed.

Lemma restart_sentences_trigger (cs : list pystr) (s : pystr) :
  s ∈ restart_sentences cfg cs s.
Proof. unfold restart_sentences. destruct (_ && _); set_solver. Qed.

(** Chunks hold only sentences of the page, and at least one. *)
Lemma groups_elem (cs sentences g : list pystr) :
  g ∈ sentence_groups cfg cs sentences →
  g ≠ [] ∧ ∀ x, x ∈ g → x ∈ cs ∨ x ∈ sentences.
Proof.
  revert cs. induction sentences as [|s rest IH]; intros cs; simpl.
  - intros [-> Hne]%closed_elem. split; [done | by left].
  - destruct (fits cfg (cs ++ [s])).
    + intros [Hne H]%IH. split; [done|]. intros x Hx.
      destruct (H x Hx) as [Hx'|Hx']; set_solver.
    + intros [[-> Hne]%closed_elem | [Hne H]%IH]%elem_of_app.
      * split; [done | by left].
      * split; [done|]. intros x Hx.
        destruct (H x Hx) as [Hx'|Hx']; [|set_solver].
        apply restart_sentences_elem in Hx'. set_solver.
Qed.

(** No sentence of the buffer or of the input is left out. *)
Lemma groups_cover (cs sentences : list pystr) (x : pystr) :
  x ∈ cs ∨ x ∈ sentences →
  ∃ g, g ∈ sentence_groups cfg cs sentences ∧ x ∈ g.
Proof.
  revert cs. induction sentences as [|s rest IH]; intros cs Hx; simpl.
  - destruct Hx as [Hx|Hx]; [|by apply elem_of_nil in Hx].
    exists cs. split; [|done]. destruct cs; [by apply elem_of_nil in Hx | left].
  - destruct (fits cfg (cs ++ [s])).
    + apply IH. set_solver.
    + destruct Hx as [Hx|Hx].
      * exists cs. split; [|done]. apply elem_of_app. left.
        destruct cs; [by apply elem_of_nil in Hx | left].
      * destruct (IH (restart_sentences cfg cs s)) as (g & Hg & Hxg).
        { apply elem_of_cons in Hx as [->|Hx]; [left | by right].
          apply restart_sentences_trigger. }
        exists g. split; [|done]. apply elem_of_app. by right.
Qed.

(** The first chunk begins with the buffer. *)
Lemma groups_head (cs sentences g : list pystr) (gs : list (list pystr)) :
  sentence_groups cfg cs sentences = g :: gs → cs `prefix_of` g.
Proof.
  destruct cs as [|c cs]; [intros _; apply prefix_nil|].
  revert c cs. induction sentences as [|s rest IH]; intros c cs;
    cbn [sentence_groups closed].
  - by intros [= <- _].
  - destruct (fits cfg _).
    + intros H. apply (IH c (cs ++ [s])) in H.
      etrans; [|exact H]. by exists [s].
    + by intros [= <- _].
Qed.

Lemma last_n_min {A} (k : nat) (l : list A) :
  last_n (k `min` length l) l = last_n k l.
Proof. unfold last_n. f_equal. lia. Qed.

(** With an overlap, a chunk begins with the last sentences of the chunk
    before it and goes on with at least one more. *)
Lemma groups_consecutive (cs sentences : list pystr) (j : nat)
    (g1 g2 : list pystr) :
  0 < chunk_overlap cfg →
  sentence_groups cfg cs sentences !! j = Some g1 →
  sentence_groups cfg cs sentences !! S j = Some g2 →
  ∃ more, more ≠ [] ∧
    g2 = last_n (Z.to_nat (chunk_overlap cfg) `min` length g1) g1 ++ more.
Proof.
  intros Ho. revert cs j. induction sentences as [|s rest IH]; intros cs j; simpl.
  - destruct cs; simpl; [done|]. by destruct j.
  - destruct (fits cfg (cs ++ [s])); [apply IH|].
    destruct cs as [|c cs]; simpl; [apply IH|].
    destruct j as [|j]; simpl; [|apply IH].
    intros [= <-] H2.
    destruct (sentence_groups cfg (restart_sentences cfg (c :: cs) s) rest)
      as [|g gs] eqn:E; [done|].
    simpl in H2. injection H2 as ->.
    apply groups_head in E as [k E].
    unfold restart_sentences in E.
    apply Z.ltb_lt in Ho. rewrite Ho in E. simpl in E.
    exists ([s] ++ k). split; [done|].
    rewrite last_n_min. by rewrite E, <- app_assoc.
Qed.

(** A chunk that is not within the size was started by [restart]: it is the
    overlap of the chunk before it and one more sentence, or one sentence
    alone. *)
Lemma groups_fit_or_restarted (cs sentences g : list pystr) :
  fits cfg cs = true ∨ cs = [] ∨ (∃ prev s, cs = restart_sentences cfg prev s) →
  g ∈ sentence_groups cfg cs sentences →
  fits cfg g = true ∨ ∃ prev s, g = restart_sentences cfg prev s.
Proof.
  revert cs. induction sentences as [|s rest IH]; intros cs Hcs; simpl.
  - intros [-> Hne]%closed_elem. destruct Hcs as [?|[?|?]]; [by left | done | by right].
  - destruct (fits cfg (cs ++ [s])) eqn:Ef.
    + apply IH. by left.
    + intros [[-> Hne]%closed_elem | H]%elem_of_app.
      * destruct Hcs as [?|[?|?]]; [by left | done | by right].
      * apply (IH (restart_sentences cfg cs s)); [|done]. right. right. eauto.
Qed.

Lemma restart_sentences_no_overlap (cs : list pystr) (s : pystr) :
  chunk_overlap cfg ≤ 0 → restart_sentences cfg cs s = [s].
Proof.
  intros Ho. unfold restart_sentences.
  destruct (0 <? chunk_overlap cfg) eqn:E; [|done].
  apply Z.ltb_lt in E. lia.
Qed.

Lemma calls_of_lookup (pn id : Z) (groups : list (list pystr)) (j : nat)
    (c : chunk_call) :
  calls_of pn id groups !! j = Some c →
  ∃ g, groups !! j = Some g ∧ call_sentences c = g ∧
       call_text c = join space g ∧ call_page c = pn ∧
       call_id c = id + Z.of_nat j.
Proof.
  revert id j. induction groups as [|g gs IH]; intros id j; simpl; [done|].
  destruct j as [|j]; simpl.
  - intros [= <-]. exists g. simpl. repeat split; lia.
  - intros (g' & ? & ? & ? & ? & ?)%IH. exists g'. repeat split; try done. lia.
Qed.

Lemma calls_of_elem (pn id : Z) (groups : list (list pystr)) (g : list pystr) :
  g ∈ groups →
  ∃ c, c ∈ calls_of pn id groups ∧ call_sentences c = g ∧
       call_text c = join space g ∧ call_page c = pn.
Proof.
  revert id. induction groups as [|g' gs IH]; intros id; [by intros ?%elem_of_nil|].
  intros [->|Hin]%elem_of_cons; simpl.
  - eexists. split; [left|]. done.
  - destruct (IH (id + 1) Hin) as (c & Hc & H). exists c. split; [by right | done].
Qed.

(** The calls of page [i] are those of its sentence lists. *)
Lemma chunk_pages_lookup (id : Z) (pages : list page_data) (i : nat)
    (p : page_data) :
  pages !! i = Some p →
  ∃ id', chunk_pages cfg id pages !! i =
    Some (calls_of (page p) id'
            (sentence_groups cfg [] (_split_into_sentences (text p)))).
Proof.
  revert id i. induction pages as [|q rest IH]; intros id i; [done|].
  cbn [chunk_pages]. unfold chunk_page.
  pose proof (chunk_sentences_groups cfg (page q) id []
                (_split_into_sentences (text q))) as E.
  simpl join in E. rewrite E by (try apply sentences_solid; constructor).
  destruct i as [|i]; simpl.
  - intros [= ->]. eauto.
  - apply IH.
Qed.

Lemma chunk_pages_length (id : Z) (pages : list page_data) :
  length (chunk_pages cfg id pages) = length pages.
Proof.
  revert id. induction pages as [|q rest IH]; intros id; [done|].
  cbn [chunk_pages]. destruct (chunk_page cfg id q). simpl. by rewrite IH.
Qed.

End GroupFacts.

(** ** The chunks of a document *)
Section Chunks.
Import PyStr DocumentProcessor ChunkerViews.

Lemma page_calls_spec (cfg : config) (pages : list page_data) (i : nat)
    (p : page_data) (calls : list chunk_call) (c : chunk_call) :
  pages !! i = Some p →
  chunk_pages cfg 0 pages !! i = Some calls →
  c ∈ calls →
  call_sentences c ≠ [] ∧
  (∀ s, s ∈ call_sentences c → s ∈ _split_into_sentences (text p)) ∧
  call_text c = join space (call_sentences c) ∧
  call_page c = page p ∧
  strip (call_text c) = call_text c.
Proof.
  intros Hp Hcalls Hc.
  destruct (chunk_pages_lookup cfg 0 pages i p Hp) as [id' E].
  rewrite E in Hcalls. injection Hcalls as <-.
  apply list_elem_of_lookup in Hc as [j Hj].
  apply calls_of_lookup in Hj as (g & Hg & Hs & Ht & Hpn & _).
  assert (Hin : g ∈ sentence_groups cfg [] (_split_into_sentences (text p)))
    by (apply list_elem_of_lookup; eauto).
  apply groups_elem in Hin as [Hne Hsub].
  assert (Hsent : ∀ s, s ∈ g → s ∈ _split_into_sentences (text p)).
  { intros s Hs'. destruct (Hsub s Hs') as [H|H]; [by apply elem_of_nil in H | done]. }
  rewrite Hs, Ht. repeat split; try done.
  apply solid_strip, join_solid; [done|].
  apply Forall_forall. intros s Hs'.
  pose proof (sentences_solid (text p)) as Hall.
  rewrite Forall_forall in Hall. by apply Hall, Hsent.
Qed.

Lemma chunk_pages_lookup_inv (cfg : config) (pages : list page_data) (i : nat)
    (calls : list chunk_call) :
  chunk_pages cfg 0 pages !! i = Some calls → ∃ p, pages !! i = Some p.
Proof.
  intros H. apply lookup_lt_Some in H. rewrite chunk_pages_length in H.
  by apply lookup_lt_is_Some_2 in H.
Qed.

Lemma create_chunk_elem (cfg : config) (d : document_data) (i : nat)
    (calls : list chunk_call) (c : chunk_call) :
  chunk_pages cfg 0 (content d) !! i = Some calls → c ∈ calls →
  _create_chunk (metadata d) c ∈ split_text_into_chunks cfg d.
Proof.
  intros Hcalls Hc. unfold split_text_into_chunks.
  apply list_elem_of_fmap_2. apply list_elem_of_In, in_concat.
  exists calls. split; apply list_elem_of_In; [|done].
  apply list_elem_of_lookup. eauto.
Qed.

End Chunks.


(** C5: every sentence of a page is in the sentence list of a chunk of that
    page, that chunk is in the result of [split_text_into_chunks], and the
    sentence occurs in its text. *)
Theorem no_sentence_lost (cfg : DocumentProcessor.config)
    (d : DocumentProcessor.document_data) (i : nat)
    (p : DocumentProcessor.page_data) (s : pystr) :
  DocumentProcessor.content d !! i = Some p →
  s ∈ DocumentProcessor._split_into_sentences (DocumentProcessor.text p) →
  ∃ calls c,
    DocumentProcessor.chunk_pages cfg 0 (DocumentProcessor.content d) !! i
      = Some calls ∧
    c ∈ calls ∧
    s ∈ DocumentProcessor.call_sentences c ∧
    DocumentProcessor.call_page c = DocumentProcessor.page p ∧
    DocumentProcessor._create_chunk (DocumentProcessor.metadata d) c
      ∈ DocumentProcessor.split_text_into_chunks cfg d ∧
    ChunkerViews.occurs_in s
      (DocumentProcessor.chunk_text
         (DocumentProcessor._create_chunk (DocumentProcessor.metadata d) c)).
Proof.
  intros Hp Hs.
  destruct (chunk_pages_lookup cfg 0 _ i p Hp) as [id' E].
  destruct (groups_cover cfg [] _ s (or_intror Hs)) as (g & Hg & Hsg).
  destruct (calls_of_elem (DocumentProcessor.page p) id' _ g Hg)
    as (c & Hc & Hcs & Hct & Hcp).
  eexists _, c. split; [exact E|]. split; [done|].
  split; [by rewrite Hcs|]. split; [done|].
  split; [by eapply create_chunk_elem|].
  destruct (page_calls_spec _ _ _ _ _ _ Hp E Hc) as (_ & _ & Ht & _ & Hstrip).
  simpl. rewrite Hstrip, Ht. apply join_contains. by rewrite Hcs.
Qed.

Lemma no_sentence_lost_witness :
  ∃ calls c,
    DocumentProcessor.chunk_pages Scenario.cfg 0
      (DocumentProcessor.content Scenario.document) !! 0%nat = Some calls ∧
    c ∈ calls ∧
    PyStr.of_string "AI is powerful" ∈ DocumentProcessor.call_sentences c ∧
    DocumentProcessor.call_page c = 1 ∧
    DocumentProcessor._create_chunk
      (DocumentProcessor.metadata Scenario.document) c
      ∈ DocumentProcessor.split_text_into_chunks Scenario.cfg Scenario.document ∧
    ChunkerViews.occurs_in (PyStr.of_string "AI is powerful")
      (DocumentProcessor.chunk_text
         (DocumentProcessor._create_chunk
            (DocumentProcessor.metadata Scenario.document) c)).
Proof.
  apply (no_sentence_lost Scenario.cfg Scenario.document 0 Scenario.the_page
           (PyStr.of_string "AI is powerful")).
  - reflexivity.
  - apply list_elem_of_lookup. exists 1%nat. reflexivity.
Defined.

(** C4: with a positive [chunk_overlap], of two consecutive chunks of a page
    the second begins with the last [min(overlap, sentence_count)] sentences
    of the first, in order, followed by at least one more sentence: the
    sentences of the first chunk end with a list of exactly that many
    sentences, at least one, and the sentences of the second chunk begin with
    the same list; the text of the second chunk begins with these sentences
    joined by single spaces. *)
Theorem overlap_is_prefix (cfg : DocumentProcessor.config)
    (d : DocumentProcessor.document_data) (i j : nat)
    (calls : list DocumentProcessor.chunk_call)
    (c1 c2 : DocumentProcessor.chunk_call) :
  0 < DocumentProcessor.chunk_overlap cfg →
  DocumentProcessor.chunk_pages cfg 0 (DocumentProcessor.content d) !! i
    = Some calls →
  calls !! j = Some c1 →
  calls !! S j = Some c2 →
  let md := DocumentProcessor.metadata d in
  let ch1 := DocumentProcessor._create_chunk md c1 in
  let ch2 := DocumentProcessor._create_chunk md c2 in
  let k := (Z.to_nat (DocumentProcessor.chunk_overlap cfg)
            `min` DocumentProcessor.cm_sentence_count
                    (DocumentProcessor.chunk_metadata_of ch1))%nat in
  ∃ before overlap_sentences more,
    DocumentProcessor.call_sentences c1 = before ++ overlap_sentences ∧
    length overlap_sentences = k ∧
    (1 ≤ k)%nat ∧
    more ≠ [] ∧
    DocumentProcessor.call_sentences c2 = overlap_sentences ++ more ∧
    DocumentProcessor.chunk_text ch2 =
      PyStr.join PyStr.space overlap_sentences ++ PyStr.space
      ++ PyStr.join PyStr.space more.
Proof.
  intros Ho Hcalls H1 H2. simpl.
  destruct (chunk_pages_lookup_inv _ _ _ _ Hcalls) as [p Hp].
  assert (Hc1 : c1 ∈ calls) by (apply list_elem_of_lookup; eauto).
  assert (Hc2 : c2 ∈ calls) by (apply list_elem_of_lookup; eauto).
  destruct (page_calls_spec _ _ _ _ _ _ Hp Hcalls Hc1) as (Hne1 & _).
  destruct (page_calls_spec _ _ _ _ _ _ Hp Hcalls Hc2)
    as (_ & _ & Ht2 & _ & Hstrip2).
  destruct (chunk_pages_lookup cfg 0 _ i p Hp) as [id' E].
  rewrite E in Hcalls. injection Hcalls as <-.
  apply calls_of_lookup in H1 as (g1 & Hg1 & Hs1 & _).
  apply calls_of_lookup in H2 as (g2 & Hg2 & Hs2 & _).
  destruct (groups_consecutive cfg _ _ _ _ _ Ho Hg1 Hg2) as (more & Hmore & Eg).
  assert (Hg1ne : g1 ≠ []) by (by rewrite <- Hs1).
  exists (take (length g1 - (Z.to_nat (DocumentProcessor.chunk_overlap cfg)
                             `min` length g1)) g1),
         (PyStr.last_n (Z.to_nat (DocumentProcessor.chunk_overlap cfg)
                        `min` length g1) g1), more.
  rewrite Hstrip2, Ht2, Hs1, Hs2.
  split; [unfold PyStr.last_n; by rewrite take_drop|].
  split; [rewrite length_last_n; lia|].
  split; [destruct g1; [done|]; simpl; lia|].
  split; [done|].
  split; [done|]. rewrite Eg.
  assert (Hov : PyStr.last_n (Z.to_nat (DocumentProcessor.chunk_overlap cfg)
                              `min` length g1) g1 ≠ []).
  { rewrite last_n_min. apply last_n_nonempty; [lia|]. done. }
  clear - Hmore Hov. revert Hov.
  generalize (PyStr.last_n (Z.to_nat (DocumentProcessor.chunk_overlap cfg)
                            `min` length g1) g1) as a.
  intros a Ha. induction a as [|x a IH]; [done|].
  destruct a as [|y a].
  - destruct more; [done|]. reflexivity.
  - change (PyStr.join PyStr.space ((x :: y :: a) ++ more))
      with (x ++ PyStr.space ++ PyStr.join PyStr.space ((y :: a) ++ more)).
    rewrite IH by done.
    change (PyStr.join PyStr.space (x :: y :: a))
      with (x ++ PyStr.space ++ PyStr.join PyStr.space (y :: a)).
    by rewrite <- !app_assoc.
Qed.

Lemma overlap_is_prefix_witness :
  ∃ before overlap_sentences more,
    DocumentProcessor.call_sentences Scenario.call1
      = before ++ overlap_sentences ∧
    length overlap_sentences = 1%nat ∧
    (1 ≤ 1)%nat ∧
    more ≠ [] ∧
    DocumentProcessor.call_sentences Scenario.call2
      = overlap_sentences ++ more ∧
    DocumentProcessor.chunk_text
      (DocumentProcessor._create_chunk
         (DocumentProcessor.metadata Scenario.document) Scenario.call2)
    = PyStr.join PyStr.space overlap_sentences ++ PyStr.space
      ++ PyStr.join PyStr.space more.
Proof.
  apply (overlap_is_prefix Scenario.cfg Scenario.document 0 1
           [Scenario.call0; Scenario.call1; Scenario.call2]
           Scenario.call1 Scenario.call2).
  - reflexivity.
  - reflexivity.
  - reflexivity.
  - reflexivity.
Defined.

(** ** The size of a chunk *)
Section ChunkSize.
Import PyStr DocumentProcessor ChunkerViews.

(** The words counted for a chunk are within [chunk_size] unless the chunk is
    the buffer [restart] left behind: the overlap sentences and the sentence
    that did not fit, which are not measured again. *)
Lemma chunk_within_size_or_restarted (cfg : config) (pages : list page_data)
    (md : doc_metadata) (i : nat) (calls : list chunk_call) (c : chunk_call) :
  chunk_pages cfg 0 pages !! i = Some calls → c ∈ calls →
  Z.of_nat (cm_word_count (chunk_metadata_of (_create_chunk md c)))
    ≤ chunk_size cfg ∨
  ∃ prev s, call_sentences c = restart_sentences cfg prev s.
Proof.
  intros Hcalls Hc.
  destruct (chunk_pages_lookup_inv _ _ _ _ Hcalls) as [p Hp].
  destruct (page_calls_spec _ _ _ _ _ _ Hp Hcalls Hc) as (_ & _ & Ht & _).
  destruct (chunk_pages_lookup cfg 0 _ i p Hp) as [id' E].
  rewrite E in Hcalls. injection Hcalls as <-.
  apply list_elem_of_lookup in Hc as [j Hj].
  apply calls_of_lookup in Hj as (g & Hg & Hs & _).
  assert (Hin : g ∈ sentence_groups cfg [] (_split_into_sentences (text p)))
    by (apply list_elem_of_lookup; eauto).
  apply groups_fit_or_restarted in Hin as [Hfit|Hr]; [| |by right; left].
  - left. simpl. rewrite Ht, Hs. unfold fits in Hfit. by apply Z.leb_le.
  - right. by rewrite Hs.
Qed.

(** Without an overlap the bound of the specification holds. *)
Lemma chunk_within_size_no_overlap (cfg : config) (pages : list page_data)
    (md : doc_metadata) (i : nat) (calls : list chunk_call) (c : chunk_call) :
  chunk_overlap cfg ≤ 0 →
  chunk_pages cfg 0 pages !! i = Some calls → c ∈ calls →
  Z.of_nat (cm_word_count (chunk_metadata_of (_create_chunk md c)))
    ≤ chunk_size cfg ∨
  cm_sentence_count (chunk_metadata_of (_create_chunk md c)) = 1%nat.
Proof.
  intros Ho Hcalls Hc.
  destruct (chunk_within_size_or_restarted cfg pages md i calls c Hcalls Hc)
    as [H|(prev & s & H)]; [by left|].
  right. simpl. rewrite H, restart_sentences_no_overlap; done.
Qed.

End ChunkSize.

(** C2 does not hold of the code: for the page of the specification's own
    scenario, with [chunk_size=5] and an overlap of one sentence, the second
    chunk holds two sentences and six words. *)
Theorem chunk_exceeds_size_scenario :
  DocumentProcessor.chunk_pages Scenario.cfg 0
    (DocumentProcessor.content Scenario.document)
  = [[Scenario.call0; Scenario.call1; Scenario.call2]] ∧
  ∃ ch,
    DocumentProcessor.split_text_into_chunks Scenario.cfg Scenario.document
      !! 1%nat = Some ch ∧
    DocumentProcessor.chunk_text ch
      = PyStr.of_string "ML is great AI is powerful" ∧
    DocumentProcessor.cm_sentence_count (DocumentProcessor.chunk_metadata_of ch)
      = 2%nat ∧
    DocumentProcessor.cm_word_count (DocumentProcessor.chunk_metadata_of ch)
      = 6%nat ∧
    DocumentProcessor.chunk_size Scenario.cfg = 5.
Proof.
  split; [reflexivity|]. eexists. split; [reflexivity|]. by vm_compute.
Qed.

(** ** Cleaning a text *)
Section Cleaning.
Import PyStr EmbeddingService EmbedderViews.

Lemma clean_text_str (s : pystr) : _clean_text (Str s) = Ok (clean_str s).
Proof.
  unfold _clean_text, clean_str. destruct (negb (truthy s)); [done|].
  by destruct (_ <? _)%nat.
Qed.

Lemma clean_texts_str (texts : list pystr) :
  clean_texts (Str <$> texts) = Ok (clean_str <$> texts).
Proof.
  induction texts as [|t texts IH]; [done|].
  cbn [fmap list_fmap clean_texts]. fold (Str <$> texts).
  by rewrite clean_text_str, IH.
Qed.

Lemma split_whitespace (s : pystr) :
  Forall (λ c, is_space c = true) s → split s = [].
Proof.
  induction 1 as [|c t Hc Ht IH]; [done|]. simpl. by rewrite Hc.
Qed.

Lemma clean_str_whitespace (s : pystr) :
  Forall (λ c, is_space c = true) s → clean_str s = [].
Proof.
  intros H. unfold clean_str. destruct (negb (truthy s)); [done|].
  rewrite (split_whitespace s H). reflexivity.
Qed.

Lemma length_zero_vector (svc : service) :
  length (zero_vector svc) = embedding_dimension svc.
Proof. apply repeat_length. Qed.

Lemma zero_vector_zeros (svc : service) :
  Forall (λ x, x = 0%float) (zero_vector svc).
Proof. unfold zero_vector. generalize (embedding_dimension svc) as n.
  induction n; simpl; by constructor. Qed.

End Cleaning.

(** C8: for an empty or whitespace-only text [generate_embedding] returns a
    vector of [embedding_dimension] zeros and leaves the provider and the list
    of requests sent to it as they were. *)
Theorem generate_embedding_blank {W : Type}
    (create : W → string → EmbeddingService.embed_input
              → outcome (list EmbeddingService.vector) * W)
    (svc : EmbeddingService.service) (text : pystr)
    (cl : EmbeddingService.client) :
  Forall (λ c, PyStr.is_space c = true) text →
  EmbeddingService.generate_embedding create svc (EmbeddingService.Str text) cl
    = (Ok (EmbeddingService.zero_vector svc), cl) ∧
  length (EmbeddingService.zero_vector svc)
    = EmbeddingService.embedding_dimension svc ∧
  Forall (λ x, x = 0%float) (EmbeddingService.zero_vector svc).
Proof.
  intros H. split; [|split; [apply length_zero_vector | apply zero_vector_zeros]].
  unfold EmbeddingService.generate_embedding.
  rewrite clean_text_str, (clean_str_whitespace text H). reflexivity.
Qed.

Lemma generate_embedding_blank_witness :
  let svc := {| EmbeddingService.model := "text-embedding-3-large" |} in
  let cl := {| EmbeddingService.world := tt; EmbeddingService.requests := [] |} in
  EmbeddingService.generate_embedding (EmbedderViews.answering (λ _, []))
    svc (EmbeddingService.Str (PyStr.of_string "   ")) cl
    = (Ok (EmbeddingService.zero_vector svc), cl) ∧
  length (EmbeddingService.zero_vector svc) = 3072%nat ∧
  Forall (λ x, x = 0%float) (EmbeddingService.zero_vector svc).
Proof.
  apply (generate_embedding_blank (EmbedderViews.answering (λ _, []))
           {| EmbeddingService.model := "text-embedding-3-large" |}
           (PyStr.of_string "   ")).
  repeat constructor.
Defined.

(** ** One batch *)
Section OneBatch.
Import PyStr EmbeddingService EmbedderViews.
Context {W : Type}.
Variable create : W → string → embed_input → outcome (list vector) * W.
Variable svc : service.

Lemma lookup_repeat {A} (x : A) (n i : nat) :
  (i < n)%nat → repeat x n !! i = Some x.
Proof.
  revert i. induction n as [|n IH]; intros i Hi; [lia|].
  destruct i as [|i]; simpl; [done|]. apply IH. lia.
Qed.

Lemma collect_valid_fst (idx : nat) (cleaned : list pystr) :
  (collect_valid idx cleaned).1 = filter (λ s, truthy s = true) cleaned.
Proof.
  revert idx. induction cleaned as [|c rest IH]; intros idx; [done|].
  cbn [collect_valid]. specialize (IH (S idx)).
  destruct (collect_valid (S idx) rest) as [vt vi]. simpl in IH.
  destruct (truthy c) eqn:E.
  - rewrite filter_cons_True by done. simpl. by rewrite IH.
  - rewrite filter_cons_False by (by rewrite E). done.
Qed.

Lemma collect_valid_ge (idx : nat) (cleaned : list pystr) (x : nat) :
  x ∈ (collect_valid idx cleaned).2 → (idx ≤ x)%nat.
Proof.
  revert idx. induction cleaned as [|c rest IH]; intros idx;
    [by intros ?%elem_of_nil|].
  cbn [collect_valid]. specialize (IH (S idx)).
  destruct (collect_valid (S idx) rest) as [vt vi]. simpl in IH.
  destruct (truthy c); simpl.
  - intros [->|H]%elem_of_cons; [lia|]. apply IH in H. lia.
  - intros H. apply IH in H. lia.
Qed.

Lemma reconstruct_fill (zero : vector) (pre : list nat) (idx : nat)
    (cleaned : list pystr) (data : list vector) :
  (∀ x, x ∈ pre → (x < idx)%nat) →
  reconstruct zero (pre ++ (collect_valid idx cleaned).2)
    (seq idx (length cleaned)) data
  = fill zero cleaned data.
Proof.
  revert pre idx data. induction cleaned as [|c rest IH];
    intros pre idx data Hpre; [done|].
  cbn [length seq reconstruct fill collect_valid].
  pose proof (collect_valid_ge (S idx) rest) as Hge.
  destruct (collect_valid (S idx) rest) as [vt vi] eqn:E. simpl in Hge.
  destruct (truthy c) eqn:Ec; cbn [snd].
  - rewrite bool_decide_eq_true_2 by set_solver.
    destruct data as [|d data']; [done|].
    replace (pre ++ idx :: vi) with ((pre ++ [idx]) ++ (collect_valid (S idx) rest).2)
      by (rewrite E; simpl; by rewrite <- app_assoc).
    rewrite IH; [done|].
    intros x [Hx|Hx%list_elem_of_singleton]%elem_of_app; [apply Hpre in Hx|]; lia.
  - rewrite bool_decide_eq_false_2.
    + replace vi with (collect_valid (S idx) rest).2 by (by rewrite E).
      rewrite IH; [done|]. intros x Hx. apply Hpre in Hx. lia.
    + intros [Hx|Hx]%elem_of_app; [apply Hpre in Hx | apply Hge in Hx]; lia.
Qed.

Lemma fill_length (zero : vector) (cleaned : list pystr) (data out : list vector) :
  fill zero cleaned data = Ok out → length out = length cleaned.
Proof.
  revert data out. induction cleaned as [|c rest IH]; intros data out; simpl.
  - by intros [= <-].
  - destruct (truthy c).
    + destruct data as [|d data']; [done|].
      destruct (fill zero rest data') as [o|] eqn:E; [|done].
      intros [= <-]. simpl. f_equal. by eapply IH.
    + destruct (fill zero rest data) as [o|] eqn:E; [|done].
      intros [= <-]. simpl. f_equal. by eapply IH.
Qed.

(** Where each output vector comes from. *)
Lemma fill_lookup (zero : vector) (cleaned : list pystr) (data out : list vector)
    (i : nat) (c : pystr) :
  fill zero cleaned data = Ok out → cleaned !! i = Some c →
  out !! i =
    if truthy c
    then data !! length (filter (λ s, truthy s = true) (take i cleaned))
    else Some zero.
Proof.
  revert data out i. induction cleaned as [|c' rest IH]; intros data out i;
    [done|].
  simpl fill. destruct (truthy c') eqn:Ec'.
  - destruct data as [|d data']; [done|].
    destruct (fill zero rest data') as [o|] eqn:E; [|done].
    intros [= <-]. destruct i as [|i]; simpl.
    + intros [= <-]. by rewrite Ec'.
    + intros Hc. rewrite filter_cons_True by done. simpl. by eapply IH.
  - destruct (fill zero rest data) as [o|] eqn:E; [|done].
    intros [= <-]. destruct i as [|i]; simpl.
    + intros [= <-]. by rewrite Ec'.
    + intros Hc. rewrite filter_cons_False by (by rewrite Ec'). by eapply IH.
Qed.

(** [fill] succeeds when the provider answered with enough vectors. *)
Lemma fill_enough (zero : vector) (cleaned : list pystr) (data : list vector) :
  (length (filter (λ s, truthy s = true) cleaned) ≤ length data)%nat →
  ∃ out, fill zero cleaned data = Ok out.
Proof.
  revert data. induction cleaned as [|c rest IH]; intros data; simpl; [eauto|].
  destruct (truthy c) eqn:Ec.
  - rewrite filter_cons_True by done. destruct data as [|d data']; simpl; [lia|].
    intros H. destruct (IH data') as [o ->]; [lia | eauto].
  - rewrite filter_cons_False by (by rewrite Ec).
    intros H. destruct (IH data H) as [o ->]. eauto.
Qed.

Lemma process_batch_str (ts : list pystr) (cl : client) :
  _process_batch create svc (Str <$> ts) cl =
  match valid_texts ts with
  | [] => (zeros svc (length ts), cl)
  | _ =>
      let '(response, cl') :=
        embeddings_create create svc (InputList (valid_texts ts)) cl in
      match response with
      | Raise _ => (zeros svc (length ts), cl')
      | Ok data =>
          match fill (zero_vector svc) (clean_str <$> ts) data with
          | Raise _ => (zeros svc (length ts), cl')
          | Ok out => (out, cl')
          end
      end
  end.
Proof.
  unfold _process_batch, zero_batch, zeros, valid_texts.
  rewrite clean_texts_str, !length_fmap.
  pose proof (collect_valid_fst 0 (clean_str <$> ts)) as Hfst.
  pose proof (reconstruct_fill (zero_vector svc) [] 0 (clean_str <$> ts)) as Hrec.
  destruct (collect_valid 0 (clean_str <$> ts)) as [vt vi]. simpl in Hfst, Hrec.
  rewrite <- Hfst. destruct vt as [|v vt]; [done|].
  destruct (embeddings_create create svc (InputList (v :: vt)) cl) as [[data|e] cl'];
    [|done].
  rewrite length_fmap in Hrec. rewrite Hrec; [done|]. by intros x ?%elem_of_nil.
Qed.

End OneBatch.

(** ** The results of one batch *)
Section BatchFacts.
Import PyStr EmbeddingService EmbedderViews.
Context {W : Type}.
Variable create : W → string → embed_input → outcome (list vector) * W.
Variable svc : service.

Lemma length_zeros (n : nat) : length (zeros svc n) = n.
Proof. apply repeat_length. Qed.

Lemma process_batch_length (ts : list pystr) (cl : client) :
  length (_process_batch create svc (Str <$> ts) cl).1 = length ts.
Proof.
  rewrite process_batch_str. destruct (valid_texts ts); [apply length_zeros|].
  destruct (embeddings_create _ _ _ _) as [[data|e] cl']; [|apply length_zeros].
  destruct (fill _ _ _) as [out|] eqn:E; [|apply length_zeros].
  simpl. apply fill_length in E. by rewrite E, length_fmap.
Qed.

Lemma process_batch_invalid (ts : list pystr) (cl : client) (i : nat) (t : pystr) :
  ts !! i = Some t → clean_str t = [] →
  (_process_batch create svc (Str <$> ts) cl).1 !! i = Some (zero_vector svc).
Proof.
  intros Ht Hc. pose proof (lookup_lt_Some _ _ _ Ht) as Hi.
  rewrite process_batch_str. destruct (valid_texts ts); [by apply lookup_repeat|].
  destruct (embeddings_create _ _ _ _) as [[data|e] cl']; [|by apply lookup_repeat].
  destruct (fill _ _ _) as [out|] eqn:E; [|by apply lookup_repeat].
  simpl. rewrite (fill_lookup _ _ _ _ i (clean_str t) E).
  - by rewrite Hc.
  - by rewrite list_lookup_fmap, Ht.
Qed.

(** A batch sends at most one request, the list of its valid texts. *)
Lemma process_batch_requests (ts : list pystr) (cl : client) :
  requests (_process_batch create svc (Str <$> ts) cl).2 =
  requests cl ++
    match valid_texts ts with [] => [] | l => [InputList l] end.
Proof.
  rewrite process_batch_str. destruct (valid_texts ts) as [|v l] eqn:Ev.
  - by rewrite app_nil_r.
  - unfold embeddings_create.
    destruct (create _ _ _) as [[data|e] w]; [|done].
    by destruct (fill _ _ _).
Qed.

Lemma process_batch_failure (ts : list pystr) (cl : client) (e : exn) (w : W) :
  create (world cl) (model svc) (InputList (valid_texts ts)) = (Raise e, w) →
  (_process_batch create svc (Str <$> ts) cl).1 = zeros svc (length ts).
Proof.
  intros H. rewrite process_batch_str. destruct (valid_texts ts); [done|].
  unfold embeddings_create. by rewrite H.
Qed.

Lemma process_batch_success (ts : list pystr) (cl : client)
    (data : list vector) (w : W) (i : nat) (t : pystr) :
  create (world cl) (model svc) (InputList (valid_texts ts)) = (Ok data, w) →
  (length (valid_texts ts) ≤ length data)%nat →
  ts !! i = Some t →
  (_process_batch create svc (Str <$> ts) cl).1 !! i =
    if truthy (clean_str t)
    then data !! length (valid_texts (take i ts))
    else Some (zero_vector svc).
Proof.
  intros H Hlen Ht. pose proof (lookup_lt_Some _ _ _ Ht) as Hi.
  assert (Hc : (clean_str <$> ts) !! i = Some (clean_str t))
    by (by rewrite list_lookup_fmap, Ht).
  rewrite process_batch_str. destruct (valid_texts ts) as [|v l] eqn:Ev.
  - destruct (truthy (clean_str t)) eqn:Etr; [|by apply lookup_repeat].
    exfalso. unfold valid_texts in Ev.
    assert (Hin : clean_str t ∈ filter (λ s, truthy s = true) (clean_str <$> ts)).
    { apply list_elem_of_filter. split; [done|]. apply list_elem_of_lookup. eauto. }
    rewrite Ev in Hin. by apply elem_of_nil in Hin.
  - unfold embeddings_create. rewrite H.
    destruct (fill_enough (zero_vector svc) (clean_str <$> ts) data) as [out E].
    { unfold valid_texts in Ev. by rewrite Ev. }
    rewrite E. simpl. rewrite (fill_lookup _ _ _ _ i (clean_str t) E Hc).
    unfold valid_texts. by rewrite fmap_take.
Qed.

Lemma valid_texts_spec (ts : list pystr) (s : pystr) :
  s ∈ valid_texts ts → s ≠ [] ∧ ∃ t, t ∈ ts ∧ s = clean_str t.
Proof.
  unfold valid_texts. intros [Htr Hin]%list_elem_of_filter.
  apply list_elem_of_fmap in Hin as (t & -> & Ht).
  split; [by destruct (clean_str t) | eauto].
Qed.

End BatchFacts.

(** ** The batch loop *)
Section BatchLoop.
Import PyStr EmbeddingService EmbedderViews.
Context {W : Type}.
Variable create : W → string → embed_input → outcome (list vector) * W.
Variable svc : service.

Lemma batches_zero (bs : nat) : (0 < bs)%nat → batches 0 bs = 0%nat.
Proof. intros H. unfold batches. apply Nat.div_small. lia. Qed.

Lemma batches_add (j n bs : nat) :
  (0 < bs)%nat → batches (j * bs + n) bs = (j + batches n bs)%nat.
Proof.
  intros H. unfold batches.
  replace (j * bs + n + bs - 1)%nat with ((n + bs - 1) + j * bs)%nat by lia.
  rewrite Nat.div_add by lia. lia.
Qed.

Lemma batches_small (n bs : nat) :
  (0 < n)%nat → (n ≤ bs)%nat → batches n bs = 1%nat.
Proof.
  intros Hn Hb. unfold batches. symmetry.
  apply (Nat.div_unique _ _ _ (n - 1)); lia.
Qed.

Lemma batches_succ (n bs : nat) :
  (0 < bs)%nat → (0 < n)%nat → batches n bs = S (batches (n - bs) bs).
Proof.
  intros Hb Hn. destruct (decide (n ≤ bs)%nat) as [Hle|Hgt].
  - replace (n - bs)%nat with 0%nat by lia.
    rewrite batches_zero, batches_small; done.
  - replace n with (1 * bs + (n - bs))%nat at 1 by lia.
    by rewrite batches_add.
Qed.

Lemma batch_loop_shift (texts : list pytext) (bs a m : nat) (cl : client) :
  batch_loop create svc texts bs ((λ k, k * bs)%nat <$> seq (S a) m) cl =
  batch_loop create svc (drop bs texts) bs ((λ k, k * bs)%nat <$> seq a m) cl.
Proof.
  revert a cl. induction m as [|m IH]; intros a cl; [done|].
  cbn [seq fmap list_fmap batch_loop].
  rewrite drop_drop. replace (bs + a * bs)%nat with (S a * bs)%nat by lia.
  destruct (_process_batch _ _ _ _) as [out cl1].
  fold ((λ k, k * bs)%nat <$> seq (S (S a)) m).
  fold ((λ k, k * bs)%nat <$> seq (S a) m).
  by rewrite IH.
Qed.

Lemma batch_loop_by_batches (texts : list pytext) (bs m : nat) (cl : client) :
  batch_loop create svc texts bs ((λ k, k * bs)%nat <$> seq 0 m) cl =
  by_batches create svc bs m texts cl.
Proof.
  revert texts cl. induction m as [|m IH]; intros texts cl; [done|].
  cbn [seq fmap list_fmap batch_loop by_batches]. rewrite drop_0.
  destruct (_process_batch _ _ _ _) as [out cl1].
  fold ((λ k, k * bs)%nat <$> seq 1 m).
  by rewrite batch_loop_shift, IH.
Qed.

Lemma generate_by_batches (texts : list pytext) (batch_size : Z) (cl : client) :
  0 < batch_size →
  generate_embeddings_batch create svc texts batch_size cl =
  let '(out, cl') :=
    by_batches create svc (Z.to_nat batch_size)
      (batches (length texts) (Z.to_nat batch_size)) texts cl in
  (Ok out, cl').
Proof.
  intros H. unfold generate_embeddings_batch, py_range.
  destruct (batch_size =? 0) eqn:E0; [apply Z.eqb_eq in E0; lia|].
  destruct (batch_size <? 0) eqn:E1; [apply Z.ltb_lt in E1; lia|].
  by rewrite batch_loop_by_batches.
Qed.

(** The batches of a list that is cut at a batch boundary. *)
Lemma by_batches_app (bs j m : nat) (pre rest : list pytext) (cl : client) :
  length pre = (j * bs)%nat →
  by_batches create svc bs (j + m) (pre ++ rest) cl =
  let '(o1, c1) := by_batches create svc bs j pre cl in
  let '(o2, c2) := by_batches create svc bs m rest c1 in
  (o1 ++ o2, c2).
Proof.
  revert pre cl. induction j as [|j IH]; intros pre cl Hlen.
  - destruct pre; [|done]. simpl. by destruct (by_batches _ _ _ _ _ _).
  - cbn [Nat.add by_batches].
    rewrite take_app_le, drop_app_le by lia.
    destruct (_process_batch _ _ _ _) as [out cl1].
    rewrite IH by (rewrite length_drop; lia).
    destruct (by_batches create svc bs j (drop bs pre) cl1) as [o1 c1].
    destruct (by_batches create svc bs m rest c1) as [o2 c2].
    by rewrite app_assoc.
Qed.

Lemma by_batches_one (bs : nat) (batch : list pytext) (cl : client) :
  (length batch ≤ bs)%nat →
  by_batches create svc bs 1 batch cl =
  let '(out, cl1) := _process_batch create svc batch cl in (out, cl1).
Proof.
  intros H. cbn [by_batches]. rewrite take_ge by lia.
  destruct (_process_batch _ _ _ _) as [out cl1]. by rewrite app_nil_r.
Qed.

(** The loop over the texts before a batch, the batch, and the texts after
    it. *)
Lemma generate_split (bs : Z) (pre batch post : list pytext) (cl : client) :
  0 < bs →
  (length pre `mod` Z.to_nat bs = 0)%nat →
  batch ≠ [] →
  length batch = Z.to_nat bs ∨ ((length batch ≤ Z.to_nat bs)%nat ∧ post = []) →
  generate_embeddings_batch create svc (pre ++ batch ++ post) bs cl =
  match generate_embeddings_batch create svc pre bs cl with
  | (Ok out_pre, cl1) =>
      let '(out_batch, cl2) := _process_batch create svc batch cl1 in
      match generate_embeddings_batch create svc post bs cl2 with
      | (Ok out_post, cl3) => (Ok (out_pre ++ out_batch ++ out_post), cl3)
      | r => r
      end
  | r => r
  end.
Proof.
  intros Hbs Hmod Hne Hb. rewrite !generate_by_batches by done.
  set (n := Z.to_nat bs). assert (Hn : (0 < n)%nat) by lia.
  apply Nat.Div0.mod_divides in Hmod as [j Hj].
  assert (Hpre : length pre = (j * n)%nat) by lia.
  assert (Hbl : (0 < length batch)%nat) by (destruct batch; simpl; [done | lia]).
  rewrite !length_app, Hpre, batches_add by done.
  rewrite by_batches_app by done.
  replace (batches (j * n) n) with j
    by (by rewrite <- (Nat.add_0_r (j * n)), batches_add, batches_zero, Nat.add_0_r).
  destruct (by_batches create svc n j pre cl) as [o1 c1].
  destruct Hb as [Hb|[Hb ->]].
  - replace (length batch + length post)%nat with (1 * n + length post)%nat by lia.
    rewrite batches_add by done.
    rewrite (by_batches_app n 1) by lia.
    rewrite by_batches_one by lia.
    destruct (_process_batch create svc batch c1) as [ob c2].
    rewrite generate_by_batches by done. fold n.
    by destruct (by_batches create svc n _ post c2) as [o3 c3].
  - rewrite app_nil_r. simpl length. rewrite Nat.add_0_r.
    rewrite batches_small by lia. rewrite by_batches_one by lia.
    destruct (_process_batch create svc batch c1) as [ob c2].
    rewrite generate_by_batches by done. fold n. simpl length.
    rewrite batches_zero by done. simpl. by rewrite app_nil_r.
Qed.

End BatchLoop.

(** ** All batches together *)
Section AllBatches.
Import PyStr EmbeddingService EmbedderViews.
Context {W : Type}.
Variable create : W → string → embed_input → outcome (list vector) * W.
Variable svc : service.

Lemma batches_cover (n bs : nat) : (0 < bs)%nat → (n ≤ batches n bs * bs)%nat.
Proof.
  intros H. unfold batches.
  pose proof (Nat.div_mod_eq (n + bs - 1) bs) as E.
  pose proof (Nat.mod_upper_bound (n + bs - 1) bs) as U. nia.
Qed.

Lemma by_batches_length (bs m : nat) (ts : list pystr) (cl : client) :
  length (by_batches create svc bs m (Str <$> ts) cl).1
  = (length ts `min` (m * bs))%nat.
Proof.
  revert ts cl. induction m as [|m IH]; intros ts cl; [simpl; lia|].
  cbn [by_batches]. rewrite <- fmap_take, <- fmap_drop.
  pose proof (process_batch_length create svc (take bs ts) cl) as H1.
  destruct (_process_batch _ _ _ _) as [out cl1]. simpl in H1.
  specialize (IH (drop bs ts) cl1).
  destruct (by_batches _ _ _ _ _ _) as [outs cl2]. simpl in IH. simpl.
  rewrite length_app, H1, IH, length_take, length_drop. lia.
Qed.

Lemma by_batches_invalid (bs m : nat) (ts : list pystr) (cl : client)
    (i : nat) (t : pystr) :
  ts !! i = Some t → clean_str t = [] → (i < m * bs)%nat →
  (by_batches create svc bs m (Str <$> ts) cl).1 !! i = Some (zero_vector svc).
Proof.
  revert ts cl i. induction m as [|m IH]; intros ts cl i Ht Hc Hi; [simpl in Hi; lia|].
  pose proof (lookup_lt_Some _ _ _ Ht) as Hlt.
  cbn [by_batches]. rewrite <- fmap_take, <- fmap_drop.
  pose proof (process_batch_length create svc (take bs ts) cl) as H1.
  pose proof (process_batch_invalid create svc (take bs ts) cl) as H2.
  destruct (_process_batch _ _ _ _) as [out cl1]. simpl in H1, H2.
  specialize (IH (drop bs ts) cl1).
  destruct (by_batches _ _ _ _ _ _) as [outs cl2]. simpl in IH. simpl.
  rewrite length_take in H1.
  destruct (decide (i < bs)%nat) as [Hs|Hs].
  - rewrite lookup_app_l by lia. apply (H2 i t); [|done].
    by rewrite lookup_take_lt.
  - rewrite lookup_app_r by lia. replace (i - length out)%nat with (i - bs)%nat by lia.
    apply IH; [|done|lia]. rewrite lookup_drop. rewrite <- Ht. f_equal. lia.
Qed.

Lemma batch_request_mono (ts ts' : list pystr) (r : embed_input) :
  (∀ t, t ∈ ts → t ∈ ts') → batch_request ts r → batch_request ts' r.
Proof.
  intros Hsub (l & -> & Hne & Hall). exists l. split; [done|]. split; [done|].
  eapply Forall_impl; [exact Hall|]. intros s (Hs & t & Ht & ->). eauto.
Qed.

Lemma by_batches_requests (bs m : nat) (ts : list pystr) (cl : client) :
  ∃ new,
    requests (by_batches create svc bs m (Str <$> ts) cl).2 = requests cl ++ new ∧
    Forall (batch_request ts) new.
Proof.
  revert ts cl. induction m as [|m IH]; intros ts cl.
  - exists []. simpl. by rewrite app_nil_r.
  - cbn [by_batches]. rewrite <- fmap_take, <- fmap_drop.
    pose proof (process_batch_requests create svc (take bs ts) cl) as H1.
    destruct (_process_batch _ _ _ _) as [out cl1]. simpl in H1.
    destruct (IH (drop bs ts) cl1) as (new & E & Hnew).
    destruct (by_batches _ _ _ _ _ _) as [outs cl2]. simpl in E. simpl.
    eexists. rewrite E, H1, <- app_assoc. split; [done|].
    apply Forall_app. split.
    + destruct (valid_texts (take bs ts)) as [|v l] eqn:Ev; [constructor|].
      apply Forall_singleton. exists (v :: l). split; [done|]. split; [done|].
      rewrite <- Ev. apply Forall_forall. intros s Hs.
      apply valid_texts_spec in Hs as (Hs & t & Ht & ->).
      split; [done|]. exists t. split; [|done].
      apply list_elem_of_lookup in Ht as [k Hk].
      apply lookup_take_Some in Hk as [Hk _]. apply list_elem_of_lookup. eauto.
    + eapply Forall_impl; [exact Hnew|]. intros r. apply batch_request_mono.
      intros t [k Hk]%list_elem_of_lookup. rewrite lookup_drop in Hk.
      apply list_elem_of_lookup. eauto.
Qed.

End AllBatches.

Section GenerateFacts.
Import PyStr EmbeddingService EmbedderViews.
Context {W : Type}.
Variable create : W → string → embed_input → outcome (list vector) * W.
Variable svc : service.

Lemma generate_ok (ts : list pystr) (bs : Z) (cl : client) :
  0 < bs →
  ∃ out cl',
    generate_embeddings_batch create svc (Str <$> ts) bs cl = (Ok out, cl') ∧
    length out = length ts.
Proof.
  intros H. rewrite generate_by_batches by done. rewrite length_fmap.
  pose proof (by_batches_length create svc (Z.to_nat bs)
                (batches (length ts) (Z.to_nat bs)) ts cl) as Hl.
  destruct (by_batches _ _ _ _ _ _) as [out cl']. simpl in Hl.
  exists out, cl'. split; [done|].
  pose proof (batches_cover (length ts) (Z.to_nat bs)). lia.
Qed.

End GenerateFacts.

(** C1: for a positive [batch_size], [generate_embeddings_batch] returns one
    vector per text; a text that cleans to the empty string gets the zero
    vector, which has [embedding_dimension] components, all [0.0], and is in
    no request, every request being a non-empty list of non-empty
    cleaned texts; and for every batch the result is the results of the texts
    before it, the result of [_process_batch] on the batch, and the results of
    the texts after it, in this order: if the provider raises for the batch,
    the batch (and nothing else) is all zero vectors, and if it answers with
    one vector per valid text, the vectors stand at the places of these texts
    in their order. *)
Theorem generate_embeddings_batch_spec {W : Type}
    (create : W → string → EmbeddingService.embed_input
              → outcome (list EmbeddingService.vector) * W)
    (svc : EmbeddingService.service) (texts : list pystr) (batch_size : Z)
    (cl : EmbeddingService.client) :
  0 < batch_size →
  ∃ embeddings cl',
    EmbeddingService.generate_embeddings_batch create svc
      (EmbeddingService.Str <$> texts) batch_size cl = (Ok embeddings, cl') ∧
    length embeddings = length texts ∧
    length (EmbeddingService.zero_vector svc)
      = EmbeddingService.embedding_dimension svc ∧
    Forall (λ x, x = 0%float) (EmbeddingService.zero_vector svc) ∧
    (∀ i t, texts !! i = Some t → EmbedderViews.clean_str t = [] →
            embeddings !! i = Some (EmbeddingService.zero_vector svc)) ∧
    (∃ new, EmbeddingService.requests cl' = EmbeddingService.requests cl ++ new ∧
            Forall (EmbedderViews.batch_request texts) new) ∧
    (∀ pre batch post,
       texts = pre ++ batch ++ post →
       (length pre `mod` Z.to_nat batch_size = 0)%nat →
       batch ≠ [] →
       length batch = Z.to_nat batch_size
       ∨ ((length batch ≤ Z.to_nat batch_size)%nat ∧ post = []) →
       ∃ out_pre cl1 out_batch cl2 out_post,
         EmbeddingService.generate_embeddings_batch create svc
           (EmbeddingService.Str <$> pre) batch_size cl = (Ok out_pre, cl1) ∧
         EmbeddingService._process_batch create svc
           (EmbeddingService.Str <$> batch) cl1 = (out_batch, cl2) ∧
         EmbeddingService.generate_embeddings_batch create svc
           (EmbeddingService.Str <$> post) batch_size cl2 = (Ok out_post, cl') ∧
         embeddings = out_pre ++ out_batch ++ out_post ∧
         length out_pre = length pre ∧
         length out_batch = length batch ∧
         length out_post = length post ∧
         (∀ e w,
            create (EmbeddingService.world cl1) (EmbeddingService.model svc)
              (EmbeddingService.InputList (EmbedderViews.valid_texts batch))
            = (Raise e, w) →
            out_batch = repeat (EmbeddingService.zero_vector svc) (length batch)) ∧
         (∀ data w,
            create (EmbeddingService.world cl1) (EmbeddingService.model svc)
              (EmbeddingService.InputList (EmbedderViews.valid_texts batch))
            = (Ok data, w) →
            length data = length (EmbedderViews.valid_texts batch) →
            ∀ i t, batch !! i = Some t →
              out_batch !! i =
                if PyStr.truthy (EmbedderViews.clean_str t)
                then data !! length (EmbedderViews.valid_texts (take i batch))
                else Some (EmbeddingService.zero_vector svc))).
Proof.
  intros Hbs.
  destruct (generate_ok create svc texts batch_size cl Hbs) as (out & cl' & E & Hlen).
  exists out, cl'. split; [done|]. split; [done|].
  split; [apply length_zero_vector|]. split; [apply zero_vector_zeros|].
  pose proof E as E'. rewrite generate_by_batches in E' by done.
  rewrite length_fmap in E'.
  split; [|split].
  - intros i t Ht Hc.
    pose proof (by_batches_invalid create svc (Z.to_nat batch_size)
                  (EmbedderViews.batches (length texts) (Z.to_nat batch_size)) texts cl i t Ht Hc)
      as H.
    destruct (EmbedderViews.by_batches _ _ _ _ _ _) as [o c]. injection E' as -> ->.
    apply H. pose proof (batches_cover (length texts) (Z.to_nat batch_size)).
    apply lookup_lt_Some in Ht. lia.
  - pose proof (by_batches_requests create svc (Z.to_nat batch_size)
                  (EmbedderViews.batches (length texts) (Z.to_nat batch_size)) texts cl) as H.
    destruct (EmbedderViews.by_batches _ _ _ _ _ _) as [o c]. by injection E' as -> ->.
  - clear E'. intros pre batch post -> Hmod Hne Hb.
    rewrite !fmap_app in E.
    rewrite generate_split in E; [|done|by rewrite length_fmap|by destruct batch|].
    2:{ rewrite length_fmap. destruct Hb as [?|[? ->]]; [by left | by right]. }
    destruct (generate_ok create svc pre batch_size cl Hbs) as (o1 & c1 & E1 & L1).
    rewrite E1 in E.
    pose proof (process_batch_length create svc batch c1) as L2.
    pose proof (process_batch_failure create svc batch c1) as Hf.
    pose proof (process_batch_success create svc batch c1) as Hs.
    destruct (EmbeddingService._process_batch create svc
                (EmbeddingService.Str <$> batch) c1) as [ob c2] eqn:E2.
    simpl in L2, Hf, Hs.
    destruct (generate_ok create svc post batch_size c2 Hbs) as (o3 & c3 & E3 & L3).
    rewrite E3 in E. injection E as <- <-.
    exists o1, c1, ob, c2, o3.
    split; [done|]. split; [done|]. split; [done|]. split; [done|].
    split; [done|]. split; [done|]. split; [done|]. split.
    + intros e w H. by eapply Hf.
    + intros data w H Hd i t Ht. eapply Hs; [exact H | lia | done].
Qed.

Lemma generate_embeddings_batch_spec_witness :
  ∃ embeddings cl',
    EmbeddingService.generate_embeddings_batch (EmbedderViews.failing_at 1)
      EmbedderViews.small (EmbeddingService.Str <$> EmbedderViews.five_texts) 2
      EmbedderViews.fresh_client = (Ok embeddings, cl') ∧
    length embeddings = 5%nat ∧
    length (EmbeddingService.zero_vector EmbedderViews.small)
      = EmbeddingService.embedding_dimension EmbedderViews.small ∧
    embeddings !! 1%nat = Some (EmbeddingService.zero_vector EmbedderViews.small).
Proof.
  destruct (generate_embeddings_batch_spec (EmbedderViews.failing_at 1)
              EmbedderViews.small EmbedderViews.five_texts 2
              EmbedderViews.fresh_client) as (e & c & H1 & H2 & H3 & _ & H5 & _).
  - lia.
  - exists e, c. split; [exact H1|]. split; [exact H2|]. split; [exact H3|].
    apply (H5 1%nat (PyStr.of_string "  ")); reflexivity.
Defined.

(** Five texts in batches of two, the provider failing for the second batch:
    the blank text and the whole second batch get zero vectors, the first and
    the third batch keep the vectors of the provider; the blank text is in no
    request. *)
Example partial_failure_is_isolated :
  EmbeddingService.generate_embeddings_batch (EmbedderViews.failing_at 1)
    EmbedderViews.small (EmbeddingService.Str <$> EmbedderViews.five_texts) 2
    EmbedderViews.fresh_client
  = (Ok [ EmbedderViews.ones (PyStr.of_string "alpha");
          EmbeddingService.zero_vector EmbedderViews.small;
          EmbeddingService.zero_vector EmbedderViews.small;
          EmbeddingService.zero_vector EmbedderViews.small;
          EmbedderViews.ones (PyStr.of_string "epsilon") ],
     {| EmbeddingService.world := 3%nat;
        EmbeddingService.requests :=
          [ EmbeddingService.InputList [PyStr.of_string "alpha"];
            EmbeddingService.InputList
              [PyStr.of_string "beta gamma"; PyStr.of_string "delta"];
            EmbeddingService.InputList [PyStr.of_string "epsilon"] ] |}).
Proof. vm_compute. reflexivity. Qed.

(** ** Chunk dictionaries *)
Section Enrich.
Import PyStr EmbeddingService EmbedderViews.
Context {W : Type}.
Variable create : W → string → embed_input → outcome (list vector) * W.
Variable svc : service.

Lemma reconstruct_length (zero : vector) (vi idxs : list nat)
    (data out : list vector) :
  reconstruct zero vi idxs data = Ok out → length out = length idxs.
Proof.
  revert data out. induction idxs as [|idx rest IH]; intros data out; simpl.
  - by intros [= <-].
  - case_bool_decide.
    + destruct data as [|d data']; [done|].
      destruct (reconstruct zero vi rest data') as [o|] eqn:E; [|done].
      intros [= <-]. simpl. f_equal. by eapply IH.
    + destruct (reconstruct zero vi rest data) as [o|] eqn:E; [|done].
      intros [= <-]. simpl. f_equal. by eapply IH.
Qed.

Lemma process_batch_length_any (texts : list pytext) (cl : client) :
  length (_process_batch create svc texts cl).1 = length texts.
Proof.
  unfold _process_batch, zero_batch.
  destruct (clean_texts texts) as [cleaned|e]; [|apply repeat_length].
  destruct (collect_valid 0 cleaned) as [vt vi].
  destruct vt as [|v vt]; [apply repeat_length|].
  destruct (embeddings_create _ _ _ _) as [[data|e] cl']; [|apply repeat_length].
  destruct (reconstruct _ _ _ _) as [out|] eqn:E; [|apply repeat_length].
  simpl. apply reconstruct_length in E. by rewrite E, length_seq.
Qed.

Lemma by_batches_length_any (bs m : nat) (texts : list pytext) (cl : client) :
  length (by_batches create svc bs m texts cl).1
  = (length texts `min` (m * bs))%nat.
Proof.
  revert texts cl. induction m as [|m IH]; intros texts cl; [simpl; lia|].
  cbn [by_batches].
  pose proof (process_batch_length_any (take bs texts) cl) as H1.
  destruct (_process_batch _ _ _ _) as [out cl1]. simpl in H1.
  specialize (IH (drop bs texts) cl1).
  destruct (by_batches _ _ _ _ _ _) as [outs cl2]. simpl in IH. simpl.
  rewrite length_app, H1, IH, length_take, length_drop. lia.
Qed.

Lemma generate_default_ok (texts : list pytext) (cl : client) :
  ∃ out cl',
    generate_embeddings_batch create svc texts 100 cl = (Ok out, cl') ∧
    length out = length texts.
Proof.
  rewrite generate_by_batches by done.
  assert (Hn : (0 < Z.to_nat 100)%nat) by lia.
  revert Hn. generalize (Z.to_nat 100) as n. intros n Hn.
  pose proof (by_batches_length_any n (batches (length texts) n) texts cl) as Hl.
  destruct (by_batches _ _ _ _ _ _) as [out cl']. cbn [fst] in Hl.
  exists out, cl'. split; [done|].
  pose proof (batches_cover (length texts) n Hn). lia.
Qed.

Lemma chunk_texts_spec (h : heap) (chunks : list loc) (texts : list pytext) :
  chunk_texts h chunks = Ok texts →
  length texts = length chunks ∧
  ∀ chunk, chunk ∈ chunks → ∃ d, h !! chunk = Some d ∧ is_Some (d !! "text").
Proof.
  revert texts. induction chunks as [|c rest IH]; intros texts; simpl.
  - intros [= <-]. split; [done|]. by intros ? ?%elem_of_nil.
  - destruct (deref h c !! "text") as [v|] eqn:Ev; [|done].
    destruct (chunk_texts h rest) as [ts|] eqn:E; [|done].
    intros [= <-]. destruct (IH ts eq_refl) as [Hl Hall].
    split; [simpl; by rewrite Hl|].
    intros chunk [->|Hin]%elem_of_cons; [|by apply Hall].
    unfold deref in Ev. destruct (h !! c) as [d|]; [|done].
    exists d. split; [done|]. simpl in Ev. by rewrite Ev.
Qed.

Lemma setitems_fresh (h : heap) (l : loc) (d : dict) (embedding : vector) :
  setitem l "embedding_dimension" (VInt (Z.of_nat (length embedding)))
    (setitem l "embedding_model" (VStr (of_string (model svc)))
       (setitem l "embedding" (VFloats embedding) (<[l := d]> h)))
  = <[l := enriched_dict svc d embedding]> h.
Proof. unfold setitem, enriched_dict. by rewrite !alter_insert_eq. Qed.

Lemma fresh_unused (h : heap) : h !! fresh (dom h) = None.
Proof. apply not_elem_of_dom, is_fresh. Qed.

Lemma enrich_spec (pairs : list (loc * vector)) (h h' : heap) (outs : list loc) :
  enrich svc pairs h = (outs, h') →
  (∀ p, p ∈ pairs → is_Some (h !! p.1)) →
  length outs = length pairs ∧
  (∀ l d, h !! l = Some d → h' !! l = Some d) ∧
  (∀ i chunk embedding, pairs !! i = Some (chunk, embedding) →
     ∃ out d, outs !! i = Some out ∧ h !! out = None ∧ h !! chunk = Some d ∧
              h' !! out = Some (enriched_dict svc d embedding)).
Proof.
  revert h h' outs. induction pairs as [|[chunk embedding] rest IH];
    intros h h' outs.
  - intros [= <- <-] _. split; [done|]. split; [done|]. by intros [|?] ???.
  - cbn [enrich]. unfold dict_copy. rewrite setitems_fresh.
    set (out := fresh (dom h)).
    set (h4 := <[out := enriched_dict svc (deref h chunk) embedding]> h).
    destruct (enrich svc rest h4) as [outs' h''] eqn:E.
    intros [= <- <-] Hin.
    assert (Hout : h !! out = None) by apply fresh_unused.
    assert (Hkeep : ∀ l d, h !! l = Some d → h4 !! l = Some d).
    { intros l d Hl. unfold h4. rewrite lookup_insert_ne; [done|]. congruence. }
    destruct (IH h4 h'' outs' E) as (Hlen & Hpres & Hnew).
    { intros p Hp. destruct (Hin p) as [d Hd]; [by right|]. eauto. }
    split; [simpl; by rewrite Hlen|]. split; [by eauto|].
    intros i c e Hi. destruct i as [|i]; simpl in Hi.
    + injection Hi as <- <-. destruct (Hin (chunk, embedding)) as [d Hd]; [left|].
      simpl in Hd. exists out, d. split; [done|]. split; [done|]. split; [done|].
      apply Hpres. unfold h4, deref. rewrite Hd. simpl. apply lookup_insert_eq.
    + destruct (Hnew i c e Hi) as (o & d & Ho & Hfresh & Hc & Hd).
      destruct (Hin (c, e)) as [d0 Hd0].
      { right. apply list_elem_of_lookup. eauto. }
      simpl in Hd0. pose proof (Hkeep _ _ Hd0) as Hd0'.
      assert (d0 = d) as -> by congruence.
      exists o, d. split; [done|]. split; [|done].
      destruct (h !! o) as [x|] eqn:Ex; [|done].
      apply Hkeep in Ex. congruence.
Qed.

Lemma enriched_dict_other (d : dict) (embedding : vector) (key : string) :
  key ∉ added_keys → enriched_dict svc d embedding !! key = d !! key.
Proof.
  unfold added_keys, enriched_dict. intros H.
  rewrite !lookup_insert_ne; [done|..]; intros <-; apply H; set_solver.
Qed.

End Enrich.

Section ForChunks.
Import PyStr EmbeddingService EmbedderViews.
Context {W : Type}.
Variable create : W → string → embed_input → outcome (list vector) * W.
Variable svc : service.

Lemma chunk_texts_total (h : heap) (chunks : list loc) :
  (∀ chunk, chunk ∈ chunks → is_Some (deref h chunk !! "text")) →
  ∃ texts, chunk_texts h chunks = Ok texts.
Proof.
  induction chunks as [|c rest IH]; intros Hall; simpl; [eauto|].
  destruct (Hall c) as [v ->]; [left|].
  destruct IH as [ts ->]; [|eauto]. intros chunk Hc. apply Hall. by right.
Qed.

Lemma enriched_dict_keys (d : dict) (embedding : vector) (key : string) :
  is_Some (enriched_dict svc d embedding !! key) ↔
  key ∈ added_keys ∨ is_Some (d !! key).
Proof.
  unfold enriched_dict, added_keys.
  rewrite !lookup_insert_is_Some'. set_solver.
Qed.

End ForChunks.

(** C9: [generate_embeddings_for_chunks] changes no object that existed
    before the call, whether it returns or raises; when it returns, output
    [i] is a new object holding the items of input chunk [i] and the items
    [embedding] (vector [i] of the batch result), [embedding_model] and
    [embedding_dimension] (the length of that vector), so that every other
    key has the value it has in the input chunk; and it returns whenever every
    chunk has a [text]. *)
Theorem generate_embeddings_for_chunks_frame {W : Type}
    (create : W → string → EmbeddingService.embed_input
              → outcome (list EmbeddingService.vector) * W)
    (svc : EmbeddingService.service) (chunks : list EmbeddingService.loc)
    (h : EmbeddingService.heap) (cl : EmbeddingService.client) :
  match EmbeddingService.generate_embeddings_for_chunks create svc chunks h cl
  with
  | (Raise _, h', _) =>
      h' = h ∧
      ¬ ∀ chunk, chunk ∈ chunks →
          is_Some (EmbeddingService.deref h chunk !! "text"%string)
  | (Ok enriched_chunks, h', cl') =>
      ∃ texts embeddings,
        EmbeddingService.chunk_texts h chunks = Ok texts ∧
        EmbeddingService.generate_embeddings_batch create svc texts 100 cl
          = (Ok embeddings, cl') ∧
        length enriched_chunks = length chunks ∧
        (∀ l d, h !! l = Some d → h' !! l = Some d) ∧
        (∀ i chunk, chunks !! i = Some chunk →
           ∃ out d embedding,
             enriched_chunks !! i = Some out ∧
             embeddings !! i = Some embedding ∧
             h !! out = None ∧
             h !! chunk = Some d ∧
             h' !! chunk = Some d ∧
             h' !! out = Some (EmbedderViews.enriched_dict svc d embedding) ∧
             (∀ key, is_Some (EmbedderViews.enriched_dict svc d embedding !! key)
                     ↔ key ∈ EmbedderViews.added_keys ∨ is_Some (d !! key)) ∧
             (∀ key, key ∉ EmbedderViews.added_keys →
                     EmbedderViews.enriched_dict svc d embedding !! key
                     = d !! key))
  end.
Proof.
  unfold EmbeddingService.generate_embeddings_for_chunks.
  destruct (EmbeddingService.chunk_texts h chunks) as [texts|e] eqn:Et.
  - destruct (generate_default_ok create svc texts cl) as (embs & cl' & Eg & Hl).
    rewrite Eg.
    destruct (chunk_texts_spec h chunks texts Et) as [Hlt Hall].
    destruct (EmbeddingService.enrich svc (zip chunks embs) h) as [outs h'] eqn:E.
    apply enrich_spec in E as (Hlen & Hpres & Hnew).
    2:{ intros [c e] [i Hi]%list_elem_of_lookup.
        apply lookup_zip_Some in Hi as [Hc _]. simpl.
        destruct (Hall c) as (d & -> & _); [|done].
        apply list_elem_of_lookup. eauto. }
    exists texts, embs. split; [done|]. split; [done|].
    split; [rewrite Hlen, length_zip; lia|]. split; [done|].
    intros i chunk Hi.
    destruct (lookup_lt_is_Some_2 embs i) as [e He].
    { apply lookup_lt_Some in Hi. lia. }
    destruct (Hnew i chunk e) as (out & d & Ho & Hf & Hc & Hd).
    { by apply lookup_zip_Some. }
    exists out, d, e. split; [done|]. split; [done|]. split; [done|].
    split; [done|]. split; [by apply Hpres|]. split; [done|].
    split; [apply enriched_dict_keys | apply enriched_dict_other].
  - split; [done|]. intros Hall.
    destruct (chunk_texts_total h chunks Hall) as [ts Hts]. congruence.
Qed.

(** One chunk through [generate_embeddings_for_chunks]: the chunk at 2 is as
    it was, the result is the new object at 3. *)
Example one_chunk_enriched :
  let r := EmbeddingService.generate_embeddings_for_chunks
             (EmbedderViews.answering EmbedderViews.ones) EmbedderViews.small
             [2%positive] EmbedderViews.one_chunk_heap
             {| EmbeddingService.world := tt; EmbeddingService.requests := [] |} in
  r.1.1 = Ok [3%positive] ∧
  r.1.2 !! 2%positive = Some EmbedderViews.one_chunk ∧
  r.1.2 !! 3%positive =
    Some (EmbedderViews.enriched_dict EmbedderViews.small EmbedderViews.one_chunk
            (EmbedderViews.ones (PyStr.of_string "hello"))).
Proof. vm_compute. done. Qed.

(** ** The vector store *)

(** On a store that is there, any number of [initialize] calls succeed. *)
Lemma initialize_reachable (colls : gmap pystr Endee.settings)
    (vs : Endee.vector_store) (dim : Z) :
  ∃ colls',
    Endee.initialize Endee.reachable_store vs dim colls
    = (true, {| Endee.collection_name := Endee.collection_name vs;
                Endee.initialized := true |}, colls') ∧
    is_Some (colls' !! Endee.collection_name vs) ∧
    (is_Some (colls !! Endee.collection_name vs) → colls' = colls).
Proof.
  unfold Endee.initialize, Endee.health_check_sync, Endee.create_collection_sync.
  simpl. destruct (colls !! Endee.collection_name vs) as [st|] eqn:E; simpl.
  - exists colls. rewrite E. eauto.
  - eexists. split; [done|]. rewrite lookup_insert_eq. split; [eauto|].
    by intros [? ?].
Qed.

(** C6: when the store answers both health probes with 200, the first
    creation with 200, 201 or 409 and the second creation with 409
    ("already exists"), both [initialize] calls return [True] and the vector
    store is initialized after each. *)
Theorem initialize_idempotent {S : Type}
    (send : S → Endee.request → Endee.http_result * S)
    (vs : Endee.vector_store) (dim : Z) (s0 s1 s2 s3 s4 : S)
    (code : Z) (b1 b2 b3 b4 : option Endee.json) :
  send s0 Endee.GetHealth = (Endee.Response 200 b1, s1) →
  send s1 (Endee.PostCollections (Endee.collection_name vs) dim "cosine")
    = (Endee.Response code b2, s2) →
  code = 200 ∨ code = 201 ∨ code = 409 →
  send s2 Endee.GetHealth = (Endee.Response 200 b3, s3) →
  send s3 (Endee.PostCollections (Endee.collection_name vs) dim "cosine")
    = (Endee.Response 409 b4, s4) →
  let vs' := {| Endee.collection_name := Endee.collection_name vs;
                Endee.initialized := true |} in
  Endee.create_collection_sync send (Endee.collection_name vs) dim s3
    = (true, s4) ∧
  Endee.initialize send vs dim s0 = (true, vs', s2) ∧
  Endee.initialize send vs' dim s2 = (true, vs', s4).
Proof.
  intros H0 H1 Hc H2 H3. simpl.
  unfold Endee.initialize, Endee.health_check_sync, Endee.create_collection_sync.
  simpl. rewrite H0, H1, H2, H3. simpl.
  split; [done|]. split; [|done].
  destruct Hc as [-> | [-> | ->]]; done.
Qed.

Lemma initialize_idempotent_witness :
  let name := PyStr.of_string "documents" in
  let vs := {| Endee.collection_name := name; Endee.initialized := false |} in
  let vs' := {| Endee.collection_name := name; Endee.initialized := true |} in
  let colls : gmap pystr Endee.settings :=
    {[ name := {| Endee.set_dimension := 1536; Endee.set_metric := "cosine" |} ]} in
  Endee.create_collection_sync Endee.reachable_store name 1536 colls
    = (true, colls) ∧
  Endee.initialize Endee.reachable_store vs 1536 ∅ = (true, vs', colls) ∧
  Endee.initialize Endee.reachable_store vs' 1536 colls = (true, vs', colls).
Proof.
  apply (initialize_idempotent Endee.reachable_store
           {| Endee.collection_name := PyStr.of_string "documents";
              Endee.initialized := false |} 1536
           ∅ ∅ _ _ _ 201 None None None None).
  - reflexivity.
  - reflexivity.
  - right. left. reflexivity.
  - reflexivity.
  - reflexivity.
Defined.

(** ** The pipeline before [initialize] *)

(** C3, as stated, fails: on a pipeline that was not initialized
    [search_documents] raises [RuntimeError] and returns no sequence. *)
Lemma search_before_initialize_raises :
  (RAGPipeline.search_documents (EmbedderViews.failing_at 1)
     Endee.reachable_store Uninitialized.the_pipeline
     (PyStr.of_string "what is a chunk") 5 0%float Uninitialized.the_world).1
  = Raise (RuntimeError "RAG pipeline not initialized. Call initialize() first.")
  ∧
  (RAGPipeline.search_documents (EmbedderViews.failing_at 1)
     Endee.reachable_store Uninitialized.the_pipeline
     (PyStr.of_string "what is a chunk") 5 0%float Uninitialized.the_world).1
  ≠ Ok [].
Proof. split; [reflexivity | discriminate]. Qed.

(** C3, amended: on a pipeline that is not initialized, [search_documents]
    raises the same not-initialized [RuntimeError] as [process_pdf_file] and
    [process_pdf_bytes], for every input, and nothing outside the pipeline
    changes. *)
Theorem uninitialized_raises {W S : Type}
    (create : W → string → EmbeddingService.embed_input
              → outcome (list EmbeddingService.vector) * W)
    (send : S → Endee.request → Endee.http_result * S)
    (extract_text_from_pdf : pystr → outcome DocumentProcessor.document_data)
    (extract_text_from_bytes :
       pystr → pystr → outcome DocumentProcessor.document_data)
    (now : pystr) (p : RAGPipeline.pipeline) (w : RAGPipeline.world W S)
    (query file_path pdf_bytes filename : pystr) (top_k : Z) (threshold : float) :
  RAGPipeline.pl_initialized p = false →
  RAGPipeline.search_documents create send p query top_k threshold w
    = (Raise RAGPipeline.not_initialized, w) ∧
  RAGPipeline.process_pdf_file create send extract_text_from_pdf now p
    file_path w = (Raise RAGPipeline.not_initialized, w) ∧
  RAGPipeline.process_pdf_bytes create send extract_text_from_bytes now p
    pdf_bytes filename w = (Raise RAGPipeline.not_initialized, w).
Proof.
  intros H.
  unfold RAGPipeline.search_documents, RAGPipeline.process_pdf_file,
    RAGPipeline.process_pdf_bytes.
  rewrite H. done.
Qed.

Lemma uninitialized_raises_witness :
  RAGPipeline.search_documents (EmbedderViews.failing_at 1)
    Endee.reachable_store Uninitialized.the_pipeline
    (PyStr.of_string "what is a chunk") 5 0%float Uninitialized.the_world
    = (Raise RAGPipeline.not_initialized, Uninitialized.the_world) ∧
  RAGPipeline.process_pdf_file (EmbedderViews.failing_at 1)
    Endee.reachable_store Uninitialized.no_pdf Uninitialized.clock
    Uninitialized.the_pipeline (PyStr.of_string "a.pdf") Uninitialized.the_world
    = (Raise RAGPipeline.not_initialized, Uninitialized.the_world) ∧
  RAGPipeline.process_pdf_bytes (EmbedderViews.failing_at 1)
    Endee.reachable_store Uninitialized.no_pdf_bytes Uninitialized.clock
    Uninitialized.the_pipeline [] (PyStr.of_string "a.pdf")
    Uninitialized.the_world
    = (Raise RAGPipeline.not_initialized, Uninitialized.the_world).
Proof.
  apply (uninitialized_raises (EmbedderViews.failing_at 1) Endee.reachable_store
           Uninitialized.no_pdf Uninitialized.no_pdf_bytes Uninitialized.clock
           Uninitialized.the_pipeline Uninitialized.the_world).
  reflexivity.
Defined.

(** Once initialized, [search_documents] does not raise: a failure of the
    query embedding gives the empty list. *)
Lemma search_after_initialize {W S : Type}
    (create : W → string → EmbeddingService.embed_input
              → outcome (list EmbeddingService.vector) * W)
    (send : S → Endee.request → Endee.http_result * S)
    (p : RAGPipeline.pipeline) (w : RAGPipeline.world W S)
    (query : pystr) (top_k : Z) (threshold : float) :
  RAGPipeline.pl_initialized p = true →
  (∃ results w',
     RAGPipeline.search_documents create send p query top_k threshold w
     = (Ok results, w')) ∧
  (∀ e cl,
     EmbeddingService.generate_embedding create (RAGPipeline.embedding_service p)
       (EmbeddingService.Str query) (RAGPipeline.w_client w) = (Raise e, cl) →
     (RAGPipeline.search_documents create send p query top_k threshold w).1
     = Ok []).
Proof.
  intros H. unfold RAGPipeline.search_documents. rewrite H. simpl. split.
  - destruct (EmbeddingService.generate_embedding _ _ _ _) as [[q|e] cl]; [|eauto].
    destruct (Endee.search_similar_chunks _ _ _ _ _ _) as [results s]. eauto.
  - intros e cl ->. done.
Qed.

(** * Further properties of the chunker *)
Section ChunkerMore.
Import PyStr DocumentProcessor ChunkerViews.

Lemma chunk_pages_ids (cfg : config) (id : Z) (pages : list page_data)
    (i : nat) (c : chunk_call) :
  concat (chunk_pages cfg id pages) !! i = Some c →
  call_id c = id + Z.of_nat i.
Proof.
  revert id i. induction pages as [|p rest IH]; intros id i; [done|].
  cbn [chunk_pages]. unfold chunk_page.
  pose proof (chunk_sentences_groups cfg (page p) id []
                (_split_into_sentences (text p))) as E.
  simpl join in E. rewrite E by (try apply sentences_solid; constructor).
  cbn [concat].
  set (groups := sentence_groups cfg [] (_split_into_sentences (text p))).
  assert (Hlen : length (calls_of (page p) id groups) = length groups).
  { generalize id. induction groups as [|g gs IHg]; intros id0; simpl; [done|].
    by rewrite IHg. }
  destruct (decide (i < length groups)%nat) as [Hi|Hi].
  - rewrite lookup_app_l by lia.
    by intros (g & _ & _ & _ & _ & ?)%calls_of_lookup.
  - rewrite lookup_app_r by lia. intros H%IH. rewrite Hlen in H. lia.
Qed.

Lemma chunk_elem_inv (cfg : config) (d : document_data) (ch : chunk) :
  ch ∈ split_text_into_chunks cfg d →
  ∃ i p calls c,
    content d !! i = Some p ∧
    chunk_pages cfg 0 (content d) !! i = Some calls ∧
    c ∈ calls ∧ ch = _create_chunk (metadata d) c.
Proof.
  unfold split_text_into_chunks.
  intros (c & -> & Hc)%list_elem_of_fmap.
  apply list_elem_of_In, in_concat in Hc as (calls & Hcalls & Hc).
  apply list_elem_of_In, list_elem_of_lookup in Hcalls as [i Hi].
  destruct (chunk_pages_lookup_inv _ _ _ _ Hi) as [p Hp].
  exists i, p, calls, c. split; [done|]. split; [done|].
  split; [by apply list_elem_of_In | done].
Qed.

Lemma split_nonempty (s : pystr) (c : ascii) :
  c ∈ s → is_space c = false → split s ≠ [].
Proof.
  induction s as [|x t IH]; [by intros ?%elem_of_nil|].
  intros Hin Hc. simpl. destruct (is_space x) eqn:Ex.
  - apply IH; [|done]. apply elem_of_cons in Hin as [->|?]; [congruence | done].
  - destruct t as [|y t']; [done|]. destruct (is_space y); [done|].
    by destruct (split (y :: t')).
Qed.

Lemma solid_has_word (s : pystr) : solid s → split s ≠ [].
Proof.
  intros [(c & t & -> & Hc) _]. apply (split_nonempty _ c); [left | done].
Qed.

Lemma join_no_boundary (ws : list pystr) :
  Forall no_boundary ws → no_boundary (join space ws).
Proof.
  induction 1 as [|w ws Hw Hws IH]; [constructor|].
  destruct ws as [|w' ws']; [done|].
  change (join space (w :: w' :: ws'))
    with (w ++ space ++ join space (w' :: ws')).
  apply Forall_app. split; [done|]. apply Forall_app. split; [|done].
  by repeat constructor.
Qed.

Lemma groups_length (cfg : config) (cs sentences : list pystr) :
  (length (sentence_groups cfg cs sentences)
   ≤ length sentences + length (closed cs))%nat.
Proof.
  revert cs. induction sentences as [|s rest IH]; intros cs;
    cbn [sentence_groups]; [simpl; lia|].
  destruct (fits cfg (cs ++ [s])).
  - specialize (IH (cs ++ [s])). destruct cs; simpl in *; lia.
  - specialize (IH (restart_sentences cfg cs s)). rewrite length_app.
    unfold restart_sentences in *.
    destruct (_ && _); [destruct (last_n _ cs)|]; simpl in *; lia.
Qed.

(** Without an overlap the chunks of a page are its sentences, cut into
    consecutive runs. *)
Lemma groups_partition (cfg : config) (cs sentences : list pystr) :
  chunk_overlap cfg ≤ 0 →
  concat (sentence_groups cfg cs sentences) = cs ++ sentences.
Proof.
  intros Ho. revert cs. induction sentences as [|s rest IH]; intros cs;
    cbn [sentence_groups].
  - destruct cs; simpl; by rewrite ?app_nil_r.
  - destruct (fits cfg (cs ++ [s])).
    + rewrite IH. by rewrite <- app_assoc.
    + rewrite concat_app, IH, restart_sentences_no_overlap by done.
      destruct cs; simpl; [done|]. by rewrite app_nil_r.
Qed.

(** Every chunk is a run of consecutive sentences. *)
Lemma groups_contiguous (cfg : config) (pre cs sentences g : list pystr) :
  g ∈ sentence_groups cfg cs sentences →
  ∃ a b, pre ++ cs ++ sentences = a ++ g ++ b.
Proof.
  revert pre cs. induction sentences as [|s rest IH]; intros pre cs;
    cbn [sentence_groups].
  - intros [-> _]%closed_elem. exists pre, []. done.
  - destruct (fits cfg (cs ++ [s])).
    + intros H. destruct (IH pre _ H) as (a & b & E). exists a, b.
      rewrite <- E. by rewrite <- !app_assoc.
    + intros [[-> _]%closed_elem | H]%elem_of_app.
      * exists pre, (s :: rest). done.
      * unfold restart_sentences in H. destruct (_ && _).
        -- destruct (last_n_suffix (Z.to_nat (chunk_overlap cfg)) cs) as [k Ek].
           destruct (IH (pre ++ k) _ H) as (a & b & E). exists a, b.
           rewrite <- E. rewrite Ek at 1. by rewrite <- !app_assoc.
        -- destruct (IH (pre ++ cs) _ H) as (a & b & E). exists a, b.
           rewrite <- E. by rewrite <- !app_assoc.
Qed.

Lemma restart_sentences_length (cfg : config) (cs : list pystr) (s : pystr) :
  (length (restart_sentences cfg cs s) ≤ Z.to_nat (chunk_overlap cfg) + 1)%nat.
Proof.
  unfold restart_sentences. destruct (_ && _); simpl; [|lia].
  rewrite length_app, length_last_n. simpl. lia.
Qed.

Lemma calls_of_sentences (pn id : Z) (groups : list (list pystr)) :
  call_sentences <$> calls_of pn id groups = groups.
Proof.
  revert id. induction groups as [|g gs IH]; intros id; simpl; [done|].
  by rewrite IH.
Qed.

Lemma page_calls_groups (cfg : config) (pages : list page_data) (i : nat)
    (p : page_data) (calls : list chunk_call) :
  pages !! i = Some p →
  chunk_pages cfg 0 pages !! i = Some calls →
  call_sentences <$> calls
  = sentence_groups cfg [] (_split_into_sentences (text p)).
Proof.
  intros Hp Hcalls. destruct (chunk_pages_lookup cfg 0 pages i p Hp) as [id' E].
  rewrite E in Hcalls. injection Hcalls as <-. apply calls_of_sentences.
Qed.

End ChunkerMore.

(** The ids of the chunks of a document count up from 0 in the order of the
    result, across pages: chunk [i] has [chunk_id] and [chunk_index] [i]. *)
Theorem chunk_ids_sequential (cfg : DocumentProcessor.config)
    (d : DocumentProcessor.document_data) (i : nat)
    (ch : DocumentProcessor.chunk) :
  DocumentProcessor.split_text_into_chunks cfg d !! i = Some ch →
  DocumentProcessor.chunk_id ch = Z.of_nat i ∧
  DocumentProcessor.cm_chunk_index (DocumentProcessor.chunk_metadata_of ch)
    = Z.of_nat i.
Proof.
  unfold DocumentProcessor.split_text_into_chunks. rewrite list_lookup_fmap.
  destruct (concat _ !! i) as [c|] eqn:E; [|done].
  intros [= <-]. apply chunk_pages_ids in E. simpl. lia.
Qed.

Lemma chunk_ids_sequential_witness :
  DocumentProcessor.chunk_id
    (DocumentProcessor._create_chunk
       (DocumentProcessor.metadata Scenario.document) Scenario.call2) = 2 ∧
  DocumentProcessor.cm_chunk_index
    (DocumentProcessor.chunk_metadata_of
       (DocumentProcessor._create_chunk
          (DocumentProcessor.metadata Scenario.document) Scenario.call2)) = 2.
Proof.
  apply (chunk_ids_sequential Scenario.cfg Scenario.document 2). reflexivity.
Defined.

(** Every chunk of a document has a text that is not empty, is trimmed,
    holds none of [.], [!], [?], and has as many words as [word_count] says,
    at least one; it counts at least one sentence, and carries the source and
    the extraction method of the document and the number of one of its
    pages. *)
Theorem chunk_record_consistent (cfg : DocumentProcessor.config)
    (d : DocumentProcessor.document_data) :
  Forall (λ ch,
    let m := DocumentProcessor.chunk_metadata_of ch in
    DocumentProcessor.chunk_text ch ≠ [] ∧
    PyStr.strip (DocumentProcessor.chunk_text ch) = DocumentProcessor.chunk_text ch ∧
    ChunkerViews.no_boundary (DocumentProcessor.chunk_text ch) ∧
    DocumentProcessor.cm_word_count m
      = length (PyStr.split (DocumentProcessor.chunk_text ch)) ∧
    (1 ≤ DocumentProcessor.cm_word_count m)%nat ∧
    (1 ≤ DocumentProcessor.cm_sentence_count m)%nat ∧
    DocumentProcessor.cm_source m
      = DocumentProcessor.source (DocumentProcessor.metadata d) ∧
    DocumentProcessor.cm_extraction_method m
      = DocumentProcessor.extraction_method (DocumentProcessor.metadata d) ∧
    ∃ p, p ∈ DocumentProcessor.content d ∧
         DocumentProcessor.cm_page m = DocumentProcessor.page p)
    (DocumentProcessor.split_text_into_chunks cfg d).
Proof.
  apply Forall_forall. intros ch (i & p & calls & c & Hp & Hcalls & Hc & ->)%chunk_elem_inv.
  destruct (page_calls_spec _ _ _ _ _ _ Hp Hcalls Hc)
    as (Hne & Hsub & Ht & Hpn & Hstrip).
  assert (Hsolid : Forall ChunkerViews.solid (DocumentProcessor.call_sentences c)).
  { apply Forall_forall. intros s Hs.
    pose proof (sentences_solid (DocumentProcessor.text p)) as Hall.
    rewrite Forall_forall in Hall. by apply Hall, Hsub. }
  assert (Hjs : ChunkerViews.solid (DocumentProcessor.call_text c))
    by (rewrite Ht; by apply join_solid).
  simpl. rewrite Hstrip.
  split; [by apply solid_nonempty|]. split; [by rewrite Hstrip|].
  split.
  { rewrite Ht. apply join_no_boundary, Forall_forall. intros s Hs.
    by apply (sentence_spec (DocumentProcessor.text p)), Hsub. }
  split; [done|]. split.
  { apply solid_has_word in Hjs.
    destruct (PyStr.split (DocumentProcessor.call_text c)); simpl; [done | lia]. }
  split; [destruct (DocumentProcessor.call_sentences c); simpl; [done | lia]|].
  split; [done|]. split; [done|].
  exists p. split; [|done]. apply list_elem_of_lookup. eauto.
Qed.

(** A page gives no chunk exactly when it has no sentence, and never more
    chunks than sentences. *)
Theorem page_chunk_count (cfg : DocumentProcessor.config)
    (d : DocumentProcessor.document_data) (i : nat)
    (p : DocumentProcessor.page_data)
    (calls : list DocumentProcessor.chunk_call) :
  DocumentProcessor.content d !! i = Some p →
  DocumentProcessor.chunk_pages cfg 0 (DocumentProcessor.content d) !! i
    = Some calls →
  (calls = [] ↔
     DocumentProcessor._split_into_sentences (DocumentProcessor.text p) = []) ∧
  (length calls
   ≤ length (DocumentProcessor._split_into_sentences (DocumentProcessor.text p)))%nat.
Proof.
  intros Hp Hcalls.
  pose proof (page_calls_groups cfg _ i p calls Hp Hcalls) as E.
  pose proof (groups_length cfg []
                (DocumentProcessor._split_into_sentences (DocumentProcessor.text p)))
    as Hl.
  rewrite <- E, length_fmap in Hl. simpl in Hl. split; [|lia]. split.
  - intros ->. simpl in E.
    destruct (DocumentProcessor._split_into_sentences (DocumentProcessor.text p))
      as [|s ss] eqn:Es; [done|].
    destruct (groups_cover cfg [] (s :: ss) s) as (g & Hg & _); [right; left|].
    rewrite <- E in Hg. by apply elem_of_nil in Hg.
  - intros Hs. rewrite Hs in Hl. destruct calls; simpl in Hl; [done | lia].
Qed.

Lemma page_chunk_count_witness :
  ([Scenario.call0; Scenario.call1; Scenario.call2] = [] ↔
     DocumentProcessor._split_into_sentences
       (DocumentProcessor.text Scenario.the_page) = []) ∧
  (length [Scenario.call0; Scenario.call1; Scenario.call2]
   ≤ length (DocumentProcessor._split_into_sentences
               (DocumentProcessor.text Scenario.the_page)))%nat.
Proof.
  apply (page_chunk_count Scenario.cfg Scenario.document 0 Scenario.the_page).
  - reflexivity.
  - reflexivity.
Defined.

(** With [chunk_overlap <= 0] the chunks of a page hold its sentences once
    each and in order: their sentence lists, one after the other, are the
    list of the page's sentences. *)
Theorem no_overlap_partition (cfg : DocumentProcessor.config)
    (d : DocumentProcessor.document_data) (i : nat)
    (p : DocumentProcessor.page_data)
    (calls : list DocumentProcessor.chunk_call) :
  DocumentProcessor.chunk_overlap cfg ≤ 0 →
  DocumentProcessor.content d !! i = Some p →
  DocumentProcessor.chunk_pages cfg 0 (DocumentProcessor.content d) !! i
    = Some calls →
  concat (DocumentProcessor.call_sentences <$> calls)
  = DocumentProcessor._split_into_sentences (DocumentProcessor.text p).
Proof.
  intros Ho Hp Hcalls. rewrite (page_calls_groups cfg _ i p calls Hp Hcalls).
  by rewrite groups_partition.
Qed.

Lemma no_overlap_partition_witness :
  concat (DocumentProcessor.call_sentences
            <$> [Scenario.single0; Scenario.single1; Scenario.single2])
  = DocumentProcessor._split_into_sentences
      (DocumentProcessor.text Scenario.the_page).
Proof.
  apply (no_overlap_partition Scenario.cfg0 Scenario.document 0
           Scenario.the_page).
  - done.
  - reflexivity.
  - reflexivity.
Defined.

(** Whatever the overlap, the sentences of a chunk are consecutive sentences
    of its page, in the order of the page. *)
Theorem chunk_is_contiguous (cfg : DocumentProcessor.config)
    (d : DocumentProcessor.document_data) (i : nat)
    (p : DocumentProcessor.page_data)
    (calls : list DocumentProcessor.chunk_call)
    (c : DocumentProcessor.chunk_call) :
  DocumentProcessor.content d !! i = Some p →
  DocumentProcessor.chunk_pages cfg 0 (DocumentProcessor.content d) !! i
    = Some calls →
  c ∈ calls →
  ∃ before after,
    DocumentProcessor._split_into_sentences (DocumentProcessor.text p)
    = before ++ DocumentProcessor.call_sentences c ++ after.
Proof.
  intros Hp Hcalls Hc.
  pose proof (page_calls_groups cfg _ i p calls Hp Hcalls) as E.
  apply (groups_contiguous cfg [] []
           (DocumentProcessor._split_into_sentences (DocumentProcessor.text p))).
  rewrite <- E. by apply list_elem_of_fmap_2.
Qed.

Lemma chunk_is_contiguous_witness :
  ∃ before after,
    DocumentProcessor._split_into_sentences
      (DocumentProcessor.text Scenario.the_page)
    = before ++ DocumentProcessor.call_sentences Scenario.call2 ++ after.
Proof.
  apply (chunk_is_contiguous Scenario.cfg Scenario.document 0 Scenario.the_page
           [Scenario.call0; Scenario.call1; Scenario.call2]).
  - reflexivity.
  - reflexivity.
  - right. right. left.
Defined.

(** A chunk counts at most [chunk_size] words unless it holds no more than
    [max(chunk_overlap, 0) + 1] sentences: only the buffer a closed chunk
    leaves behind can be too long. *)
Theorem oversized_chunk_is_short (cfg : DocumentProcessor.config)
    (d : DocumentProcessor.document_data) :
  Forall (λ ch,
    let m := DocumentProcessor.chunk_metadata_of ch in
    Z.of_nat (DocumentProcessor.cm_word_count m)
      ≤ DocumentProcessor.chunk_size cfg ∨
    (DocumentProcessor.cm_sentence_count m
     ≤ Z.to_nat (DocumentProcessor.chunk_overlap cfg) + 1)%nat)
    (DocumentProcessor.split_text_into_chunks cfg d).
Proof.
  apply Forall_forall.
  intros ch (i & p & calls & c & Hp & Hcalls & Hc & ->)%chunk_elem_inv.
  destruct (chunk_within_size_or_restarted cfg _ (DocumentProcessor.metadata d)
              i calls c Hcalls Hc) as [H|(prev & s & H)]; [by left|].
  right. simpl. rewrite H. apply restart_sentences_length.
Qed.

(** ** Where the sentences come from *)
Section SentenceOrigin.
Import PyStr DocumentProcessor ChunkerViews.

Lemma occurs_in_cons (p t : pystr) (c : ascii) :
  occurs_in p t → occurs_in p (c :: t).
Proof. intros (pre & post & ->). by exists (c :: pre), post. Qed.

Lemma occurs_in_trans (a b c : pystr) :
  occurs_in a b → occurs_in b c → occurs_in a c.
Proof.
  intros (p1 & q1 & ->) (p2 & q2 & ->).
  exists (p2 ++ p1), (q1 ++ q2). by rewrite <- !app_assoc.
Qed.

Lemma strip_occurs (s : pystr) : occurs_in (strip s) s.
Proof.
  unfold strip. destruct (lstrip_suffix s) as [k1 E1].
  destruct (rstrip_prefix (lstrip s)) as [k2 E2].
  exists k1, k2. by rewrite <- E2.
Qed.

Lemma re_split_from_pieces (s : pystr) :
  (∀ b p, p ∈ re_split_from b s → occurs_in p s) ∧
  (∃ w ws, re_split_from false s = w :: ws ∧ w `prefix_of` s).
Proof.
  induction s as [|c t [IH1 (w & ws & IH2 & IH3)]].
  - split.
    + intros b p ->%list_elem_of_singleton. by exists [], [].
    + exists [], []. split; [done | apply prefix_nil].
  - simpl. destruct (is_boundary c).
    + split.
      * intros [] p.
        -- intros H. by apply occurs_in_cons, (IH1 true).
        -- intros [->|H]%elem_of_cons; [by exists [], (c :: t)|].
           by apply occurs_in_cons, (IH1 true).
      * eexists [], _. split; [done | apply prefix_nil].
    + rewrite IH2. simpl. split.
      * intros b p [->|H]%elem_of_cons.
        -- destruct IH3 as [k ->]. by exists [], k.
        -- apply occurs_in_cons, (IH1 false). rewrite IH2. by right.
      * exists (c :: w), ws. split; [done | by apply prefix_cons].
Qed.

End SentenceOrigin.

(** Every sentence [_split_into_sentences] returns stands in the text as it
    is, character for character; a text of at most ten characters has no
    sentence. *)
Theorem sentence_occurs_in_text (text s : pystr) :
  s ∈ DocumentProcessor._split_into_sentences text →
  ChunkerViews.occurs_in s text ∧ (10 < length text)%nat.
Proof.
  intros Hs. pose proof Hs as (p & Hp & -> & _ & Hlen)%clean_sentences_spec.
  assert (Ho : ChunkerViews.occurs_in (PyStr.strip p) text).
  { apply (occurs_in_trans _ p); [apply strip_occurs|].
    by apply (proj1 (re_split_from_pieces text) false). }
  split; [done|]. destruct Ho as (pre & post & ->).
  rewrite !length_app. lia.
Qed.

Lemma sentence_occurs_in_text_witness :
  ChunkerViews.occurs_in Scenario.s2 Scenario.page_text ∧
  (10 < length Scenario.page_text)%nat.
Proof.
  apply (sentence_occurs_in_text Scenario.page_text Scenario.s2).
  apply list_elem_of_lookup. exists 1%nat. reflexivity.
Defined.

(** * Further properties of the embedding service *)
Section Words.
Import PyStr EmbeddingService EmbedderViews.

Lemma split_words (s : pystr) : Forall word (split s).
Proof.
  induction s as [|c t IH]; simpl; [constructor|].
  destruct (is_space c) eqn:Ec; [done|].
  destruct t as [|d t']; [by repeat constructor|].
  destruct (is_space d) eqn:Ed.
  - constructor; [by repeat constructor | done].
  - destruct (split (d :: t')) as [|w ws]; [by repeat constructor|].
    apply Forall_cons in IH as [[Hw1 Hw2] Hws]. simpl.
    constructor; [|done]. split; [done | by constructor].
Qed.

Lemma split_word (w : pystr) : word w → split w = [w].
Proof.
  intros [Hne Hall]. induction Hall as [|x t Hx Ht IH]; [done|].
  simpl. rewrite Hx. destruct Ht as [|y t' Hy Ht']; [done|].
  rewrite Hy. by rewrite IH.
Qed.

Lemma split_word_sep (w : pystr) (c : ascii) (t : pystr) :
  word w → is_space c = true → split (w ++ c :: t) = w :: split t.
Proof.
  intros [Hne Hall] Hc. induction Hall as [|x r Hx Hr IH]; [done|].
  cbn [app split]. rewrite Hx. destruct Hr as [|y r' Hy Hr'].
  - cbn [app]. rewrite Hc. simpl. by rewrite Hc.
  - cbn [app]. rewrite Hy. cbn [app] in IH. by rewrite IH.
Qed.

Lemma split_join (ws : list pystr) :
  Forall word ws → split (join space ws) = ws.
Proof.
  induction 1 as [|w ws Hw Hws IH]; [done|].
  destruct ws as [|w' ws']; [by apply split_word|].
  change (join space (w :: w' :: ws'))
    with (w ++ " "%char :: join space (w' :: ws')).
  rewrite split_word_sep by done. by rewrite IH.
Qed.

Lemma join_words_nil (ws : list pystr) :
  Forall word ws → join space ws = [] → ws = [].
Proof.
  intros Hall E. apply (f_equal split) in E. by rewrite split_join in E.
Qed.

Lemma split_nil_whitespace (s : pystr) :
  split s = [] → Forall (λ c, is_space c = true) s.
Proof.
  induction s as [|c t IH]; [constructor|]. simpl.
  destruct (is_space c) eqn:Ec; [by constructor; auto|].
  destruct t as [|d t']; [done|]. destruct (is_space d); [done|].
  by destruct (split (d :: t')).
Qed.

Lemma clean_str_normal (s : pystr) :
  clean_str s = join space (take max_tokens (split s)).
Proof.
  unfold clean_str. destruct s as [|c t]; [done|]. cbn [truthy negb].
  rewrite split_join by apply split_words.
  destruct (max_tokens <? length (split (c :: t)))%nat eqn:E; [done|].
  apply Nat.ltb_ge in E. by rewrite take_ge.
Qed.

End Words.

(** [_clean_text] of a string gives its first 8000 words joined by single
    spaces: the result has these words and no others, cleaning it again
    changes nothing, and it is empty exactly when the string holds nothing
    but whitespace. *)
Theorem clean_text_normal_form (s : pystr) :
  EmbeddingService._clean_text (EmbeddingService.Str s)
    = Ok (PyStr.join PyStr.space
            (take EmbeddingService.max_tokens (PyStr.split s))) ∧
  PyStr.split (EmbedderViews.clean_str s)
    = take EmbeddingService.max_tokens (PyStr.split s) ∧
  (length (PyStr.split (EmbedderViews.clean_str s))
   ≤ EmbeddingService.max_tokens)%nat ∧
  EmbedderViews.clean_str (EmbedderViews.clean_str s) = EmbedderViews.clean_str s ∧
  (EmbedderViews.clean_str s = [] ↔ Forall (λ c, PyStr.is_space c = true) s).
Proof.
  assert (Hw : Forall EmbedderViews.word
                 (take EmbeddingService.max_tokens (PyStr.split s)))
    by apply Forall_take, split_words.
  assert (E : PyStr.split (EmbedderViews.clean_str s)
              = take EmbeddingService.max_tokens (PyStr.split s))
    by (by rewrite clean_str_normal, split_join).
  split; [by rewrite clean_text_str, clean_str_normal|].
  split; [done|]. split; [rewrite E, length_take; lia|]. split.
  - rewrite (clean_str_normal (EmbedderViews.clean_str s)), E, take_take.
    rewrite Nat.min_id. by rewrite <- clean_str_normal.
  - split; [|apply clean_str_whitespace].
    rewrite clean_str_normal. intros H%join_words_nil; [|done].
    apply split_nil_whitespace.
    destruct (PyStr.split s) as [|w ws]; [done|]. discriminate H.
Qed.

Section BatchMore.
Import PyStr EmbeddingService EmbedderViews.
Context {W : Type}.
Variable create : W → string → embed_input → outcome (list vector) * W.
Variable svc : service.

Lemma fill_short (zero : vector) (cleaned : list pystr) (data : list vector) :
  (length data < length (filter (λ s, truthy s = true) cleaned))%nat →
  fill zero cleaned data = Raise StopIteration.
Proof.
  revert data. induction cleaned as [|c rest IH]; intros data; simpl; [lia|].
  destruct (truthy c) eqn:Ec.
  - rewrite filter_cons_True by done. destruct data as [|d data']; [done|].
    simpl. intros H. rewrite IH by lia. done.
  - rewrite filter_cons_False by (by rewrite Ec). intros H. by rewrite IH.
Qed.

Lemma fill_pointwise (zero : vector) (f : pystr → vector) (cleaned : list pystr) :
  fill zero cleaned (f <$> filter (λ s, truthy s = true) cleaned)
  = Ok ((λ c, if truthy c then f c else zero) <$> cleaned).
Proof.
  induction cleaned as [|c rest IH]; [done|]. cbn [fill].
  rewrite fmap_cons. destruct (truthy c) eqn:Ec.
  - rewrite filter_cons_True by done. rewrite fmap_cons. by rewrite IH.
  - rewrite filter_cons_False by (by rewrite Ec). by rewrite IH.
Qed.

Lemma no_valid_zeros (zero : vector) (f : pystr → vector) (cleaned : list pystr) :
  filter (λ s, truthy s = true) cleaned = [] →
  (λ c, if truthy c then f c else zero) <$> cleaned
  = repeat zero (length cleaned).
Proof.
  induction cleaned as [|c rest IH]; [done|]. rewrite fmap_cons.
  destruct (truthy c) eqn:Ec.
  - by rewrite filter_cons_True.
  - rewrite filter_cons_False by (by rewrite Ec). intros H. simpl.
    by rewrite IH.
Qed.

Lemma clean_texts_truthy (texts : list pytext) :
  Truthy ∈ texts → ∃ e, clean_texts texts = Raise e.
Proof.
  induction texts as [|t rest IH]; [by intros ?%elem_of_nil|].
  intros [<-|Hin]%elem_of_cons; simpl; [eauto|].
  destruct (_clean_text t); [|eauto]. destruct (IH Hin) as [e ->]. eauto.
Qed.

(** A batch sends at most one request. *)
Lemma process_batch_request_count (texts : list pytext) (cl : client) :
  ∃ new, requests (_process_batch create svc texts cl).2 = requests cl ++ new ∧
         (length new ≤ 1)%nat.
Proof.
  assert (Hnone : ∀ out : list vector,
            ∃ new, requests (out, cl).2 = requests cl ++ new ∧ (length new ≤ 1)%nat).
  { intros out. exists []. rewrite app_nil_r. split; [done | simpl; lia]. }
  unfold _process_batch.
  destruct (clean_texts texts) as [cleaned|e]; [|apply Hnone].
  destruct (collect_valid 0 cleaned) as [vt vi].
  destruct vt as [|v vt]; [apply Hnone|].
  unfold embeddings_create. destruct (create _ _ _) as [[data|e] w].
  - destruct (reconstruct _ _ _ _); eexists [_]; split; done.
  - eexists [_]; split; done.
Qed.

Lemma by_batches_request_count (bs m : nat) (texts : list pytext) (cl : client) :
  ∃ new,
    requests (by_batches create svc bs m texts cl).2 = requests cl ++ new ∧
    (length new ≤ m)%nat.
Proof.
  revert texts cl. induction m as [|m IH]; intros texts cl.
  - exists []. rewrite app_nil_r. split; [done | simpl; lia].
  - cbn [by_batches].
    destruct (process_batch_request_count (take bs texts) cl) as (n1 & E1 & L1).
    destruct (_process_batch _ _ _ _) as [out cl1]. simpl in E1.
    destruct (IH (drop bs texts) cl1) as (n2 & E2 & L2).
    destruct (by_batches _ _ _ _ _ _) as [outs cl2]. simpl in E2. simpl.
    exists (n1 ++ n2). rewrite E2, E1, <- app_assoc. split; [done|].
    rewrite length_app. lia.
Qed.

Lemma zeros_app (n m : nat) : zeros svc n ++ zeros svc m = zeros svc (n + m).
Proof. unfold zeros. by rewrite repeat_app. Qed.

Lemma by_batches_down (bs m : nat) (ts : list pystr) (cl : client) :
  (∀ w model input, ∃ e w', create w model input = (Raise e, w')) →
  (by_batches create svc bs m (Str <$> ts) cl).1
  = zeros svc (length ts `min` (m * bs)).
Proof.
  intros Hdown. revert ts cl. induction m as [|m IH]; intros ts cl;
    [simpl; by rewrite Nat.min_0_r|].
  cbn [by_batches]. rewrite <- fmap_take, <- fmap_drop.
  assert (H1 : (_process_batch create svc (Str <$> take bs ts) cl).1
               = zeros svc (length (take bs ts))).
  { destruct (Hdown (world cl) (model svc)
                (InputList (valid_texts (take bs ts)))) as (e & w & H).
    by eapply process_batch_failure. }
  destruct (_process_batch _ _ _ _) as [out cl1]. simpl in H1.
  specialize (IH (drop bs ts) cl1).
  destruct (by_batches _ _ _ _ _ _) as [outs cl2]. simpl in IH. simpl.
  rewrite H1, IH, zeros_app, length_take, length_drop. f_equal. lia.
Qed.

Lemma process_batch_pointwise (f : pystr → vector) (ts : list pystr)
    (cl : client) :
  (∀ w model l, (create w model (InputList l)).1 = Ok (f <$> l)) →
  (_process_batch create svc (Str <$> ts) cl).1 = embedding_of svc f <$> ts.
Proof.
  intros Hf. rewrite process_batch_str.
  assert (Hmap : (λ c, if truthy c then f c else zero_vector svc)
                   <$> (clean_str <$> ts) = embedding_of svc f <$> ts)
    by (by rewrite <- list_fmap_compose).
  destruct (valid_texts ts) as [|v l] eqn:Ev.
  - rewrite <- Hmap. unfold valid_texts in Ev.
    rewrite (no_valid_zeros _ _ _ Ev). by rewrite length_fmap.
  - unfold embeddings_create. specialize (Hf (world cl) (model svc) (v :: l)).
    destruct (create _ _ _) as [r w]. cbn [fst] in Hf. subst r. rewrite <- Ev.
    unfold valid_texts. by rewrite fill_pointwise.
Qed.

Lemma take_then_take {A} (n m : nat) (l : list A) :
  take n l ++ take m (drop n l) = take (n + m) l.
Proof.
  revert l. induction n as [|n IH]; intros l; [done|].
  destruct l as [|x l]; simpl; [by destruct m | by rewrite IH].
Qed.

Lemma by_batches_pointwise (f : pystr → vector) (bs m : nat) (ts : list pystr)
    (cl : client) :
  (∀ w model l, (create w model (InputList l)).1 = Ok (f <$> l)) →
  (by_batches create svc bs m (Str <$> ts) cl).1
  = embedding_of svc f <$> take (m * bs) ts.
Proof.
  intros Hf. revert ts cl. induction m as [|m IH]; intros ts cl; [done|].
  cbn [by_batches]. rewrite <- fmap_take, <- fmap_drop.
  pose proof (process_batch_pointwise f (take bs ts) cl Hf) as H1.
  destruct (_process_batch _ _ _ _) as [out cl1]. simpl in H1.
  specialize (IH (drop bs ts) cl1).
  destruct (by_batches _ _ _ _ _ _) as [outs cl2]. simpl in IH. simpl.
  rewrite H1, IH, <- fmap_app. f_equal. apply take_then_take.
Qed.

End BatchMore.

(** When the provider answers a batch with fewer vectors than it was sent
    texts, the whole batch becomes zero vectors, each of [embedding_dimension]
    components [0.0], the vectors it did answer with included. *)
Theorem short_answer_zeroes_batch {W : Type}
    (create : W → string → EmbeddingService.embed_input
              → outcome (list EmbeddingService.vector) * W)
    (svc : EmbeddingService.service) (texts : list pystr)
    (cl : EmbeddingService.client) (data : list EmbeddingService.vector) (w : W) :
  create (EmbeddingService.world cl) (EmbeddingService.model svc)
    (EmbeddingService.InputList (EmbedderViews.valid_texts texts)) = (Ok data, w) →
  (length data < length (EmbedderViews.valid_texts texts))%nat →
  (EmbeddingService._process_batch create svc
     (EmbeddingService.Str <$> texts) cl).1
  = repeat (repeat 0%float (EmbeddingService.embedding_dimension svc))
      (length texts).
Proof.
  intros H Hlen.
  change (repeat (repeat 0%float (EmbeddingService.embedding_dimension svc)) (length texts))
    with (EmbedderViews.zeros svc (length texts)).
  rewrite process_batch_str.
  destruct (EmbedderViews.valid_texts texts) as [|v l] eqn:Ev; [done|].
  unfold EmbeddingService.embeddings_create. rewrite H.
  rewrite fill_short; [done|]. unfold EmbedderViews.valid_texts in Ev.
  by rewrite Ev.
Qed.

Lemma short_answer_zeroes_batch_witness :
  (EmbeddingService._process_batch EmbedderViews.stingy EmbedderViews.small
     (EmbeddingService.Str <$> [PyStr.of_string "alpha"; PyStr.of_string "beta"])
     {| EmbeddingService.world := tt; EmbeddingService.requests := [] |}).1
  = EmbedderViews.zeros EmbedderViews.small 2.
Proof.
  apply (short_answer_zeroes_batch EmbedderViews.stingy EmbedderViews.small
           [PyStr.of_string "alpha"; PyStr.of_string "beta"]
           {| EmbeddingService.world := tt; EmbeddingService.requests := [] |}
           [] tt).
  - reflexivity.
  - vm_compute. lia.
Defined.

(** A text that is no [str] and is not falsy makes [_clean_text] fail inside
    the batch: the whole batch becomes zero vectors, each of
    [embedding_dimension] components [0.0], and no request is sent, whatever
    the other texts are. *)
Theorem non_str_text_zeroes_batch {W : Type}
    (create : W → string → EmbeddingService.embed_input
              → outcome (list EmbeddingService.vector) * W)
    (svc : EmbeddingService.service) (texts : list EmbeddingService.pytext)
    (cl : EmbeddingService.client) :
  EmbeddingService.Truthy ∈ texts →
  EmbeddingService._process_batch create svc texts cl
  = (repeat (repeat 0%float (EmbeddingService.embedding_dimension svc))
       (length texts), cl).
Proof.
  intros H.
  change (repeat (repeat 0%float (EmbeddingService.embedding_dimension svc)) (length texts))
    with (EmbedderViews.zeros svc (length texts)).
  unfold EmbeddingService._process_batch.
  by destruct (clean_texts_truthy texts H) as [e ->].
Qed.

Lemma non_str_text_zeroes_batch_witness :
  EmbeddingService._process_batch (EmbedderViews.failing_at 7)
    EmbedderViews.small
    [EmbeddingService.Str (PyStr.of_string "alpha"); EmbeddingService.Truthy]
    EmbedderViews.fresh_client
  = (EmbedderViews.zeros EmbedderViews.small 2, EmbedderViews.fresh_client).
Proof.
  apply (non_str_text_zeroes_batch (EmbedderViews.failing_at 7)
           EmbedderViews.small
           [EmbeddingService.Str (PyStr.of_string "alpha"); EmbeddingService.Truthy]).
  right. left.
Defined.

(** [generate_embeddings_batch] sends at most one request per batch, that is
    at most [ceil(len(texts) / batch_size)] requests, whatever the texts
    are. *)
Theorem requests_at_most_batches {W : Type}
    (create : W → string → EmbeddingService.embed_input
              → outcome (list EmbeddingService.vector) * W)
    (svc : EmbeddingService.service) (texts : list EmbeddingService.pytext)
    (batch_size : Z) (cl : EmbeddingService.client) :
  0 < batch_size →
  ∃ new,
    EmbeddingService.requests
      (EmbeddingService.generate_embeddings_batch create svc texts batch_size cl).2
    = EmbeddingService.requests cl ++ new ∧
    (length new
     ≤ (length texts + Z.to_nat batch_size - 1) / Z.to_nat batch_size)%nat.
Proof.
  intros H. rewrite generate_by_batches by done.
  destruct (by_batches_request_count create svc (Z.to_nat batch_size)
              (EmbedderViews.batches (length texts) (Z.to_nat batch_size))
              texts cl) as (new & E & L).
  destruct (EmbedderViews.by_batches _ _ _ _ _ _) as [out cl'].
  exists new. split; [done|]. exact L.
Qed.

Lemma requests_at_most_batches_witness :
  ∃ new,
    EmbeddingService.requests
      (EmbeddingService.generate_embeddings_batch (EmbedderViews.failing_at 1)
         EmbedderViews.small (EmbeddingService.Str <$> EmbedderViews.five_texts)
         2 EmbedderViews.fresh_client).2
    = EmbeddingService.requests EmbedderViews.fresh_client ++ new ∧
    (length new ≤ (length (EmbeddingService.Str <$> EmbedderViews.five_texts)
                   + Z.to_nat 2 - 1) / Z.to_nat 2)%nat.
Proof.
  apply (requests_at_most_batches (EmbedderViews.failing_at 1)
           EmbedderViews.small (EmbeddingService.Str <$> EmbedderViews.five_texts)
           2 EmbedderViews.fresh_client).
  lia.
Defined.

(** When every request to the provider fails, [generate_embeddings_batch]
    still returns: one zero vector per text, each of [embedding_dimension]
    components [0.0], and no exception. *)
Theorem provider_down_gives_zeros {W : Type}
    (create : W → string → EmbeddingService.embed_input
              → outcome (list EmbeddingService.vector) * W)
    (svc : EmbeddingService.service) (texts : list pystr) (batch_size : Z)
    (cl : EmbeddingService.client) :
  (∀ w model input, ∃ e w', create w model input = (Raise e, w')) →
  0 < batch_size →
  (EmbeddingService.generate_embeddings_batch create svc
     (EmbeddingService.Str <$> texts) batch_size cl).1
  = Ok (repeat (repeat 0%float (EmbeddingService.embedding_dimension svc))
          (length texts)).
Proof.
  intros Hdown H.
  change (repeat (repeat 0%float (EmbeddingService.embedding_dimension svc)) (length texts))
    with (EmbedderViews.zeros svc (length texts)).
  rewrite generate_by_batches by done. rewrite length_fmap.
  pose proof (by_batches_down create svc (Z.to_nat batch_size)
                (EmbedderViews.batches (length texts) (Z.to_nat batch_size))
                texts cl Hdown) as E.
  destruct (EmbedderViews.by_batches _ _ _ _ _ _) as [out cl']. simpl in *.
  rewrite E. do 2 f_equal.
  pose proof (batches_cover (length texts) (Z.to_nat batch_size)). lia.
Qed.

Lemma provider_down_gives_zeros_witness :
  (EmbeddingService.generate_embeddings_batch EmbedderViews.failing
     EmbedderViews.small (EmbeddingService.Str <$> EmbedderViews.five_texts) 2
     {| EmbeddingService.world := tt; EmbeddingService.requests := [] |}).1
  = Ok (EmbedderViews.zeros EmbedderViews.small
          (length EmbedderViews.five_texts)).
Proof.
  apply (provider_down_gives_zeros EmbedderViews.failing EmbedderViews.small
           EmbedderViews.five_texts 2).
  - intros w model input. by eexists _, _.
  - lia.
Defined.

(** With a provider that answers every list request with the vector [f s] for
    each text [s] of the request, in order, the result is text by text: a zero
    vector for a text that cleans to the empty string and [f] of the cleaned
    text otherwise.  So the result is the same for every positive
    [batch_size]. *)
Theorem pointwise_provider_result {W : Type}
    (create : W → string → EmbeddingService.embed_input
              → outcome (list EmbeddingService.vector) * W)
    (svc : EmbeddingService.service) (f : pystr → EmbeddingService.vector)
    (texts : list pystr) (batch_size : Z) (cl : EmbeddingService.client) :
  (∀ w model l,
     (create w model (EmbeddingService.InputList l)).1 = Ok (f <$> l)) →
  0 < batch_size →
  (EmbeddingService.generate_embeddings_batch create svc
     (EmbeddingService.Str <$> texts) batch_size cl).1
  = Ok (EmbedderViews.embedding_of svc f <$> texts).
Proof.
  intros Hf H. rewrite generate_by_batches by done. rewrite length_fmap.
  pose proof (by_batches_pointwise create svc f (Z.to_nat batch_size)
                (EmbedderViews.batches (length texts) (Z.to_nat batch_size))
                texts cl Hf) as E.
  destruct (EmbedderViews.by_batches _ _ _ _ _ _) as [out cl']. simpl in *.
  rewrite E. do 2 f_equal. apply take_ge.
  pose proof (batches_cover (length texts) (Z.to_nat batch_size)). lia.
Qed.

Lemma pointwise_provider_result_witness :
  (EmbeddingService.generate_embeddings_batch
     (EmbedderViews.answering EmbedderViews.ones) EmbedderViews.small
     (EmbeddingService.Str <$> EmbedderViews.five_texts) 3
     {| EmbeddingService.world := tt; EmbeddingService.requests := [] |}).1
  = Ok (EmbedderViews.embedding_of EmbedderViews.small EmbedderViews.ones
          <$> EmbedderViews.five_texts).
Proof.
  apply (pointwise_provider_result (EmbedderViews.answering EmbedderViews.ones)
           EmbedderViews.small EmbedderViews.ones EmbedderViews.five_texts 3).
  - intros w model l. reflexivity.
  - lia.
Defined.

(** * Text extraction *)
Section Extraction.
Import PyStr DocumentProcessor PdfExtraction.





End Extraction.



(** [extract_text_from_bytes] raises only when both readers fail to open the
    PDF, and then a [ValueError]; a page that cannot be read never makes it
    raise. *)
Theorem extraction_raises_iff
    (open_pdfplumber open_pypdf2 : pystr → outcome (list PdfExtraction.page_result))
    (pdf_bytes filename : pystr) :
  match PdfExtraction.extract_text_from_bytes open_pdfplumber open_pypdf2
          pdf_bytes filename with
  | Ok _ =>
      (∃ pages, open_pdfplumber pdf_bytes = Ok pages)
      ∨ (∃ pages, open_pypdf2 pdf_bytes = Ok pages)
  | Raise e =>
      (∃ msg, e = ValueError msg) ∧
      (∃ e1, open_pdfplumber pdf_bytes = Raise e1) ∧
      (∃ e2, open_pypdf2 pdf_bytes = Raise e2)
  end.
Proof.
  unfold PdfExtraction.extract_text_from_bytes,
    PdfExtraction._extract_bytes_with_pdfplumber,
    PdfExtraction._extract_bytes_with_pypdf2, PdfExtraction.extract_with.
  destruct (open_pdfplumber pdf_bytes) as [p1|e1]; [eauto|].
  destruct (open_pypdf2 pdf_bytes) as [p2|e2]; eauto 10.
Qed.

Section PageOrder.
Import PyStr DocumentProcessor ChunkerViews.
Variable cfg : config.

Lemma chunk_pages_cons (id : Z) (p : page_data) (rest : list page_data) :
  chunk_pages cfg id (p :: rest) =
  let groups := sentence_groups cfg [] (_split_into_sentences (text p)) in
  calls_of (page p) id groups
  :: chunk_pages cfg (id + Z.of_nat (length groups)) rest.
Proof.
  cbn [chunk_pages]. unfold chunk_page.
  pose proof (chunk_sentences_groups cfg (page p) id []
                (_split_into_sentences (text p))) as E.
  simpl join in E. by rewrite E by (try apply sentences_solid; constructor).
Qed.

Lemma calls_of_page (pn id : Z) (groups : list (list pystr)) (c : chunk_call) :
  c ∈ calls_of pn id groups → call_page c = pn.
Proof.
  intros [j Hj]%list_elem_of_lookup.
  by apply calls_of_lookup in Hj as (g & _ & _ & _ & ? & _).
Qed.

Lemma chunk_pages_call_page (id : Z) (pages : list page_data) (c : chunk_call) :
  c ∈ concat (chunk_pages cfg id pages) →
  ∃ p, p ∈ pages ∧ call_page c = page p.
Proof.
  revert id. induction pages as [|p rest IH]; intros id;
    [by intros ?%elem_of_nil|].
  rewrite chunk_pages_cons. cbn [concat].
  intros [H|H]%elem_of_app.
  - exists p. split; [left | by eapply calls_of_page].
  - destruct (IH _ H) as (q & Hq & E). exists q. split; [by right | done].
Qed.

Lemma chunk_pages_page_order (id : Z) (pages : list page_data) (i j : nat)
    (a b : chunk_call) :
  StronglySorted Z.lt (page <$> pages) →
  (i < j)%nat →
  concat (chunk_pages cfg id pages) !! i = Some a →
  concat (chunk_pages cfg id pages) !! j = Some b →
  call_page a ≤ call_page b.
Proof.
  intros Hs. revert id i j.
  induction pages as [|p rest IH]; intros id i j Hij; [done|].
  rewrite fmap_cons in Hs. apply StronglySorted_inv in Hs as [Hs Hall].
  rewrite chunk_pages_cons. cbn [concat].
  set (calls := calls_of (page p) id _).
  set (later := concat _).
  intros Ha Hb.
  destruct (decide (j < length calls)%nat) as [Hj|Hj].
  - rewrite lookup_app_l in Ha, Hb by lia.
    assert (call_page a = page p)
      by (eapply calls_of_page, list_elem_of_lookup; eauto).
    assert (call_page b = page p)
      by (eapply calls_of_page, list_elem_of_lookup; eauto).
    lia.
  - rewrite lookup_app_r in Hb by lia.
    assert (Hbp : ∃ q, q ∈ rest ∧ call_page b = page q).
    { eapply chunk_pages_call_page, list_elem_of_lookup. eauto. }
    destruct Hbp as (q & Hq & Eb).
    destruct (decide (i < length calls)%nat) as [Hi|Hi].
    + rewrite lookup_app_l in Ha by lia.
      assert (call_page a = page p)
        by (eapply calls_of_page, list_elem_of_lookup; eauto).
      rewrite Forall_forall in Hall.
      specialize (Hall (page q) (list_elem_of_fmap_2 _ _ _ Hq)). lia.
    + rewrite lookup_app_r in Ha by lia.
      eapply (IH Hs _ (i - length calls)%nat (j - length calls)%nat);
        [lia | exact Ha | exact Hb].
Qed.

End PageOrder.

(** For a document whose pages are listed in increasing order of page number,
    as the extraction lists them, the chunks come in the order of the pages:
    a later chunk never belongs to an earlier page. *)
Theorem chunks_ordered_by_page (cfg : DocumentProcessor.config)
    (d : DocumentProcessor.document_data) (i j : nat)
    (a b : DocumentProcessor.chunk) :
  StronglySorted Z.lt (DocumentProcessor.page <$> DocumentProcessor.content d) →
  (i < j)%nat →
  DocumentProcessor.split_text_into_chunks cfg d !! i = Some a →
  DocumentProcessor.split_text_into_chunks cfg d !! j = Some b →
  DocumentProcessor.cm_page (DocumentProcessor.chunk_metadata_of a)
  ≤ DocumentProcessor.cm_page (DocumentProcessor.chunk_metadata_of b).
Proof.
  intros Hs Hij. unfold DocumentProcessor.split_text_into_chunks.
  rewrite !list_lookup_fmap.
  destruct (concat _ !! i) as [ca|] eqn:Ea; [|done].
  destruct (concat _ !! j) as [cb|] eqn:Eb; [|done].
  intros [= <-] [= <-]. simpl.
  by eapply (chunk_pages_page_order cfg 0 _ i j).
Qed.

Lemma chunks_ordered_by_page_witness :
  DocumentProcessor.cm_page
    (DocumentProcessor.chunk_metadata_of
       (DocumentProcessor._create_chunk
          (DocumentProcessor.metadata Scenario.document) Scenario.call0))
  ≤ DocumentProcessor.cm_page
      (DocumentProcessor.chunk_metadata_of
         (DocumentProcessor._create_chunk
            (DocumentProcessor.metadata Scenario.document) Scenario.call2)).
Proof.
  apply (chunks_ordered_by_page Scenario.cfg Scenario.document 0 2).
  - repeat constructor.
  - lia.
  - reflexivity.
  - reflexivity.
Defined.

(** * The client and the vector store *)
Section BaseUrl.
Import PyStr EndeeClient.

Lemma rstrip_slash_snoc (u : pystr) : rstrip_slash (u ++ ["/"%char]) = rstrip_slash u.
Proof.
  induction u as [|c t IH]; [done|]. cbn [app rstrip_slash]. by rewrite IH.
Qed.

Lemma rstrip_slash_slashes (u : pystr) (n : nat) :
  rstrip_slash (u ++ repeat "/"%char n) = rstrip_slash u.
Proof.
  revert u. induction n as [|n IH]; intros u; simpl; [by rewrite app_nil_r|].
  rewrite (cons_middle "/"%char), app_assoc, IH. apply rstrip_slash_snoc.
Qed.

Lemma rstrip_slash_last (u : pystr) :
  last (rstrip_slash u) ≠ Some "/"%char.
Proof.
  induction u as [|c t IH]; [done|]. simpl.
  destruct (rstrip_slash t) as [|d r] eqn:E.
  - destruct (Ascii.eqb c "/") eqn:Ec; [done|]. simpl.
    apply Ascii.eqb_neq in Ec. congruence.
  - done.
Qed.

End BaseUrl.

(** Slashes at the end of the configured URL make no difference to the
    [base_url] of the client, and what stands before [/api/v1] in it never
    ends with a slash. *)
Theorem base_url_trailing_slashes (url : pystr) (n : nat) :
  EndeeClient.base_url (url ++ repeat "/"%char n) = EndeeClient.base_url url ∧
  ∃ stem, EndeeClient.base_url url = stem ++ PyStr.of_string "/api/v1" ∧
          last stem ≠ Some "/"%char.
Proof.
  unfold EndeeClient.base_url. rewrite rstrip_slash_slashes. split; [done|].
  eexists. split; [done|]. apply rstrip_slash_last.
Qed.

(** [VectorStore.initialize] returns [True] exactly when the health probe is
    answered with 200 and the creation with 200, 201 or 409; it then sets
    [initialized].  When it returns [False] the vector store object is as it
    was, so a store that was initialized stays so; the collection name never
    changes; and when the probe fails nothing more is sent. *)
Theorem vector_store_initialize_spec {S : Type}
    (send : S → Endee.request → Endee.http_result * S)
    (vs : Endee.vector_store) (dim : Z) (s : S) :
  match Endee.initialize send vs dim s with
  | (ok, vs', s') =>
      Endee.collection_name vs' = Endee.collection_name vs ∧
      (Endee.initialized vs = true → Endee.initialized vs' = true) ∧
      (ok = true → Endee.initialized vs' = true) ∧
      (ok = false → vs' = vs) ∧
      (ok = true ↔
         ∃ b1 s1 code b2,
           send s Endee.GetHealth = (Endee.Response 200 b1, s1) ∧
           send s1 (Endee.PostCollections (Endee.collection_name vs) dim "cosine")
             = (Endee.Response code b2, s') ∧
           (code = 200 ∨ code = 201 ∨ code = 409)) ∧
      ((Endee.health_check_sync send s).1 = false →
       s' = (send s Endee.GetHealth).2)
  end.
Proof.
  unfold Endee.initialize, Endee.health_check_sync, Endee.create_collection_sync.
  destruct (send s Endee.GetHealth) as [[code1 b1|] s1] eqn:E1; simpl.
  2:{ split; [done|]. split; [done|]. split; [done|]. split; [done|].
      split; [|done]. split; [done|].
      intros (? & ? & ? & ? & H & _). discriminate H. }
  destruct (code1 =? 200) eqn:Ec1; simpl.
  2:{ split; [done|]. split; [done|]. split; [done|]. split; [done|].
      split; [|done]. split; [done|].
      intros (? & ? & ? & ? & H & _). inversion H; subst. discriminate Ec1. }
  apply Z.eqb_eq in Ec1 as ->.
  destruct (send s1 _) as [[code b2|] s2] eqn:E2; simpl.
  2:{ split; [done|]. split; [done|]. split; [done|]. split; [done|].
      split; [|done]. split; [done|].
      intros (? & ? & ? & ? & H0 & H & _). inversion H0; subst.
      rewrite E2 in H. discriminate H. }
  assert (Hiff : ∀ ok : bool,
            (ok = true ↔ (code = 200 ∨ code = 201 ∨ code = 409)) →
            ok = true ↔
            ∃ b0 s0 code0 b3,
              (Endee.Response 200 b1, s1) = (Endee.Response 200 b0, s0) ∧
              send s0 (Endee.PostCollections (Endee.collection_name vs) dim "cosine")
                = (Endee.Response code0 b3, s2) ∧
              (code0 = 200 ∨ code0 = 201 ∨ code0 = 409)).
  { intros ok Hok. rewrite Hok. split.
    - intros H. by exists b1, s1, code, b2.
    - intros (? & ? & ? & ? & H0 & H & Hc). inversion H0; subst.
      rewrite E2 in H. inversion H; by subst. }
  destruct ((code =? 200) || (code =? 201)) eqn:Ec; simpl.
  - split; [done|]. split; [done|]. split; [done|]. split; [done|].
    split; [|done]. apply Hiff. split; [|done]. intros _.
    apply orb_true_iff in Ec as [?%Z.eqb_eq|?%Z.eqb_eq]; auto.
  - apply orb_false_iff in Ec as [?%Z.eqb_neq ?%Z.eqb_neq].
    destruct (code =? 409) eqn:Ec9; simpl.
    + apply Z.eqb_eq in Ec9.
      split; [done|]. split; [done|]. split; [done|]. split; [done|].
      split; [|done]. apply Hiff. split; auto.
    + apply Z.eqb_neq in Ec9.
      split; [done|]. split; [done|]. split; [done|]. split; [done|].
      split; [|done]. apply Hiff. split; [done|]. intros [?|[?|?]]; done.
Qed.

(** * The pipeline *)
Section PipelineFacts.
Import PyStr DocumentProcessor EmbeddingService Endee RAGPipeline.
Context {W S : Type}.
Variable create : W → string → embed_input → outcome (list vector) * W.
Variable send : S → request → http_result * S.

Lemma endee_initialize_flag (vs vs' : Endee.vector_store) (dim : Z) (s s' : S)
    (ok : bool) :
  Endee.initialize send vs dim s = (ok, vs', s') →
  collection_name vs' = collection_name vs ∧
  (ok = true → initialized vs' = true) ∧
  (ok = false → vs' = vs).
Proof.
  unfold Endee.initialize.
  destruct (health_check_sync send s) as [healthy s1].
  destruct healthy; simpl; [|by intros [= <- <- <-]].
  destruct (create_collection_sync send _ _ s1) as [success s2].
  destruct success; by intros [= <- <- <-].
Qed.

Lemma pipeline_initialize_flags (p p' : pipeline) (w w' : world W S) (ok : bool) :
  RAGPipeline.initialize send p w = (ok, p', w') →
  document_processor p' = document_processor p ∧
  embedding_service p' = embedding_service p ∧
  collection_name (vector_store p') = collection_name (vector_store p) ∧
  w_client w' = w_client w ∧ w_heap w' = w_heap w ∧
  (ok = true →
   pl_initialized p' = true ∧ initialized (vector_store p') = true) ∧
  (ok = false →
   pl_initialized p' = pl_initialized p ∧ vector_store p' = vector_store p) ∧
  (pl_initialized p = true → pl_initialized p' = true).
Proof.
  unfold RAGPipeline.initialize.
  destruct (Endee.initialize send (vector_store p) _ (w_store w))
    as [[success vs] s] eqn:E.
  apply endee_initialize_flag in E as (Hn & Ht & Hf).
  destruct success; intros [= <- <- <-]; simpl.
  - repeat split; try done. by apply Ht.
  - repeat split; try done; by rewrite Hf.
Qed.

End PipelineFacts.

(** [RAGPipeline.initialize] returns what the vector store's [initialize]
    returns.  On success the pipeline and its vector store are both
    initialized; on failure both are as they were, so a pipeline that was
    initialized stays so; the provider and the chunk dictionaries are never
    touched. *)
Theorem pipeline_initialize_spec {W S : Type}
    (send : S → Endee.request → Endee.http_result * S)
    (p : RAGPipeline.pipeline) (w : RAGPipeline.world W S) :
  match RAGPipeline.initialize send p w with
  | (ok, p', w') =>
      ok = (Endee.initialize send (RAGPipeline.vector_store p)
              (Z.of_nat (EmbeddingService.embedding_dimension
                           (RAGPipeline.embedding_service p)))
              (RAGPipeline.w_store w)).1.1 ∧
      RAGPipeline.document_processor p' = RAGPipeline.document_processor p ∧
      RAGPipeline.embedding_service p' = RAGPipeline.embedding_service p ∧
      RAGPipeline.w_client w' = RAGPipeline.w_client w ∧
      RAGPipeline.w_heap w' = RAGPipeline.w_heap w ∧
      (ok = true →
       RAGPipeline.pl_initialized p' = true ∧
       Endee.initialized (RAGPipeline.vector_store p') = true) ∧
      (ok = false →
       RAGPipeline.pl_initialized p' = RAGPipeline.pl_initialized p ∧
       RAGPipeline.vector_store p' = RAGPipeline.vector_store p) ∧
      (RAGPipeline.pl_initialized p = true →
       RAGPipeline.pl_initialized p' = true)
  end.
Proof.
  destruct (RAGPipeline.initialize send p w) as [[ok p'] w'] eqn:E.
  pose proof (pipeline_initialize_flags send p p' w w' ok E)
    as (H1 & H2 & _ & H4 & H5 & H6 & H7 & H8).
  split; [|done]. unfold RAGPipeline.initialize in E.
  destruct (Endee.initialize send _ _ _) as [[success vs] s].
  simpl. destruct success; by injection E as <- _ _.
Qed.

(** *** The formatting of search results *)
Section SearchFormat.
Import PyStr EmbeddingService Endee SearchViews.

Lemma format_result_well_formed (hit : json) :
  well_formed_hit hit = true →
  ∃ r, format_result hit = Some r ∧ formatted hit r.
Proof.
  destruct hit as [| | | | |items|members]; try done.
  unfold well_formed_hit, format_result, formatted, py_get. intros Hwf.
  destruct (dict_get "metadata" members) as [[| | | | | |metadata]|] eqn:Em;
    try done; simpl; eexists; (split; [reflexivity|]); simpl.
  - exists members, metadata. by rewrite Em.
  - exists members, []. by rewrite Em.
Qed.

Lemma format_result_malformed (hit : json) :
  well_formed_hit hit = false → format_result hit = None.
Proof.
  destruct hit as [| | | | |items|members]; try done.
  unfold well_formed_hit, format_result, py_get.
  by destruct (dict_get "metadata" members) as [[| | | | | |metadata]|].
Qed.

Lemma format_results_well_formed (items : list json) :
  forallb well_formed_hit items = true →
  ∃ rs, mapM format_result items = Some rs ∧
        length rs = length items ∧
        ∀ i hit r, items !! i = Some hit → rs !! i = Some r → formatted hit r.
Proof.
  induction items as [|hit items IH]; intros Hwf.
  - exists []. split; [done|]. split; [done|]. by intros [|i].
  - simpl in Hwf. apply andb_true_iff in Hwf as [Hh Hi].
    destruct (format_result_well_formed hit Hh) as (r & Er & Hr).
    destruct (IH Hi) as (rs & Ers & Hlen & Hall).
    exists (r :: rs). split; [|split].
    + cbn. rewrite Er. cbn. rewrite Ers. reflexivity.
    + simpl. by rewrite Hlen.
    + intros [|i] hit' r' Hhit Hr'; simpl in Hhit, Hr'.
      * by injection Hhit as <-; injection Hr' as <-.
      * by eapply Hall.
Qed.

Lemma format_results_malformed (items : list json) :
  forallb well_formed_hit items = false → mapM format_result items = None.
Proof.
  intros Hwf. apply mapM_None.
  induction items as [|hit items IH]; [done|].
  simpl in Hwf. apply andb_false_iff in Hwf as [Hh|Hi].
  - left. by apply format_result_malformed.
  - right. by apply IH.
Qed.

(** Strings are no hits: going through the characters of a string or the
    keys of a dict, the loop fails at the first one. *)
Lemma format_results_strings {A} (f : A → pystr) (l : list A) :
  match mapM format_result ((λ x, JStr (f x)) <$> l) with
  | Some rs => rs
  | None => []
  end = [].
Proof. by destruct l. Qed.

(** What [search_similar_chunks] returns for an answer of the store. *)
Lemma search_similar_chunks_answer {S : Type}
    (send : S → request → http_result * S) (vs : vector_store)
    (query_embedding : vector) (top_k : Z) (threshold : float) (s s' : S)
    (answer : http_result) :
  initialized vs = true →
  send s (PostSearch (collection_name vs) query_embedding top_k threshold)
    = (answer, s') →
  search_similar_chunks send vs query_embedding top_k threshold s
  = (match mapM format_result (hits_of answer) with
     | Some rs => rs
     | None => []
     end, s').
Proof.
  intros Hv Hs. unfold search_similar_chunks, search_vectors_sync.
  rewrite Hv, Hs. simpl.
  destruct answer as [code [body|]|]; simpl; [|by destruct (code =? 200)|done].
  destruct (code =? 200); [|by destruct body].
  destruct body as [| | | | |items|members]; try done. simpl.
  destruct (dict_get "results" members) as [[| | | | |items|ms]|]; try done;
    simpl.
  - pose proof (format_results_strings (λ c : ascii, [c]) s0) as H.
    destruct (mapM format_result _); [by rewrite H | done].
  - by destruct (mapM format_result items).
  - pose proof (format_results_strings of_string (dict_keys ms)) as H.
    destruct (mapM format_result _); [by rewrite H | done].
Qed.

End SearchFormat.

(** A search on an initialized pipeline whose query embedding succeeds sends
    one search request and does not raise.  When every hit of the answer is a
    JSON object whose [metadata], if it has one, is an object too, there is
    one result per hit, in the order of the answer and however many [top_k]
    asked for, with the fields of the hit and of its metadata or their
    defaults.  When one hit is anything else, the result is the empty list,
    the well-formed hits being dropped with it; an answer that is not 200, a
    body that is no object with a list under [results], and a failure of the
    transport have no hits and give the empty list. *)
Theorem search_documents_result {W S : Type}
    (create : W → string → EmbeddingService.embed_input
              → outcome (list EmbeddingService.vector) * W)
    (send : S → Endee.request → Endee.http_result * S)
    (p : RAGPipeline.pipeline) (w : RAGPipeline.world W S)
    (query : pystr) (top_k : Z) (threshold : float)
    (query_embedding : EmbeddingService.vector) (cl : EmbeddingService.client)
    (answer : Endee.http_result) (s' : S) :
  RAGPipeline.pl_initialized p = true →
  Endee.initialized (RAGPipeline.vector_store p) = true →
  EmbeddingService.generate_embedding create (RAGPipeline.embedding_service p)
    (EmbeddingService.Str query) (RAGPipeline.w_client w)
    = (Ok query_embedding, cl) →
  send (RAGPipeline.w_store w)
    (Endee.PostSearch (Endee.collection_name (RAGPipeline.vector_store p))
       query_embedding top_k threshold) = (answer, s') →
  let hits := SearchViews.hits_of answer in
  ∃ results,
    RAGPipeline.search_documents create send p query top_k threshold w
    = (Ok results,
       {| RAGPipeline.w_client := cl; RAGPipeline.w_store := s';
          RAGPipeline.w_heap := RAGPipeline.w_heap w |}) ∧
    (forallb SearchViews.well_formed_hit hits = true →
     length results = length hits ∧
     ∀ i hit r, hits !! i = Some hit → results !! i = Some r →
                SearchViews.formatted hit r) ∧
    (forallb SearchViews.well_formed_hit hits = false → results = []).
Proof.
  intros Hp Hv Hq Hs hits.
  unfold RAGPipeline.search_documents.
  rewrite Hp, Hq. simpl.
  rewrite (search_similar_chunks_answer send _ _ _ _ _ s' answer Hv Hs).
  fold hits. eexists. split; [reflexivity|]. split.
  - intros Hwf.
    destruct (format_results_well_formed hits Hwf) as (rs & -> & Hlen & Hall).
    done.
  - intros Hwf. by rewrite (format_results_malformed hits Hwf).
Qed.

Lemma search_documents_result_witness :
  ∃ results,
    RAGPipeline.search_documents (EmbedderViews.answering EmbedderViews.ones)
      (SearchViews.answers SearchViews.two_hits) PipelineViews.ready_pipeline
      (PyStr.of_string "chunk") 1 0%float PipelineViews.ready_world
    = (Ok results,
       {| RAGPipeline.w_client :=
            {| EmbeddingService.world := tt;
               EmbeddingService.requests :=
                 [EmbeddingService.InputStr (PyStr.of_string "chunk")] |};
          RAGPipeline.w_store := PipelineViews.store_with_collection;
          RAGPipeline.w_heap := ∅ |}) ∧
    length results = 2%nat.
Proof.
  destruct (search_documents_result (EmbedderViews.answering EmbedderViews.ones)
              (SearchViews.answers SearchViews.two_hits)
              PipelineViews.ready_pipeline PipelineViews.ready_world
              (PyStr.of_string "chunk") 1 0%float
              (EmbedderViews.ones (PyStr.of_string "chunk"))
              {| EmbeddingService.world := tt;
                 EmbeddingService.requests :=
                   [EmbeddingService.InputStr (PyStr.of_string "chunk")] |}
              (Endee.Response 200 (Some SearchViews.two_hits))
              PipelineViews.store_with_collection)
    as (results & E & Hwf & _).
  - reflexivity.
  - reflexivity.
  - reflexivity.
  - reflexivity.
  - exists results. split; [exact E|]. apply Hwf. reflexivity.
Defined.

(** One hit whose [metadata] is [null] empties the whole answer: the hit
    before it, which is well formed, is not returned either. *)
Example null_metadata_empties_answer :
  (RAGPipeline.search_documents (EmbedderViews.answering EmbedderViews.ones)
     (SearchViews.answers SearchViews.null_metadata)
     PipelineViews.ready_pipeline (PyStr.of_string "chunk") 5 0%float
     PipelineViews.ready_world).1 = Ok [] ∧
  length (SearchViews.hits_of
            (Endee.Response 200 (Some SearchViews.null_metadata))) = 2%nat.
Proof. split; reflexivity. Qed.

(** The module functions [process_pdf_file] and [search_documents] never
    raise the not-initialized error: they initialize a new pipeline first and,
    when that fails, return the failure dictionary and the empty list without
    calling the pipeline; [search_documents] raises nothing at all. *)
Theorem convenience_functions_guarded {W S : Type}
    (create : W → string → EmbeddingService.embed_input
              → outcome (list EmbeddingService.vector) * W)
    (send : S → Endee.request → Endee.http_result * S)
    (extract_text_from_pdf : pystr → outcome DocumentProcessor.document_data)
    (now : pystr) (cfg : DocumentProcessor.config) (model : string)
    (w : RAGPipeline.world W S) (file_path query : pystr) (top_k : Z) :
  let started :=
    RAGPipeline.initialize send (RAGPipeline.new_pipeline cfg model) w in
  (∃ results w',
     Convenience.search_documents create send cfg model query top_k w
     = (Ok results, w')) ∧
  (∃ r w',
     Convenience.process_pdf_file create send extract_text_from_pdf now cfg model
       file_path w = (Ok r, w')) ∧
  (started.1.1 = false →
   Convenience.search_documents create send cfg model query top_k w
     = (Ok [], started.2) ∧
   Convenience.process_pdf_file create send extract_text_from_pdf now cfg model
     file_path w = (Ok Convenience.InitFailed, started.2)).
Proof.
  unfold Convenience.search_documents, Convenience.process_pdf_file. simpl.
  destruct (RAGPipeline.initialize send (RAGPipeline.new_pipeline cfg model) w)
    as [[ok p'] w1] eqn:E.
  apply pipeline_initialize_flags in E as (_ & _ & _ & _ & _ & Ht & _ & _).
  destruct ok; simpl; [|by eauto 10].
  destruct (Ht eq_refl) as [Hp Hv].
  split; [|split; [|done]].
  - unfold RAGPipeline.search_documents. rewrite Hp. simpl.
    destruct (EmbeddingService.generate_embedding _ _ _ _) as [[q|e] cl];
      [|eauto].
    destruct (Endee.search_similar_chunks _ _ _ _ _ _) as [results s]. eauto.
  - unfold RAGPipeline.process_pdf_file. rewrite Hp. simpl.
    destruct (RAGPipeline.process_document _ _ _ _ _ _ _) as [r w2]. eauto.
Qed.

(** ** Ingestion *)
Section Ingestion.
Import PyStr DocumentProcessor ChunkerViews EmbeddingService EmbedderViews.
Import Endee RAGPipeline PipelineViews.
Context {W S : Type}.
Variable create : W → string → embed_input → outcome (list vector) * W.
Variable send : S → request → http_result * S.

Lemma chunk_pages_no_sentences (cfg : config) (id : Z) (pages : list page_data) :
  Forall (λ pg, _split_into_sentences (text pg) = []) pages →
  concat (chunk_pages cfg id pages) = [].
Proof.
  intros Hall. revert id. induction Hall as [|pg rest Hpg Hrest IH]; intros id;
    [done|].
  rewrite chunk_pages_cons. rewrite Hpg. simpl. apply IH.
Qed.

Lemma no_sentences_no_chunks (cfg : config) (d : document_data) :
  Forall (λ pg, _split_into_sentences (text pg) = []) (content d) →
  split_text_into_chunks cfg d = [].
Proof.
  intros H. unfold split_text_into_chunks.
  by rewrite chunk_pages_no_sentences.
Qed.

Lemma alloc_spec (d : dict) (h h' : heap) (l : loc) :
  alloc d h = (l, h') →
  h !! l = None ∧ h' !! l = Some d ∧ ∀ l' d', h !! l' = Some d' → h' !! l' = Some d'.
Proof.
  unfold alloc. intros [= <- <-].
  assert (Hf : h !! fresh (dom h) = None) by apply fresh_unused.
  split; [done|]. split; [apply lookup_insert_eq|].
  intros l' d' H. rewrite lookup_insert_ne; [done|]. congruence.
Qed.

Lemma chunk_dict_spec (c : chunk) (h h' : heap) (r : loc) :
  chunk_dict c h = (r, h') →
  chunk_object h' r ∧ ∀ l d, h !! l = Some d → h' !! l = Some d.
Proof.
  unfold chunk_dict.
  destruct (alloc _ h) as [lm h1] eqn:E1.
  apply alloc_spec in E1 as (_ & Hlm & Hk1).
  intros (_ & Hr & Hk2)%alloc_spec. split; [|by eauto].
  eexists _, lm, _. split; [exact Hr|].
  split; [rewrite lookup_insert_ne by done; by rewrite lookup_insert_eq|].
  split; [by rewrite lookup_insert_eq|].
  split; [rewrite !lookup_insert_ne by done; by rewrite lookup_insert_eq|].
  split; [by apply Hk2|]. by rewrite lookup_insert_eq.
Qed.

Lemma chunk_object_keep (h h' : heap) (r : loc) :
  (∀ l d, h !! l = Some d → h' !! l = Some d) →
  chunk_object h r → chunk_object h' r.
Proof.
  intros Hk (d & lm & md & H1 & H2 & H3 & H4 & H5 & H6).
  exists d, lm, md. eauto 10.
Qed.

Lemma chunk_dicts_spec (cs : list chunk) (h h' : heap) (refs : list loc) :
  chunk_dicts cs h = (refs, h') →
  length refs = length cs ∧
  (∀ l d, h !! l = Some d → h' !! l = Some d) ∧
  Forall (chunk_object h') refs.
Proof.
  revert h h' refs. induction cs as [|c rest IH]; intros h h' refs.
  - intros [= <- <-]. split; [done|]. split; [done | constructor].
  - cbn [chunk_dicts]. destruct (chunk_dict c h) as [l h1] eqn:E1.
    destruct (chunk_dicts rest h1) as [ls h2] eqn:E2.
    intros [= <- <-]. apply chunk_dict_spec in E1 as [Ho Hk1].
    apply IH in E2 as (Hl & Hk2 & Hall).
    split; [simpl; by rewrite Hl|]. split; [by eauto|].
    constructor; [by eapply chunk_object_keep | done].
Qed.

Lemma for_chunks_spec (svc : service) (chunks : list loc) (h : heap)
    (cl : client) :
  Forall (chunk_object h) chunks →
  ∃ outs h' cl',
    generate_embeddings_for_chunks create svc chunks h cl = (Ok outs, h', cl') ∧
    length outs = length chunks ∧
    Forall (λ o, ∃ d lm md e,
              h' !! o = Some (enriched_dict svc d e) ∧
              is_Some (d !! "text") ∧ is_Some (d !! "chunk_id") ∧
              d !! "metadata" = Some (VRef lm) ∧
              h' !! lm = Some md ∧ is_Some (md !! "source")) outs.
Proof.
  intros Hall. unfold generate_embeddings_for_chunks.
  destruct (chunk_texts_total h chunks) as [texts Ht].
  { intros c Hc. rewrite Forall_forall in Hall.
    destruct (Hall c Hc) as (d & _ & _ & Hd & Htext & _).
    unfold deref. by rewrite Hd. }
  rewrite Ht. apply chunk_texts_spec in Ht as [Hlt _].
  destruct (generate_default_ok create svc texts cl) as (embs & cl' & -> & Hl).
  destruct (enrich svc (zip chunks embs) h) as [outs h'] eqn:E.
  apply enrich_spec in E as (Hlen & Hpres & Hnew).
  2:{ intros [c e] [i Hi]%list_elem_of_lookup.
      apply lookup_zip_Some in Hi as [Hc _]. simpl.
      rewrite Forall_forall in Hall.
      destruct (Hall c) as (d & _ & _ & -> & _); [|done].
      apply list_elem_of_lookup. eauto. }
  exists outs, h', cl'. split; [done|].
  assert (Hlo : length outs = length chunks) by (rewrite Hlen, length_zip; lia).
  split; [done|].
  apply Forall_lookup. intros i o Ho.
  destruct (lookup_lt_is_Some_2 chunks i) as [c Hc].
  { apply lookup_lt_Some in Ho. lia. }
  destruct (lookup_lt_is_Some_2 embs i) as [e He].
  { apply lookup_lt_Some in Hc. lia. }
  destruct (Hnew i c e) as (o' & d & Ho' & _ & Hd & Hd').
  { by apply lookup_zip_Some. }
  assert (o' = o) as -> by congruence.
  rewrite Forall_forall in Hall.
  destruct (Hall c) as (d0 & lm & md & Hd0 & H2 & H3 & H4 & H5 & H6).
  { apply list_elem_of_lookup. eauto. }
  assert (d0 = d) as -> by congruence.
  exists d, lm, md, e. eauto 10.
Qed.

Lemma for_chunks_length (svc : service) (chunks outs : list loc) (h h' : heap)
    (cl cl' : client) :
  generate_embeddings_for_chunks create svc chunks h cl = (Ok outs, h', cl') →
  length outs = length chunks.
Proof.
  unfold generate_embeddings_for_chunks.
  destruct (chunk_texts h chunks) as [texts|e] eqn:Et; [|done].
  apply chunk_texts_spec in Et as [Hlt _].
  destruct (generate_default_ok create svc texts cl) as (embs & c1 & -> & Hl).
  destruct (enrich svc (zip chunks embs) h) as [o h2] eqn:E.
  intros [= <- <- <-].
  pose proof (length_zip chunks embs) as Hz.
  assert (Hgen : ∀ pairs hh oo hh2,
            enrich svc pairs hh = (oo, hh2) → length oo = length pairs).
  { induction pairs as [|[c e] rest IH]; intros hh oo hh2; simpl.
    - by intros [= <- <-].
    - destruct (dict_copy c hh) as [l h1].
      destruct (enrich svc rest _) as [os h3] eqn:E'.
      intros [= <- <-]. simpl. f_equal. by eapply IH. }
  rewrite (Hgen _ _ _ _ E). lia.
Qed.

Lemma vector_data_of_ok (svc : service) (now : pystr) (h : heap) (o : loc)
    (d md : dict) (lm : loc) (e : vector) :
  h !! o = Some (enriched_dict svc d e) →
  is_Some (d !! "text") → is_Some (d !! "chunk_id") →
  d !! "metadata" = Some (VRef lm) →
  h !! lm = Some md → is_Some (md !! "source") →
  is_Some (vector_data_of now h o).
Proof.
  intros Ho [txt Ht] [cid Hc] Hm Hlm [src Hs].
  unfold vector_data_of, deref. rewrite Ho. simpl.
  rewrite (enriched_dict_other svc d e "metadata") by (by vm_compute; set_solver).
  rewrite Hm, Hlm. simpl. rewrite Hs.
  rewrite (enriched_dict_other svc d e "chunk_id") by (by vm_compute; set_solver).
  rewrite (enriched_dict_other svc d e "text") by (by vm_compute; set_solver).
  rewrite Hc, Ht.
  assert (He : enriched_dict svc d e !! "embedding" = Some (VFloats e)).
  { unfold enriched_dict. rewrite !lookup_insert_ne by done.
    by rewrite lookup_insert_eq. }
  rewrite He. eauto.
Qed.

Lemma vectors_data_of_ok (now : pystr) (h : heap) (outs : list loc) :
  Forall (λ o, is_Some (vector_data_of now h o)) outs →
  ∃ es, vectors_data_of now h outs = Some es.
Proof.
  induction 1 as [|o rest [e He] Hrest [es IH]]; simpl; [eauto|].
  rewrite He, IH. eauto.
Qed.

End Ingestion.

(** On an initialized pipeline [process_pdf_file] does not raise when the
    extraction fails or finds nothing to chunk: it returns a failure with the
    extractor's exception, or with a [ValueError] when no page has a
    sentence, and in both cases neither the provider nor the store is
    contacted. *)
Theorem ingest_failure_modes {W S : Type}
    (create : W → string → EmbeddingService.embed_input
              → outcome (list EmbeddingService.vector) * W)
    (send : S → Endee.request → Endee.http_result * S)
    (extract_text_from_pdf : pystr → outcome DocumentProcessor.document_data)
    (now : pystr) (p : RAGPipeline.pipeline) (w : RAGPipeline.world W S)
    (file_path : pystr) :
  RAGPipeline.pl_initialized p = true →
  match extract_text_from_pdf file_path with
  | Raise e =>
      RAGPipeline.process_pdf_file create send extract_text_from_pdf now p
        file_path w = (Ok (RAGPipeline.Failed e file_path), w)
  | Ok d =>
      Forall (λ pg, DocumentProcessor._split_into_sentences
                      (DocumentProcessor.text pg) = [])
        (DocumentProcessor.content d) →
      ∃ msg,
        RAGPipeline.process_pdf_file create send extract_text_from_pdf now p
          file_path w
        = (Ok (RAGPipeline.Failed (ValueError msg) file_path), w)
  end.
Proof.
  intros Hp. unfold RAGPipeline.process_pdf_file. rewrite Hp. simpl.
  unfold RAGPipeline.process_document.
  destruct (extract_text_from_pdf file_path) as [d|e]; [|done].
  intros Hall. destruct (DocumentProcessor.content d) eqn:Ec; [eauto|].
  rewrite no_sentences_no_chunks; [eauto|]. by rewrite Ec.
Qed.

Lemma ingest_failure_modes_witness :
  ∃ msg,
    RAGPipeline.process_pdf_file (EmbedderViews.answering EmbedderViews.ones)
      Endee.reachable_store PipelineViews.reads_blank Uninitialized.clock
      PipelineViews.ready_pipeline (PyStr.of_string "a.pdf")
      PipelineViews.ready_world
    = (Ok (RAGPipeline.Failed (ValueError msg) (PyStr.of_string "a.pdf")),
       PipelineViews.ready_world).
Proof.
  apply (ingest_failure_modes (EmbedderViews.answering EmbedderViews.ones)
           Endee.reachable_store PipelineViews.reads_blank Uninitialized.clock
           PipelineViews.ready_pipeline PipelineViews.ready_world
           (PyStr.of_string "a.pdf")).
  - reflexivity.
  - repeat constructor.
Defined.

(** A success report of [process_pdf_file] is consistent: the pipeline and
    its vector store were initialized, the extraction succeeded, and
    [total_chunks] and [chunks_stored] both are the number of chunks of the
    extracted document, at least one; the model and the dimension are those
    of the embedding service. *)
Theorem ingest_success_report {W S : Type}
    (create : W → string → EmbeddingService.embed_input
              → outcome (list EmbeddingService.vector) * W)
    (send : S → Endee.request → Endee.http_result * S)
    (extract_text_from_pdf : pystr → outcome DocumentProcessor.document_data)
    (now : pystr) (p : RAGPipeline.pipeline) (w : RAGPipeline.world W S)
    (file_path name em : pystr) (tp : Z) (n k dim : nat) (mdl : string) :
  (RAGPipeline.process_pdf_file create send extract_text_from_pdf now p
     file_path w).1 = Ok (RAGPipeline.Processed name tp n em mdl dim k) →
  PipelineViews.ready p ∧
  ∃ d,
    extract_text_from_pdf file_path = Ok d ∧
    n = length (DocumentProcessor.split_text_into_chunks
                  (RAGPipeline.document_processor p) d) ∧
    k = n ∧ (1 ≤ n)%nat ∧
    name = file_path ∧
    tp = DocumentProcessor.total_pages (DocumentProcessor.metadata d) ∧
    em = DocumentProcessor.extraction_method (DocumentProcessor.metadata d) ∧
    mdl = EmbeddingService.model (RAGPipeline.embedding_service p) ∧
    dim = EmbeddingService.embedding_dimension (RAGPipeline.embedding_service p).
Proof.
  unfold RAGPipeline.process_pdf_file, PipelineViews.ready.
  destruct (RAGPipeline.pl_initialized p) eqn:Hp; simpl; [|done].
  unfold RAGPipeline.process_document.
  destruct (extract_text_from_pdf file_path) as [d|e]; [|done].
  destruct (DocumentProcessor.content d) eqn:Ec; [done|]. clear Ec.
  destruct (DocumentProcessor.split_text_into_chunks _ d) as [|c cs] eqn:Es;
    [done|]. rewrite <- Es.
  destruct (RAGPipeline.chunk_dicts _ _) as [refs h1] eqn:Ed.
  apply chunk_dicts_spec in Ed as (Hl & _ & _).
  destruct (EmbeddingService.generate_embeddings_for_chunks _ _ _ _ _)
    as [[r h2] cl] eqn:Eg.
  destruct r as [outs|e]; [|done].
  apply for_chunks_length in Eg.
  unfold Endee.store_document_chunks.
  destruct (Endee.initialized (RAGPipeline.vector_store p)) eqn:Hv; simpl;
    [|done].
  destruct (Endee.vectors_data_of _ _ _) as [es|]; simpl; [|done].
  destruct (Endee.insert_vectors_sync _ _ _ _) as [ok s]. simpl.
  destruct ok; simpl; [|done].
  intros [= <- <- <- <- <- <- <-]. split; [done|]. exists d.
  split; [done|]. split; [done|]. split; [lia|].
  split; [rewrite Es; simpl; lia | done].
Qed.

Lemma ingest_success_report_witness :
  PipelineViews.ready PipelineViews.ready_pipeline ∧
  ∃ d,
    PipelineViews.reads_scenario (PyStr.of_string "a.pdf") = Ok d ∧
    3%nat = length (DocumentProcessor.split_text_into_chunks
                      (RAGPipeline.document_processor PipelineViews.ready_pipeline)
                      d) ∧
    3%nat = 3%nat ∧ (1 ≤ 3)%nat ∧
    PyStr.of_string "a.pdf" = PyStr.of_string "a.pdf" ∧
    1 = DocumentProcessor.total_pages (DocumentProcessor.metadata d) ∧
    PyStr.of_string "pdfplumber"
      = DocumentProcessor.extraction_method (DocumentProcessor.metadata d) ∧
    "text-embedding-3-small"%string
      = EmbeddingService.model
          (RAGPipeline.embedding_service PipelineViews.ready_pipeline) ∧
    1536%nat
      = EmbeddingService.embedding_dimension
          (RAGPipeline.embedding_service PipelineViews.ready_pipeline).
Proof.
  apply (ingest_success_report EmbedderViews.failing Endee.reachable_store
           PipelineViews.reads_scenario Uninitialized.clock
           PipelineViews.ready_pipeline PipelineViews.ready_world
           (PyStr.of_string "a.pdf")).
  vm_compute. reflexivity.
Defined.

(** On a pipeline that is ready, a document with at least one chunk is stored
    whatever the provider does: when the store accepts the insertion,
    [process_pdf_file] reports success with all chunks stored, also when every
    embedding request failed and the vectors stored are zero vectors. *)
Theorem ingest_survives_provider {W S : Type}
    (create : W → string → EmbeddingService.embed_input
              → outcome (list EmbeddingService.vector) * W)
    (send : S → Endee.request → Endee.http_result * S)
    (extract_text_from_pdf : pystr → outcome DocumentProcessor.document_data)
    (now : pystr) (p : RAGPipeline.pipeline) (w : RAGPipeline.world W S)
    (file_path : pystr) (d : DocumentProcessor.document_data) :
  PipelineViews.ready p →
  extract_text_from_pdf file_path = Ok d →
  DocumentProcessor.split_text_into_chunks (RAGPipeline.document_processor p) d
    ≠ [] →
  (∀ vectors, ∃ code body s',
     send (RAGPipeline.w_store w)
       (Endee.PostVectors (Endee.collection_name (RAGPipeline.vector_store p))
          vectors) = (Endee.Response code body, s') ∧
     (code = 200 ∨ code = 201)) →
  let n := length (DocumentProcessor.split_text_into_chunks
                     (RAGPipeline.document_processor p) d) in
  (RAGPipeline.process_pdf_file create send extract_text_from_pdf now p
     file_path w).1
  = Ok (RAGPipeline.Processed file_path
          (DocumentProcessor.total_pages (DocumentProcessor.metadata d)) n
          (DocumentProcessor.extraction_method (DocumentProcessor.metadata d))
          (EmbeddingService.model (RAGPipeline.embedding_service p))
          (EmbeddingService.embedding_dimension (RAGPipeline.embedding_service p))
          n).
Proof.
  intros [Hp Hv] He Hne Hsend. simpl.
  unfold RAGPipeline.process_pdf_file. rewrite Hp. simpl.
  unfold RAGPipeline.process_document. rewrite He.
  destruct (DocumentProcessor.content d) eqn:Ec.
  { exfalso. apply Hne. apply no_sentences_no_chunks. rewrite Ec. constructor. }
  clear Ec.
  destruct (DocumentProcessor.split_text_into_chunks _ d) as [|c cs] eqn:Es;
    [done|]. rewrite <- Es.
  destruct (RAGPipeline.chunk_dicts _ _) as [refs h1] eqn:Ed.
  apply chunk_dicts_spec in Ed as (Hl & _ & Hobj).
  destruct (for_chunks_spec create (RAGPipeline.embedding_service p) refs h1
              (RAGPipeline.w_client w) Hobj) as (outs & h2 & cl & -> & Hlo & Hall).
  unfold Endee.store_document_chunks. rewrite Hv. simpl.
  destruct (vectors_data_of_ok now h2 outs) as [es ->].
  { eapply Forall_impl; [exact Hall|]. intros o (d0 & lm & md & e & H).
    destruct H as (H1 & H2 & H3 & H4 & H5 & H6).
    by eapply vector_data_of_ok. }
  unfold Endee.insert_vectors_sync.
  destruct (Hsend es) as (code & body & s' & -> & Hc). simpl.
  assert ((code =? 200) || (code =? 201) = true) as ->.
  { destruct Hc as [-> | ->]; done. }
  simpl. rewrite Hlo, Hl. done.
Qed.

Lemma ingest_survives_provider_witness :
  (RAGPipeline.process_pdf_file EmbedderViews.failing Endee.reachable_store
     PipelineViews.reads_scenario Uninitialized.clock
     PipelineViews.ready_pipeline (PyStr.of_string "a.pdf")
     PipelineViews.ready_world).1
  = Ok (RAGPipeline.Processed (PyStr.of_string "a.pdf") 1 3
          (PyStr.of_string "pdfplumber") "text-embedding-3-small" 1536 3).
Proof.
  apply (ingest_survives_provider EmbedderViews.failing Endee.reachable_store
           PipelineViews.reads_scenario Uninitialized.clock
           PipelineViews.ready_pipeline PipelineViews.ready_world
           (PyStr.of_string "a.pdf") Scenario.document).
  - split; reflexivity.
  - reflexivity.
  - discriminate.
  - intros vectors. exists 200, None, PipelineViews.store_with_collection.
    split; [reflexivity | by left].
Defined.

Lemma search_after_initialize_witness :
  (∃ results w',
     RAGPipeline.search_documents EmbedderViews.failing Endee.reachable_store
       PipelineViews.ready_pipeline (PyStr.of_string "chunk") 5 0%float
       PipelineViews.ready_world = (Ok results, w')) ∧
  (∀ e cl,
     EmbeddingService.generate_embedding EmbedderViews.failing
       (RAGPipeline.embedding_service PipelineViews.ready_pipeline)
       (EmbeddingService.Str (PyStr.of_string "chunk"))
       (RAGPipeline.w_client PipelineViews.ready_world) = (Raise e, cl) →
     (RAGPipeline.search_documents EmbedderViews.failing Endee.reachable_store
        PipelineViews.ready_pipeline (PyStr.of_string "chunk") 5 0%float
        PipelineViews.ready_world).1 = Ok []).
Proof.
  apply (search_after_initialize EmbedderViews.failing Endee.reachable_store
           PipelineViews.ready_pipeline PipelineViews.ready_world
           (PyStr.of_string "chunk") 5 0%float).
  reflexivity.
Defined.

(** When a chunk has no [text], [generate_embeddings_for_chunks] raises
    [KeyError] before anything is sent or copied: the heap and the provider
    are as they were. *)
Theorem for_chunks_missing_text {W : Type}
    (create : W → string → EmbeddingService.embed_input
              → outcome (list EmbeddingService.vector) * W)
    (svc : EmbeddingService.service) (chunks : list EmbeddingService.loc)
    (h : EmbeddingService.heap) (cl : EmbeddingService.client)
    (chunk : EmbeddingService.loc) :
  chunk ∈ chunks →
  EmbeddingService.deref h chunk !! "text"%string = None →
  EmbeddingService.generate_embeddings_for_chunks create svc chunks h cl
  = (Raise (KeyError "text"), h, cl).
Proof.
  intros Hin Hnone. unfold EmbeddingService.generate_embeddings_for_chunks.
  assert (E : EmbeddingService.chunk_texts h chunks = Raise (KeyError "text")).
  { induction chunks as [|c rest IH]; [by apply elem_of_nil in Hin|]. simpl.
    destruct (EmbeddingService.deref h c !! "text"%string) as [v|] eqn:Ev;
      [|done].
    apply elem_of_cons in Hin as [->|Hin]; [congruence|].
    by rewrite (IH Hin). }
  by rewrite E.
Qed.

Lemma for_chunks_missing_text_witness :
  EmbeddingService.generate_embeddings_for_chunks
    (EmbedderViews.answering EmbedderViews.ones) EmbedderViews.small
    [1%positive] PipelineViews.textless_heap
    {| EmbeddingService.world := tt; EmbeddingService.requests := [] |}
  = (Raise (KeyError "text"), PipelineViews.textless_heap,
     {| EmbeddingService.world := tt; EmbeddingService.requests := [] |}).
Proof.
  apply (for_chunks_missing_text (EmbedderViews.answering EmbedderViews.ones)
           EmbedderViews.small [1%positive] PipelineViews.textless_heap _
           1%positive).
  - left.
  - reflexivity.
Defined.

(** * Counting words *)
Section WordCount.
Import PyStr DocumentProcessor ChunkerViews.

Lemma glue_app (c : ascii) (x y : list pystr) :
  x ≠ [] → glue c (x ++ y) = glue c x ++ y.
Proof. by destruct x. Qed.

Lemma split_app_space (a b : pystr) :
  split (a ++ " "%char :: b) = split a ++ split b.
Proof.
  induction a as [|c t IH]; [done|].
  cbn [app split]. destruct (is_space c) eqn:Ec; [done|].
  destruct t as [|d t'].
  - done.
  - cbn [app] in *. destruct (is_space d) eqn:Ed.
    + by rewrite IH.
    + rewrite IH. apply glue_app.
      apply (split_nonempty _ d); [left | done].
Qed.

(** The words of a joined list are the words of its elements. *)
Lemma split_join_concat (ws : list pystr) :
  split (join space ws) = concat (split <$> ws).
Proof.
  induction ws as [|w ws IH]; [done|].
  destruct ws as [|w' ws']; [simpl; by rewrite app_nil_r|].
  change (join space (w :: w' :: ws'))
    with (w ++ " "%char :: join space (w' :: ws')).
  rewrite split_app_space, IH. done.
Qed.

Lemma fits_prefix (cfg : config) (l k : list pystr) :
  fits cfg (l ++ k) = true → fits cfg l = true.
Proof.
  unfold fits. rewrite !split_join_concat, fmap_app, concat_app, length_app.
  intros H%Z.leb_le. apply Z.leb_le. lia.
Qed.

Lemma groups_single (cfg : config) (cs sentences : list pystr) :
  fits cfg (cs ++ sentences) = true →
  sentence_groups cfg cs sentences = closed (cs ++ sentences).
Proof.
  revert cs. induction sentences as [|s rest IH]; intros cs Hfit;
    cbn [sentence_groups]; [by rewrite app_nil_r|].
  rewrite (fits_prefix cfg (cs ++ [s]) rest) by (by rewrite <- app_assoc).
  rewrite IH by (by rewrite <- app_assoc). by rewrite <- app_assoc.
Qed.

End WordCount.

(** The [word_count] of a chunk is the sum of the word counts of its
    sentences. *)
Theorem chunk_word_count_is_sum (cfg : DocumentProcessor.config)
    (d : DocumentProcessor.document_data) :
  Forall (λ calls,
    Forall (λ c,
      DocumentProcessor.cm_word_count
        (DocumentProcessor.chunk_metadata_of
           (DocumentProcessor._create_chunk (DocumentProcessor.metadata d) c))
      = length (concat (PyStr.split <$> DocumentProcessor.call_sentences c)))
      calls)
    (DocumentProcessor.chunk_pages cfg 0 (DocumentProcessor.content d)).
Proof.
  apply Forall_lookup. intros i calls Hcalls.
  destruct (chunk_pages_lookup_inv _ _ _ _ Hcalls) as [p Hp].
  apply Forall_forall. intros c Hc.
  destruct (page_calls_spec _ _ _ _ _ _ Hp Hcalls Hc) as (_ & _ & Ht & _).
  simpl. by rewrite Ht, split_join_concat.
Qed.

(** A page whose sentences together count at most [chunk_size] words gives
    exactly one chunk, which holds all its sentences in order. *)
Theorem page_that_fits_is_one_chunk (cfg : DocumentProcessor.config)
    (d : DocumentProcessor.document_data) (i : nat)
    (p : DocumentProcessor.page_data)
    (calls : list DocumentProcessor.chunk_call) :
  DocumentProcessor.content d !! i = Some p →
  DocumentProcessor.chunk_pages cfg 0 (DocumentProcessor.content d) !! i
    = Some calls →
  DocumentProcessor._split_into_sentences (DocumentProcessor.text p) ≠ [] →
  Z.of_nat (length (concat (PyStr.split
     <$> DocumentProcessor._split_into_sentences (DocumentProcessor.text p))))
    ≤ DocumentProcessor.chunk_size cfg →
  ∃ c, calls = [c] ∧
       DocumentProcessor.call_sentences c
       = DocumentProcessor._split_into_sentences (DocumentProcessor.text p).
Proof.
  intros Hp Hcalls Hne Hfit.
  pose proof (page_calls_groups cfg _ i p calls Hp Hcalls) as E.
  rewrite groups_single in E.
  2:{ unfold ChunkerViews.fits. simpl. rewrite split_join_concat.
      by apply Z.leb_le. }
  simpl in E.
  destruct (DocumentProcessor._split_into_sentences (DocumentProcessor.text p))
    as [|s ss]; [done|].
  destruct calls as [|c [|c' calls']]; [done| |done].
  exists c. split; [done|]. by injection E.
Qed.

Lemma page_that_fits_is_one_chunk_witness :
  ∃ c, [ {| DocumentProcessor.call_id := 0;
            DocumentProcessor.call_text :=
              PyStr.of_string
                "ML is great AI is powerful Deep learning is a subset";
            DocumentProcessor.call_page := 1;
            DocumentProcessor.call_sentences :=
              [Scenario.s1; Scenario.s2; Scenario.s3] |} ] = [c] ∧
       DocumentProcessor.call_sentences c
       = DocumentProcessor._split_into_sentences
           (DocumentProcessor.text Scenario.the_page).
Proof.
  apply (page_that_fits_is_one_chunk
           {| DocumentProcessor.chunk_size := 11;
              DocumentProcessor.chunk_overlap := 1 |}
           Scenario.document 0 Scenario.the_page).
  - reflexivity.
  - reflexivity.
  - discriminate.
  - vm_compute. discriminate.
Defined.
